(** * TriPlayer: the application's sysmodule client (Sysmodule.cpp)

  A shallow embedding of [Sysmodule], the object through which the
  application talks to the playback service: the write queue of
  (request, completion handler) pairs, the worker loop [process] that
  drains it over the transfer socket, the version handshake of
  [reconnect], the typed [send...] encoders with their handlers, the
  cached fields with their accessors, and the blocking [wait...] calls.

  The object is a record, every method a function on it.  Closures
  handed to [addToWriteQueue] are defunctionalised: one constructor of
  [Handler] per lambda of the source, carrying what the lambda captures,
  and [run_handler] is its body.  Exceptions of the C++ library
  ([std::stoi] and friends) are results of type [Outcome]. *)

From Stdlib Require Import Decimal DecimalPos DecimalZ.
From Stdlib Require Import ZArith List String Ascii Bool Lia.
From Stdlib Require Import SpecFloat DecimalString.
Import ListNotations.

Local Open Scope Z_scope.
Local Infix "+++" := String.append (at level 60, right associativity).

(** ** Results of code that may throw *)

Inductive Abort : Set :=
| InvalidArgument      (* std::invalid_argument: no conversion could be performed *)
| OutOfRange           (* std::out_of_range: errno == ERANGE, or the value does not fit *)
| NullSocket.          (* [this->socket] dereferenced while it is nullptr *)

(** [Returned a]: the call returns [a].  [Aborted e a]: it is left by [e];
  [a] is what the object looks like at that point. *)
Inductive Outcome (A : Type) : Type :=
| Returned (a : A)
| Aborted (e : Abort) (a : A).
Arguments Returned {A} a.
Arguments Aborted {A} e a.

(** The C++ runtime functions the source calls. *)
Module Cxx.

Definition INT_MIN : Z := - 2 ^ 31.
Definition INT_MAX : Z := 2 ^ 31 - 1.
(* LP64: long and size_t are 64 bits wide on the AArch64 target. *)
Definition LONG_MIN : Z := - 2 ^ 63.
Definition LONG_MAX : Z := 2 ^ 63 - 1.
Definition ULONG_MAX : Z := 2 ^ 64 - 1.
Definition SIZE_MAX : Z := 2 ^ 64 - 1.     (* numeric_limits<size_t>::max() *)

(** Conversion of a signed value to size_t. *)
Definition to_size_t (z : Z) : Z := z mod 2 ^ 64.
(** Conversion of a long to int (two's complement wrap-around). *)
Definition to_int (z : Z) : Z := (z + 2 ^ 31) mod 2 ^ 32 - 2 ^ 31.

(** std::to_string on an integer type: "%d" / "%lu". *)
Definition to_string (z : Z) : string := NilZero.string_of_int (Z.to_int z).

Definition isspace (c : ascii) : bool :=
  let n := Z.of_nat (nat_of_ascii c) in
  (n =? 32) || ((9 <=? n) && (n <=? 13)).

Definition digit_of (c : ascii) : option Z :=
  let n := Z.of_nat (nat_of_ascii c) in
  if (48 <=? n) && (n <=? 57) then Some (n - 48) else None.

Fixpoint skip_space (s : string) : string :=
  match s with
  | String c s' => if isspace c then skip_space s' else s
  | EmptyString => s
  end.

(** An optional sign: [true] for '-'. *)
Definition take_sign (s : string) : bool * string :=
  match s with
  | String "-" s' => (true, s')
  | String "+" s' => (false, s')
  | _ => (false, s)
  end.

(** The longest prefix of decimal digits: its value from [acc], how many
    digits it has, and what follows. *)
Fixpoint take_digits (acc : Z) (n : nat) (s : string) : Z * nat * string :=
  match s with
  | String c s' =>
      match digit_of c with
      | Some d => take_digits (10 * acc + d) (S n) s'
      | None => (acc, n, s)
      end
  | EmptyString => (acc, n, s)
  end.

(** The subject sequence of strtol/strtoul in base 10: white space, an
    optional sign, one digit at least.  [None]: no conversion. *)
Definition parse_integer (s : string) : option (bool * Z) :=
  let '(neg, s1) := take_sign (skip_space s) in
  let '(v, n, _) := take_digits 0 0 s1 in
  match n with
  | O => None
  | S _ => Some (neg, v)
  end.

Definition signed (neg : bool) (v : Z) : Z := if neg then - v else v.

(** strtol(s, nullptr, 10): 0 without a conversion, clamped on overflow. *)
Definition strtol (s : string) : Z :=
  match parse_integer s with
  | None => 0
  | Some (neg, v) => Z.max LONG_MIN (Z.min LONG_MAX (signed neg v))
  end.

(** std::stoi(s): strtol, then the range check against int. *)
Definition stoi (s : string) : Abort + Z :=
  match parse_integer s with
  | None => inl InvalidArgument
  | Some (neg, v) =>
      let r := signed neg v in
      if (INT_MIN <=? r) && (r <=? INT_MAX) then inr r else inl OutOfRange
  end.

(** std::stoul(s): strtoul, which negates a signed subject modulo 2^64 and
    reports ERANGE only when the magnitude does not fit. *)
Definition stoul (s : string) : Abort + Z :=
  match parse_integer s with
  | None => inl InvalidArgument
  | Some (neg, v) =>
      if v <=? ULONG_MAX then inr (to_size_t (signed neg v)) else inl OutOfRange
  end.

(** *** double *)

Definition prec : Z := 53.
Definition emax : Z := 1024.
Definition double : Set := spec_float.

(** The double nearest to [m * 2 ^ e]. *)
Definition double_of (m e : Z) : double := binary_normalize prec emax m e false.
Definition double_of_Z (z : Z) : double := double_of z 0.

(** The double nearest to [n / d], for positive [n] and [d]. *)
Definition double_quot (neg : bool) (n d : positive) : double :=
  SFdiv prec emax (S754_finite neg n 0) (S754_finite false d 0).

(** The double nearest to [±m * 10 ^ e10]. *)
Definition double_decimal (neg : bool) (m e10 : Z) : double :=
  match m with
  | Z.pos p =>
      if 0 <=? e10
      then binary_normalize prec emax (signed neg (m * 10 ^ e10)) 0 neg
      else double_quot neg p (Z.to_pos (10 ^ (- e10)))
  | _ => S754_zero neg
  end.

Definition lower (c : ascii) : ascii :=
  let n := nat_of_ascii c in
  if (Nat.leb 65 n && Nat.leb n 90)%bool then ascii_of_nat (n + 32) else c.

Fixpoint lower_prefix (p s : string) : option string :=
  match p, s with
  | EmptyString, _ => Some s
  | String a p', String b s' =>
      if Ascii.eqb a (lower b) then lower_prefix p' s' else None
  | String _ _, EmptyString => None
  end.

Definition hex_digit_of (c : ascii) : option Z :=
  let n := Z.of_nat (nat_of_ascii (lower c)) in
  match digit_of c with
  | Some d => Some d
  | None => if (97 <=? n) && (n <=? 102) then Some (n - 87) else None
  end.

Fixpoint take_hex_digits (acc : Z) (n : nat) (s : string) : Z * nat * string :=
  match s with
  | String c s' =>
      match hex_digit_of c with
      | Some d => take_hex_digits (16 * acc + d) (S n) s'
      | None => (acc, n, s)
      end
  | EmptyString => (acc, n, s)
  end.

(** An exponent part [mark][sign]digits; 0 when it is absent or has no
    digit. *)
Definition take_exponent (mark : ascii) (s : string) : Z :=
  match s with
  | String c s' =>
      if Ascii.eqb (lower c) mark then
        let '(neg, s1) := take_sign s' in
        let '(v, n, _) := take_digits 0 0 s1 in
        match n with O => 0 | S _ => signed neg v end
      else 0
  | EmptyString => 0
  end.

(** digits[.digits]: the digits read as one integer, how many there are
    in all, how many after the point, and what follows. *)
Definition take_mantissa (digits : Z -> nat -> string -> Z * nat * string)
    (s : string) : Z * nat * nat * string :=
  let '(v1, n1, s1) := digits 0 O s in
  match s1 with
  | String "." s2 =>
      let '(v2, n2, s3) := digits v1 n1 s2 in
      (v2, n2, (n2 - n1)%nat, s3)
  | _ => (v1, n1, O, s1)
  end.

(** The hexadecimal form 0x h[.h][p±d], when [s] has it. *)
Definition hex_float (neg : bool) (s : string) : option (Z * double) :=
  match lower_prefix "0x" s with
  | Some s1 =>
      let '(v, n, k, s2) := take_mantissa take_hex_digits s1 in
      match n with
      | O => None
      | S _ =>
          Some (v, binary_normalize prec emax (signed neg v)
                     (take_exponent "p" s2 - 4 * Z.of_nat k) neg)
      end
  | None => None
  end.

Definition is_finite (d : double) : bool :=
  match d with
  | S754_zero _ | S754_finite _ _ _ => true
  | _ => false
  end.

Definition is_zero (d : double) : bool :=
  match d with
  | S754_zero _ => true
  | _ => false
  end.

(** ERANGE: a finite spelling whose value overflows, or a non-zero one
    that rounds to zero. *)
Definition range_checked (v : Z) (d : double) : Abort + double :=
  if negb (is_finite d) || (is_zero d && negb (v =? 0))
  then inl OutOfRange else inr d.

(** std::stod(s): strtod on white space, an optional sign, then
    "inf"/"infinity", "nan", a hexadecimal or a decimal floating
    constant; correctly rounded. *)
Definition stod (s : string) : Abort + double :=
  let '(neg, s1) := take_sign (skip_space s) in
  match lower_prefix "inf" s1, lower_prefix "nan" s1 with
  | Some _, _ => inr (S754_infinity neg)
  | None, Some _ => inr S754_nan
  | None, None =>
      match hex_float neg s1 with
      | Some (v, d) => range_checked v d
      | None =>
          let '(v, n, k, s2) := take_mantissa take_digits s1 in
          match n with
          | O => inl InvalidArgument
          | S _ =>
              range_checked v
                (double_decimal neg v (take_exponent "e" s2 - Z.of_nat k))
          end
      end
  end.

(** Round [n / d] to the nearest integer, ties to even ([0 < d]). *)
Definition div_nearest_even (n d : Z) : Z :=
  let q := n / d in
  let r := n mod d in
  if 2 * r <? d then q
  else if d <? 2 * r then q + 1
  else if Z.even q then q else q + 1.

Fixpoint zeros (n : nat) : string :=
  match n with
  | O => EmptyString
  | S n' => String "0" (zeros n')
  end.

Definition pad_left (width : nat) (s : string) : string :=
  zeros (width - length s) +++ s.

(** "%f" of a non-negative number given in millionths. *)
Definition fixed6 (millionths : Z) : string :=
  to_string (millionths / 1000000) +++ "." +++
  pad_left 6 (to_string (millionths mod 1000000)).

Definition sign_string (neg : bool) : string := if neg then "-" else "".

(** std::to_string(double): sprintf "%f", six digits after the point. *)
Definition to_string_double (d : double) : string :=
  match d with
  | S754_nan => "nan"
  | S754_infinity neg => sign_string neg +++ "inf"
  | S754_zero neg => sign_string neg +++ fixed6 0
  | S754_finite neg m e =>
      sign_string neg +++
      fixed6 (if 0 <=? e
              then Z.pos m * 2 ^ e * 1000000
              else div_nearest_even (Z.pos m * 1000000) (2 ^ (- e)))
  end.

(** What a C function reads of s.c_str(), and what strdup copies of it:
    the characters before the first NUL. *)
Fixpoint c_str (s : string) : string :=
  match s with
  | EmptyString => EmptyString
  | String c s' => if Ascii.eqb c "000" then EmptyString else String c (c_str s')
  end.

(** strtok over the delimiter set [delims]: the non-empty maximal runs of
    other characters, in order. *)
Fixpoint tokens_from (delims : list ascii) (cur : string) (s : string) : list string :=
  let flush := match cur with EmptyString => [] | _ => [cur] end in
  match s with
  | EmptyString => flush
  | String c s' =>
      if existsb (Ascii.eqb c) delims
      then flush ++ tokens_from delims EmptyString s'
      else tokens_from delims (cur +++ String c EmptyString) s'
  end.

Definition strtok_all (delims : list ascii) (s : string) : list string :=
  tokens_from delims EmptyString s.

End Cxx.


(** ** Declarations of the application *)

(** Sysmodule::Error *)
Module Error.
Inductive t : Set := None | NotConnected | DifferentVersion | Unknown | LostConnection.
Definition eqb (a b : t) : bool :=
  match a, b with
  | None, None | NotConnected, NotConnected | DifferentVersion, DifferentVersion
  | Unknown, Unknown | LostConnection, LostConnection => true
  | _, _ => false
  end.
End Error.

Module RepeatMode.
Inductive t : Set := Off | One | All.
Definition eqb (a b : t) : bool :=
  match a, b with
  | Off, Off | One, One | All, All => true
  | _, _ => false
  end.
End RepeatMode.

Module ShuffleMode.
Inductive t : Set := Off | On.
Definition eqb (a b : t) : bool :=
  match a, b with
  | Off, Off | On, On => true
  | _, _ => false
  end.
End ShuffleMode.

Module PlaybackStatus.
Inductive t : Set := Error | Playing | Paused | Stopped.
End PlaybackStatus.

(** The enumerations of Protocol.hpp that the file names. *)
Module Protocol.
Module Command.
Inductive t : Set :=
| Version | Resume | Pause | Previous | Next | GetVolume | SetVolume | Mute | Unmute
| SetQueueIdx | QueueIdx | QueueSize | RemoveFromQueue | GetQueue | SetQueue
| AddToSubQueue | RemoveFromSubQueue | SubQueueSize | GetSubQueue | SkipSubQueueSongs
| GetRepeat | SetRepeat | GetShuffle | SetShuffle | GetSong | GetStatus
| GetPosition | SetPosition | GetPlayingFrom | SetPlayingFrom
| RequestDBLock | ReleaseDBLock | ReloadConfig | Reset.
End Command.
Module Repeat.
Inductive t : Set := Off | One | All.
End Repeat.
Module Status.
Inductive t : Set := Error | Playing | Paused | Stopped.
End Status.
End Protocol.

(** Protocol.hpp and Types.hpp are not among the sources: the values they
    give to the constants and enumerators used here are taken as given.
    Every [..._int] is the value of the C-style cast of an enumerator to
    int.

    [Indeterminate_rm] is no declaration.  The lambda of sendSetRepeat
    declares its local [rm] without an initialiser and compares it with
    the mode asked for also when no case of its switch has assigned it;
    the lambda goes on and returns either way.  [Indeterminate_rm n] is
    the value, as an int, that [rm] then holds in a run of the lambda
    that starts with [n] events on record: any value, and one that may
    differ from run to run. *)
Record Decls : Set := {
  Delimiter : ascii;                         (* Protocol::Delimiter *)
  Version : Z;                               (* Protocol::Version *)
  Command_int : Protocol.Command.t -> Z;
  Repeat_int : Protocol.Repeat.t -> Z;
  Shuffle_Off_int : Z;                       (* Protocol::Shuffle::Off *)
  Status_int : Protocol.Status.t -> Z;
  RepeatMode_int : RepeatMode.t -> Z;
  ShuffleMode_int : ShuffleMode.t -> Z;
  Indeterminate_rm : nat -> Z
}.

(** Socket::Transfer, as far as the file uses it: the socket is a state
    that every message moves on. *)
Class Transport (Sock : Type) : Type := {
  isConnected : Sock -> bool;
  writeMessage : Sock -> string -> bool * Sock;
  readMessage : Sock -> string * Sock
}.

(** Socket::Connector::getTransferSocket: a transfer socket, or nullptr. *)
Class Connector (Conn Sock : Type) : Type := {
  getTransferSocket : Conn -> option Sock * Conn
}.

(** ** The lambdas handed to addToWriteQueue

    One constructor per closure, named after the method that builds it,
    with the values it captures.  A captured [&done] is the identity of
    that local flag. *)
Inductive Handler : Set :=
| cb_waitRequestDBLock (done : nat)
| cb_waitReset (done : nat)
| cb_waitSongIdx (done : nat)
| cb_sendResume
| cb_sendPause
| cb_sendPrevious
| cb_sendNext
| cb_sendGetVolume
| cb_sendSetVolume
| cb_sendMute
| cb_sendUnmute
| cb_sendSetSongIdx
| cb_sendGetSongIdx
| cb_sendGetQueueSize
| cb_sendRemoveFromQueue (pos : Z)
| cb_sendGetQueue
| cb_sendSetQueue (size : Z)
| cb_sendAddToSubQueue (id : Z)
| cb_sendRemoveFromSubQueue (pos : Z)
| cb_sendGetSubQueueSize
| cb_sendGetSubQueue
| cb_sendSkipSubQueueSongs (n : Z)
| cb_sendGetRepeat
| cb_sendSetRepeat (m : RepeatMode.t)
| cb_sendGetShuffle
| cb_sendSetShuffle (m : ShuffleMode.t)
| cb_sendGetSong
| cb_sendGetStatus
| cb_sendGetPosition
| cb_sendSetPosition
| cb_sendGetPlayingFrom
| cb_sendSetPlayingFrom
| cb_sendReleaseDBLock
| cb_sendReloadConfig.

(** An element of the write queue: std::pair<std::string, std::function>. *)
Definition Cmd : Set := (string * Handler)%type.

(** What the object did, in order: a record kept beside the fields, which
    no method reads. *)
Inductive Event : Set :=
| Enqueued (c : Cmd)                   (* writeQueue.push *)
| Wrote (msg : string) (ok : bool)     (* socket->writeMessage and its result *)
| Read (reply : string)                (* socket->readMessage *)
| Invoked (c : Cmd) (reply : string)   (* queuedFunc(str) *)
| Cleared.                             (* writeQueue replaced by an empty queue *)

(** ** The object

    The fields of Sysmodule.  [lastUpdateTime] is left out: the clock is
    an input of [process_iteration].  [done_flags] holds the
    std::atomic<bool> locals of the wait calls. *)
Record State (Sock Conn : Type) : Type := {
  connector : Conn;
  error_ : Error.t;
  limit_ : Z;
  socket : option Sock;
  currentSong_ : Z;
  exit_ : bool;
  playingFrom_ : string;
  position_ : Cxx.double;
  queueChanged_ : bool;
  queueSize_ : Z;
  repeatMode_ : RepeatMode.t;
  shuffleMode_ : ShuffleMode.t;
  songIdx_ : Z;
  subQueueChanged_ : bool;
  status_ : PlaybackStatus.t;
  volume_ : Cxx.double;
  queue_ : list Z;
  subQueue_ : list Z;
  subQueueSize_ : Z;
  writeQueue : list Cmd;
  done_flags : nat -> bool;
  trace : list Event
}.

Arguments connector {Sock Conn} _.
Arguments error_ {Sock Conn} _.
Arguments limit_ {Sock Conn} _.
Arguments socket {Sock Conn} _.
Arguments currentSong_ {Sock Conn} _.
Arguments exit_ {Sock Conn} _.
Arguments playingFrom_ {Sock Conn} _.
Arguments position_ {Sock Conn} _.
Arguments queueChanged_ {Sock Conn} _.
Arguments queueSize_ {Sock Conn} _.
Arguments repeatMode_ {Sock Conn} _.
Arguments shuffleMode_ {Sock Conn} _.
Arguments songIdx_ {Sock Conn} _.
Arguments subQueueChanged_ {Sock Conn} _.
Arguments status_ {Sock Conn} _.
Arguments volume_ {Sock Conn} _.
Arguments queue_ {Sock Conn} _.
Arguments subQueue_ {Sock Conn} _.
Arguments subQueueSize_ {Sock Conn} _.
Arguments writeQueue {Sock Conn} _.
Arguments done_flags {Sock Conn} _.
Arguments trace {Sock Conn} _.

Definition set_connector {Sock Conn} (v : Conn) (st : State Sock Conn) : State Sock Conn :=
  {| connector := v; error_ := error_ st; limit_ := limit_ st; socket := socket st;
  currentSong_ := currentSong_ st; exit_ := exit_ st; playingFrom_ := playingFrom_ st;
  position_ := position_ st; queueChanged_ := queueChanged_ st; queueSize_ := queueSize_ st;
  repeatMode_ := repeatMode_ st; shuffleMode_ := shuffleMode_ st; songIdx_ := songIdx_ st;
  subQueueChanged_ := subQueueChanged_ st; status_ := status_ st; volume_ := volume_ st;
  queue_ := queue_ st; subQueue_ := subQueue_ st; subQueueSize_ := subQueueSize_ st;
  writeQueue := writeQueue st; done_flags := done_flags st; trace := trace st |}.

Definition set_error_ {Sock Conn} (v : Error.t) (st : State Sock Conn) : State Sock Conn :=
  {| connector := connector st; error_ := v; limit_ := limit_ st; socket := socket st;
  currentSong_ := currentSong_ st; exit_ := exit_ st; playingFrom_ := playingFrom_ st;
  position_ := position_ st; queueChanged_ := queueChanged_ st; queueSize_ := queueSize_ st;
  repeatMode_ := repeatMode_ st; shuffleMode_ := shuffleMode_ st; songIdx_ := songIdx_ st;
  subQueueChanged_ := subQueueChanged_ st; status_ := status_ st; volume_ := volume_ st;
  queue_ := queue_ st; subQueue_ := subQueue_ st; subQueueSize_ := subQueueSize_ st;
  writeQueue := writeQueue st; done_flags := done_flags st; trace := trace st |}.

Definition set_limit_ {Sock Conn} (v : Z) (st : State Sock Conn) : State Sock Conn :=
  {| connector := connector st; error_ := error_ st; limit_ := v; socket := socket st;
  currentSong_ := currentSong_ st; exit_ := exit_ st; playingFrom_ := playingFrom_ st;
  position_ := position_ st; queueChanged_ := queueChanged_ st; queueSize_ := queueSize_ st;
  repeatMode_ := repeatMode_ st; shuffleMode_ := shuffleMode_ st; songIdx_ := songIdx_ st;
  subQueueChanged_ := subQueueChanged_ st; status_ := status_ st; volume_ := volume_ st;
  queue_ := queue_ st; subQueue_ := subQueue_ st; subQueueSize_ := subQueueSize_ st;
  writeQueue := writeQueue st; done_flags := done_flags st; trace := trace st |}.

Definition set_socket {Sock Conn} (v : option Sock) (st : State Sock Conn) : State Sock Conn :=
  {| connector := connector st; error_ := error_ st; limit_ := limit_ st; socket := v;
  currentSong_ := currentSong_ st; exit_ := exit_ st; playingFrom_ := playingFrom_ st;
  position_ := position_ st; queueChanged_ := queueChanged_ st; queueSize_ := queueSize_ st;
  repeatMode_ := repeatMode_ st; shuffleMode_ := shuffleMode_ st; songIdx_ := songIdx_ st;
  subQueueChanged_ := subQueueChanged_ st; status_ := status_ st; volume_ := volume_ st;
  queue_ := queue_ st; subQueue_ := subQueue_ st; subQueueSize_ := subQueueSize_ st;
  writeQueue := writeQueue st; done_flags := done_flags st; trace := trace st |}.

Definition set_currentSong_ {Sock Conn} (v : Z) (st : State Sock Conn) : State Sock Conn :=
  {| connector := connector st; error_ := error_ st; limit_ := limit_ st; socket := socket st;
  currentSong_ := v; exit_ := exit_ st; playingFrom_ := playingFrom_ st; position_ :=
  position_ st; queueChanged_ := queueChanged_ st; queueSize_ := queueSize_ st; repeatMode_ :=
  repeatMode_ st; shuffleMode_ := shuffleMode_ st; songIdx_ := songIdx_ st; subQueueChanged_
  := subQueueChanged_ st; status_ := status_ st; volume_ := volume_ st; queue_ := queue_ st;
  subQueue_ := subQueue_ st; subQueueSize_ := subQueueSize_ st; writeQueue := writeQueue st;
  done_flags := done_flags st; trace := trace st |}.

Definition set_exit_ {Sock Conn} (v : bool) (st : State Sock Conn) : State Sock Conn :=
  {| connector := connector st; error_ := error_ st; limit_ := limit_ st; socket := socket st;
  currentSong_ := currentSong_ st; exit_ := v; playingFrom_ := playingFrom_ st; position_ :=
  position_ st; queueChanged_ := queueChanged_ st; queueSize_ := queueSize_ st; repeatMode_ :=
  repeatMode_ st; shuffleMode_ := shuffleMode_ st; songIdx_ := songIdx_ st; subQueueChanged_
  := subQueueChanged_ st; status_ := status_ st; volume_ := volume_ st; queue_ := queue_ st;
  subQueue_ := subQueue_ st; subQueueSize_ := subQueueSize_ st; writeQueue := writeQueue st;
  done_flags := done_flags st; trace := trace st |}.

Definition set_playingFrom_ {Sock Conn} (v : string) (st : State Sock Conn) : State Sock Conn :=
  {| connector := connector st; error_ := error_ st; limit_ := limit_ st; socket := socket st;
  currentSong_ := currentSong_ st; exit_ := exit_ st; playingFrom_ := v; position_ :=
  position_ st; queueChanged_ := queueChanged_ st; queueSize_ := queueSize_ st; repeatMode_ :=
  repeatMode_ st; shuffleMode_ := shuffleMode_ st; songIdx_ := songIdx_ st; subQueueChanged_
  := subQueueChanged_ st; status_ := status_ st; volume_ := volume_ st; queue_ := queue_ st;
  subQueue_ := subQueue_ st; subQueueSize_ := subQueueSize_ st; writeQueue := writeQueue st;
  done_flags := done_flags st; trace := trace st |}.

Definition set_position_ {Sock Conn} (v : Cxx.double) (st : State Sock Conn) : State Sock Conn :=
  {| connector := connector st; error_ := error_ st; limit_ := limit_ st; socket := socket st;
  currentSong_ := currentSong_ st; exit_ := exit_ st; playingFrom_ := playingFrom_ st;
  position_ := v; queueChanged_ := queueChanged_ st; queueSize_ := queueSize_ st; repeatMode_
  := repeatMode_ st; shuffleMode_ := shuffleMode_ st; songIdx_ := songIdx_ st;
  subQueueChanged_ := subQueueChanged_ st; status_ := status_ st; volume_ := volume_ st;
  queue_ := queue_ st; subQueue_ := subQueue_ st; subQueueSize_ := subQueueSize_ st;
  writeQueue := writeQueue st; done_flags := done_flags st; trace := trace st |}.

Definition set_queueChanged_ {Sock Conn} (v : bool) (st : State Sock Conn) : State Sock Conn :=
  {| connector := connector st; error_ := error_ st; limit_ := limit_ st; socket := socket st;
  currentSong_ := currentSong_ st; exit_ := exit_ st; playingFrom_ := playingFrom_ st;
  position_ := position_ st; queueChanged_ := v; queueSize_ := queueSize_ st; repeatMode_ :=
  repeatMode_ st; shuffleMode_ := shuffleMode_ st; songIdx_ := songIdx_ st; subQueueChanged_
  := subQueueChanged_ st; status_ := status_ st; volume_ := volume_ st; queue_ := queue_ st;
  subQueue_ := subQueue_ st; subQueueSize_ := subQueueSize_ st; writeQueue := writeQueue st;
  done_flags := done_flags st; trace := trace st |}.

Definition set_queueSize_ {Sock Conn} (v : Z) (st : State Sock Conn) : State Sock Conn :=
  {| connector := connector st; error_ := error_ st; limit_ := limit_ st; socket := socket st;
  currentSong_ := currentSong_ st; exit_ := exit_ st; playingFrom_ := playingFrom_ st;
  position_ := position_ st; queueChanged_ := queueChanged_ st; queueSize_ := v; repeatMode_
  := repeatMode_ st; shuffleMode_ := shuffleMode_ st; songIdx_ := songIdx_ st;
  subQueueChanged_ := subQueueChanged_ st; status_ := status_ st; volume_ := volume_ st;
  queue_ := queue_ st; subQueue_ := subQueue_ st; subQueueSize_ := subQueueSize_ st;
  writeQueue := writeQueue st; done_flags := done_flags st; trace := trace st |}.

Definition set_repeatMode_ {Sock Conn} (v : RepeatMode.t) (st : State Sock Conn) : State Sock Conn :=
  {| connector := connector st; error_ := error_ st; limit_ := limit_ st; socket := socket st;
  currentSong_ := currentSong_ st; exit_ := exit_ st; playingFrom_ := playingFrom_ st;
  position_ := position_ st; queueChanged_ := queueChanged_ st; queueSize_ := queueSize_ st;
  repeatMode_ := v; shuffleMode_ := shuffleMode_ st; songIdx_ := songIdx_ st; subQueueChanged_
  := subQueueChanged_ st; status_ := status_ st; volume_ := volume_ st; queue_ := queue_ st;
  subQueue_ := subQueue_ st; subQueueSize_ := subQueueSize_ st; writeQueue := writeQueue st;
  done_flags := done_flags st; trace := trace st |}.

Definition set_shuffleMode_ {Sock Conn} (v : ShuffleMode.t) (st : State Sock Conn) : State Sock Conn :=
  {| connector := connector st; error_ := error_ st; limit_ := limit_ st; socket := socket st;
  currentSong_ := currentSong_ st; exit_ := exit_ st; playingFrom_ := playingFrom_ st;
  position_ := position_ st; queueChanged_ := queueChanged_ st; queueSize_ := queueSize_ st;
  repeatMode_ := repeatMode_ st; shuffleMode_ := v; songIdx_ := songIdx_ st; subQueueChanged_
  := subQueueChanged_ st; status_ := status_ st; volume_ := volume_ st; queue_ := queue_ st;
  subQueue_ := subQueue_ st; subQueueSize_ := subQueueSize_ st; writeQueue := writeQueue st;
  done_flags := done_flags st; trace := trace st |}.

Definition set_songIdx_ {Sock Conn} (v : Z) (st : State Sock Conn) : State Sock Conn :=
  {| connector := connector st; error_ := error_ st; limit_ := limit_ st; socket := socket st;
  currentSong_ := currentSong_ st; exit_ := exit_ st; playingFrom_ := playingFrom_ st;
  position_ := position_ st; queueChanged_ := queueChanged_ st; queueSize_ := queueSize_ st;
  repeatMode_ := repeatMode_ st; shuffleMode_ := shuffleMode_ st; songIdx_ := v;
  subQueueChanged_ := subQueueChanged_ st; status_ := status_ st; volume_ := volume_ st;
  queue_ := queue_ st; subQueue_ := subQueue_ st; subQueueSize_ := subQueueSize_ st;
  writeQueue := writeQueue st; done_flags := done_flags st; trace := trace st |}.

Definition set_subQueueChanged_ {Sock Conn} (v : bool) (st : State Sock Conn) : State Sock Conn :=
  {| connector := connector st; error_ := error_ st; limit_ := limit_ st; socket := socket st;
  currentSong_ := currentSong_ st; exit_ := exit_ st; playingFrom_ := playingFrom_ st;
  position_ := position_ st; queueChanged_ := queueChanged_ st; queueSize_ := queueSize_ st;
  repeatMode_ := repeatMode_ st; shuffleMode_ := shuffleMode_ st; songIdx_ := songIdx_ st;
  subQueueChanged_ := v; status_ := status_ st; volume_ := volume_ st; queue_ := queue_ st;
  subQueue_ := subQueue_ st; subQueueSize_ := subQueueSize_ st; writeQueue := writeQueue st;
  done_flags := done_flags st; trace := trace st |}.

Definition set_status_ {Sock Conn} (v : PlaybackStatus.t) (st : State Sock Conn) : State Sock Conn :=
  {| connector := connector st; error_ := error_ st; limit_ := limit_ st; socket := socket st;
  currentSong_ := currentSong_ st; exit_ := exit_ st; playingFrom_ := playingFrom_ st;
  position_ := position_ st; queueChanged_ := queueChanged_ st; queueSize_ := queueSize_ st;
  repeatMode_ := repeatMode_ st; shuffleMode_ := shuffleMode_ st; songIdx_ := songIdx_ st;
  subQueueChanged_ := subQueueChanged_ st; status_ := v; volume_ := volume_ st; queue_ :=
  queue_ st; subQueue_ := subQueue_ st; subQueueSize_ := subQueueSize_ st; writeQueue :=
  writeQueue st; done_flags := done_flags st; trace := trace st |}.

Definition set_volume_ {Sock Conn} (v : Cxx.double) (st : State Sock Conn) : State Sock Conn :=
  {| connector := connector st; error_ := error_ st; limit_ := limit_ st; socket := socket st;
  currentSong_ := currentSong_ st; exit_ := exit_ st; playingFrom_ := playingFrom_ st;
  position_ := position_ st; queueChanged_ := queueChanged_ st; queueSize_ := queueSize_ st;
  repeatMode_ := repeatMode_ st; shuffleMode_ := shuffleMode_ st; songIdx_ := songIdx_ st;
  subQueueChanged_ := subQueueChanged_ st; status_ := status_ st; volume_ := v; queue_ :=
  queue_ st; subQueue_ := subQueue_ st; subQueueSize_ := subQueueSize_ st; writeQueue :=
  writeQueue st; done_flags := done_flags st; trace := trace st |}.

Definition set_queue_ {Sock Conn} (v : list Z) (st : State Sock Conn) : State Sock Conn :=
  {| connector := connector st; error_ := error_ st; limit_ := limit_ st; socket := socket st;
  currentSong_ := currentSong_ st; exit_ := exit_ st; playingFrom_ := playingFrom_ st;
  position_ := position_ st; queueChanged_ := queueChanged_ st; queueSize_ := queueSize_ st;
  repeatMode_ := repeatMode_ st; shuffleMode_ := shuffleMode_ st; songIdx_ := songIdx_ st;
  subQueueChanged_ := subQueueChanged_ st; status_ := status_ st; volume_ := volume_ st;
  queue_ := v; subQueue_ := subQueue_ st; subQueueSize_ := subQueueSize_ st; writeQueue :=
  writeQueue st; done_flags := done_flags st; trace := trace st |}.

Definition set_subQueue_ {Sock Conn} (v : list Z) (st : State Sock Conn) : State Sock Conn :=
  {| connector := connector st; error_ := error_ st; limit_ := limit_ st; socket := socket st;
  currentSong_ := currentSong_ st; exit_ := exit_ st; playingFrom_ := playingFrom_ st;
  position_ := position_ st; queueChanged_ := queueChanged_ st; queueSize_ := queueSize_ st;
  repeatMode_ := repeatMode_ st; shuffleMode_ := shuffleMode_ st; songIdx_ := songIdx_ st;
  subQueueChanged_ := subQueueChanged_ st; status_ := status_ st; volume_ := volume_ st;
  queue_ := queue_ st; subQueue_ := v; subQueueSize_ := subQueueSize_ st; writeQueue :=
  writeQueue st; done_flags := done_flags st; trace := trace st |}.

Definition set_subQueueSize_ {Sock Conn} (v : Z) (st : State Sock Conn) : State Sock Conn :=
  {| connector := connector st; error_ := error_ st; limit_ := limit_ st; socket := socket st;
  currentSong_ := currentSong_ st; exit_ := exit_ st; playingFrom_ := playingFrom_ st;
  position_ := position_ st; queueChanged_ := queueChanged_ st; queueSize_ := queueSize_ st;
  repeatMode_ := repeatMode_ st; shuffleMode_ := shuffleMode_ st; songIdx_ := songIdx_ st;
  subQueueChanged_ := subQueueChanged_ st; status_ := status_ st; volume_ := volume_ st;
  queue_ := queue_ st; subQueue_ := subQueue_ st; subQueueSize_ := v; writeQueue := writeQueue
  st; done_flags := done_flags st; trace := trace st |}.

Definition set_writeQueue {Sock Conn} (v : list Cmd) (st : State Sock Conn) : State Sock Conn :=
  {| connector := connector st; error_ := error_ st; limit_ := limit_ st; socket := socket st;
  currentSong_ := currentSong_ st; exit_ := exit_ st; playingFrom_ := playingFrom_ st;
  position_ := position_ st; queueChanged_ := queueChanged_ st; queueSize_ := queueSize_ st;
  repeatMode_ := repeatMode_ st; shuffleMode_ := shuffleMode_ st; songIdx_ := songIdx_ st;
  subQueueChanged_ := subQueueChanged_ st; status_ := status_ st; volume_ := volume_ st;
  queue_ := queue_ st; subQueue_ := subQueue_ st; subQueueSize_ := subQueueSize_ st;
  writeQueue := v; done_flags := done_flags st; trace := trace st |}.

Definition set_done_flags {Sock Conn} (v : nat -> bool) (st : State Sock Conn) : State Sock Conn :=
  {| connector := connector st; error_ := error_ st; limit_ := limit_ st; socket := socket st;
  currentSong_ := currentSong_ st; exit_ := exit_ st; playingFrom_ := playingFrom_ st;
  position_ := position_ st; queueChanged_ := queueChanged_ st; queueSize_ := queueSize_ st;
  repeatMode_ := repeatMode_ st; shuffleMode_ := shuffleMode_ st; songIdx_ := songIdx_ st;
  subQueueChanged_ := subQueueChanged_ st; status_ := status_ st; volume_ := volume_ st;
  queue_ := queue_ st; subQueue_ := subQueue_ st; subQueueSize_ := subQueueSize_ st;
  writeQueue := writeQueue st; done_flags := v; trace := trace st |}.

Definition set_trace {Sock Conn} (v : list Event) (st : State Sock Conn) : State Sock Conn :=
  {| connector := connector st; error_ := error_ st; limit_ := limit_ st; socket := socket st;
  currentSong_ := currentSong_ st; exit_ := exit_ st; playingFrom_ := playingFrom_ st;
  position_ := position_ st; queueChanged_ := queueChanged_ st; queueSize_ := queueSize_ st;
  repeatMode_ := repeatMode_ st; shuffleMode_ := shuffleMode_ st; songIdx_ := songIdx_ st;
  subQueueChanged_ := subQueueChanged_ st; status_ := status_ st; volume_ := volume_ st;
  queue_ := queue_ st; subQueue_ := subQueue_ st; subQueueSize_ := subQueueSize_ st;
  writeQueue := writeQueue st; done_flags := done_flags st; trace := v |}.

(** ** The methods *)

Section Methods.

Context {Sock Conn : Type} {transport : Transport Sock} {conn : Connector Conn Sock}.
Variable P : Decls.

Local Abbreviation Sys := (State Sock Conn).
Local Abbreviation opcode c := (Cxx.to_string (Command_int P c)).

(** #define DELIM std::string(1, Protocol::Delimiter) *)
Definition DELIM : string := String (Delimiter P) EmptyString.

Definition log (evs : list Event) (st : Sys) : Sys :=
  set_trace (trace st ++ evs) st.

(** bool Sysmodule::addToWriteQueue(std::string s, std::function<void(std::string)> f) *)
Definition addToWriteQueue (s : string) (f : Handler) (st : Sys) : bool * Sys :=
  if negb (Error.eqb (error_ st) Error.None) then (false, st)
  else (true, log [Enqueued (s, f)] (set_writeQueue (writeQueue st ++ [(s, f)]) st)).

(** A call whose result the caller drops. *)
Definition enqueue (s : string) (f : Handler) (st : Sys) : Sys :=
  snd (addToWriteQueue s f st).

(** void Sysmodule::setQueueLimit(int limit) *)
Definition setQueueLimit (limit : Z) (st : Sys) : Sys := set_limit_ limit st.

(** bool Sysmodule::terminate(); [ok] is what Utils::NX::terminateProgram
    answers. *)
Definition terminate (ok : bool) (st : Sys) : bool * Sys :=
  if ok then (true, set_error_ Error.LostConnection st) else (false, st).

(** void Sysmodule::exit() *)
Definition exit (st : Sys) : Sys := set_exit_ true st.

(** *** Read accessors *)

Definition error (st : Sys) : Error.t := error_ st.

Definition playingFrom (st : Sys) : string :=
  if String.eqb (playingFrom_ st) " " then "" else playingFrom_ st.

(** bool Sysmodule::queueChanged() *)
Definition queueChanged (st : Sys) : bool * Sys :=
  if queueChanged_ st then (true, set_queueChanged_ false st) else (false, st).

(** bool Sysmodule::subQueueChanged() *)
Definition subQueueChanged (st : Sys) : bool * Sys :=
  if subQueueChanged_ st then (true, set_subQueueChanged_ false st) else (false, st).

(** *** Requests *)

Definition sendGetQueue (s e : Z) (st : Sys) : Sys :=
  enqueue (opcode Protocol.Command.GetQueue +++ DELIM +++ Cxx.to_string s
             +++ DELIM +++ Cxx.to_string e) cb_sendGetQueue st.

Definition sendGetSubQueue (s e : Z) (st : Sys) : Sys :=
  enqueue (opcode Protocol.Command.GetSubQueue +++ DELIM +++ Cxx.to_string s
             +++ DELIM +++ Cxx.to_string e) cb_sendGetSubQueue st.

Definition sendResume : Sys -> Sys := enqueue (opcode Protocol.Command.Resume) cb_sendResume.
Definition sendPause : Sys -> Sys := enqueue (opcode Protocol.Command.Pause) cb_sendPause.
Definition sendPrevious : Sys -> Sys := enqueue (opcode Protocol.Command.Previous) cb_sendPrevious.
Definition sendNext : Sys -> Sys := enqueue (opcode Protocol.Command.Next) cb_sendNext.
Definition sendGetVolume : Sys -> Sys := enqueue (opcode Protocol.Command.GetVolume) cb_sendGetVolume.

Definition sendSetVolume (v : Cxx.double) : Sys -> Sys :=
  enqueue (opcode Protocol.Command.SetVolume +++ DELIM +++ Cxx.to_string_double v)
    cb_sendSetVolume.

Definition sendMute : Sys -> Sys := enqueue (opcode Protocol.Command.Mute) cb_sendMute.
Definition sendUnmute : Sys -> Sys := enqueue (opcode Protocol.Command.Unmute) cb_sendUnmute.

Definition sendSetSongIdx (id : Z) : Sys -> Sys :=
  enqueue (opcode Protocol.Command.SetQueueIdx +++ DELIM +++ Cxx.to_string id)
    cb_sendSetSongIdx.

Definition sendGetSongIdx : Sys -> Sys :=
  enqueue (opcode Protocol.Command.QueueIdx) cb_sendGetSongIdx.

Definition sendGetQueueSize : Sys -> Sys :=
  enqueue (opcode Protocol.Command.QueueSize) cb_sendGetQueueSize.

Definition sendRemoveFromQueue (pos : Z) : Sys -> Sys :=
  enqueue (opcode Protocol.Command.RemoveFromQueue +++ DELIM +++ Cxx.to_string pos)
    (cb_sendRemoveFromQueue pos).

(** The for loop of sendSetQueue from index [i] on, [q] being what is left
    of the vector there: it stops at the end of the vector, or breaks at
    the limit. *)
Fixpoint sendSetQueue_loop (hasLimit : bool) (limit i : Z) (q : list Z) (seq : string)
  : string :=
  match q with
  | [] => seq
  | x :: q' =>
      if hasLimit && (limit <=? i) then seq
      else sendSetQueue_loop hasLimit limit (i + 1) q'
             ((seq +++ DELIM) +++ Cxx.to_string x)
  end.

(** void Sysmodule::sendSetQueue(const std::vector<SongID> & q) *)
Definition sendSetQueue (q : list Z) (st : Sys) : Sys :=
  if (Z.of_nat (List.length q) =? 0) || (limit_ st =? 0) then st
  else
    let size := Z.of_nat (List.length q) in
    let hasLimit := 0 <=? limit_ st in
    let seq := sendSetQueue_loop hasLimit (limit_ st) 0 q "" in
    enqueue (opcode Protocol.Command.SetQueue +++ seq) (cb_sendSetQueue size) st.

Definition sendAddToSubQueue (id : Z) : Sys -> Sys :=
  enqueue (opcode Protocol.Command.AddToSubQueue +++ DELIM +++ Cxx.to_string id)
    (cb_sendAddToSubQueue id).

Definition sendRemoveFromSubQueue (pos : Z) : Sys -> Sys :=
  enqueue (opcode Protocol.Command.RemoveFromSubQueue +++ DELIM +++ Cxx.to_string pos)
    (cb_sendRemoveFromSubQueue pos).

Definition sendGetSubQueueSize : Sys -> Sys :=
  enqueue (opcode Protocol.Command.SubQueueSize) cb_sendGetSubQueueSize.

Definition sendSkipSubQueueSongs (n : Z) : Sys -> Sys :=
  enqueue (opcode Protocol.Command.SkipSubQueueSongs +++ DELIM +++ Cxx.to_string n)
    (cb_sendSkipSubQueueSongs n).

Definition sendGetRepeat : Sys -> Sys :=
  enqueue (opcode Protocol.Command.GetRepeat) cb_sendGetRepeat.

Definition sendSetRepeat (m : RepeatMode.t) : Sys -> Sys :=
  enqueue (opcode Protocol.Command.SetRepeat +++ DELIM +++ Cxx.to_string (RepeatMode_int P m))
    (cb_sendSetRepeat m).

Definition sendGetShuffle : Sys -> Sys :=
  enqueue (opcode Protocol.Command.GetShuffle) cb_sendGetShuffle.

Definition sendSetShuffle (m : ShuffleMode.t) : Sys -> Sys :=
  enqueue (opcode Protocol.Command.SetShuffle +++ DELIM +++ Cxx.to_string (ShuffleMode_int P m))
    (cb_sendSetShuffle m).

Definition sendGetSong : Sys -> Sys := enqueue (opcode Protocol.Command.GetSong) cb_sendGetSong.

Definition sendGetStatus : Sys -> Sys :=
  enqueue (opcode Protocol.Command.GetStatus) cb_sendGetStatus.

Definition sendGetPosition : Sys -> Sys :=
  enqueue (opcode Protocol.Command.GetPosition) cb_sendGetPosition.

Definition sendSetPosition (pos : Cxx.double) (st : Sys) : Sys :=
  enqueue (opcode Protocol.Command.SetPosition +++ DELIM +++ Cxx.to_string_double pos)
    cb_sendSetPosition (set_position_ pos st).

Definition sendGetPlayingFrom : Sys -> Sys :=
  enqueue (opcode Protocol.Command.GetPlayingFrom) cb_sendGetPlayingFrom.

Definition sendSetPlayingFrom (str : string) : Sys -> Sys :=
  enqueue (opcode Protocol.Command.SetPlayingFrom +++ DELIM +++ str) cb_sendSetPlayingFrom.

Definition sendReleaseDBLock : Sys -> Sys :=
  enqueue (opcode Protocol.Command.ReleaseDBLock) cb_sendReleaseDBLock.

Definition sendReloadConfig : Sys -> Sys :=
  enqueue (opcode Protocol.Command.ReloadConfig) cb_sendReloadConfig.

(** *** Bodies of the lambdas *)

(** A conversion that throws leaves the lambda at once, before it has
    written anything. *)
Definition parsed {A : Type} (r : Abort + A) (st : Sys) (k : A -> Outcome Sys)
  : Outcome Sys :=
  match r with
  | inl e => Aborted e st
  | inr v => k v
  end.

(** switch ((Protocol::Repeat)code): the case taken, if any. *)
Definition switch_Repeat (code : Z) : option RepeatMode.t :=
  if code =? Repeat_int P Protocol.Repeat.Off then Some RepeatMode.Off
  else if code =? Repeat_int P Protocol.Repeat.One then Some RepeatMode.One
  else if code =? Repeat_int P Protocol.Repeat.All then Some RepeatMode.All
  else None.

Definition switch_Status (code : Z) : option PlaybackStatus.t :=
  if code =? Status_int P Protocol.Status.Error then Some PlaybackStatus.Error
  else if code =? Status_int P Protocol.Status.Playing then Some PlaybackStatus.Playing
  else if code =? Status_int P Protocol.Status.Paused then Some PlaybackStatus.Paused
  else if code =? Status_int P Protocol.Status.Stopped then Some PlaybackStatus.Stopped
  else None.

(** (Protocol::Shuffle)code == Protocol::Shuffle::Off ? Off : On *)
Definition shuffle_of (code : Z) : ShuffleMode.t :=
  if code =? Shuffle_Off_int P then ShuffleMode.Off else ShuffleMode.On.

(** The strtok/strtol loop of the queue lambdas, over strdup(s.c_str()):
    the reply up to its first NUL.  strtok is handed the address of
    Protocol::Delimiter; the delimiter set is taken to be that one
    character, and to be empty when that character is NUL, which is the
    same here since no NUL is left to split at.  SongID is taken to be
    int. *)
Definition parse_ids (s : string) : list Z :=
  map (fun tok => Cxx.to_int (Cxx.strtol tok))
    (Cxx.strtok_all [Delimiter P] (Cxx.c_str s)).

(** A write to the std::atomic<bool> local [done]. *)
Definition put_done (done : nat) (b : bool) (st : Sys) : Sys :=
  set_done_flags (fun i => if Nat.eqb i done then b else done_flags st i) st.

Definition set_done (done : nat) (st : Sys) : Sys := put_done done true st.

Definition run_handler (f : Handler) (s : string) (st : Sys) : Outcome Sys :=
  match f with
  | cb_waitRequestDBLock done =>
      parsed (Cxx.stoi s) st (fun _ => Returned (set_done done st))
  | cb_waitReset done => Returned (set_done done st)
  | cb_waitSongIdx done =>
      parsed (Cxx.stoi s) st (fun v =>
        Returned (set_done done (set_songIdx_ (Cxx.to_size_t v) st)))
  | cb_sendResume | cb_sendPause | cb_sendGetSong =>
      parsed (Cxx.stoi s) st (fun v => Returned (set_currentSong_ v st))
  | cb_sendPrevious | cb_sendNext | cb_sendReleaseDBLock | cb_sendReloadConfig =>
      parsed (Cxx.stoi s) st (fun _ => Returned st)
  | cb_sendGetVolume | cb_sendSetVolume | cb_sendMute | cb_sendUnmute =>
      parsed (Cxx.stod s) st (fun v => Returned (set_volume_ v st))
  | cb_sendSetSongIdx =>
      parsed (Cxx.stoi s) st (fun v => Returned (set_songIdx_ (Cxx.to_size_t v) st))
  | cb_sendGetSongIdx =>
      parsed (Cxx.stoul s) st (fun tmp =>
        let st1 :=
          if negb (songIdx_ st =? tmp)
          then sendGetSubQueue 0 5000 (sendGetQueue 0 25000 st)
          else st in
        Returned (set_songIdx_ tmp st1))
  | cb_sendGetQueueSize =>
      parsed (Cxx.stoul s) st (fun tmp =>
        let st1 := if negb (queueSize_ st =? tmp) then sendGetQueue 0 25000 st else st in
        Returned (set_queueSize_ tmp st1))
  | cb_sendRemoveFromQueue _ | cb_sendSetQueue _ | cb_sendRemoveFromSubQueue _
  | cb_sendSkipSubQueueSongs _ =>
      parsed (Cxx.stoul s) st (fun _ => Returned st)
  | cb_sendGetQueue =>
      Returned (set_queueChanged_ true (set_queue_ (parse_ids s) st))
  | cb_sendAddToSubQueue _ =>
      parsed (Cxx.stoi s) st (fun _ => Returned st)
  | cb_sendGetSubQueueSize =>
      parsed (Cxx.stoul s) st (fun tmp =>
        let st1 := if negb (subQueueSize_ st =? tmp) then sendGetSubQueue 0 5000 st else st in
        Returned (set_subQueueSize_ tmp st1))
  | cb_sendGetSubQueue =>
      Returned (set_subQueueChanged_ true (set_subQueue_ (parse_ids s) st))
  | cb_sendGetRepeat =>
      parsed (Cxx.stoi s) st (fun v =>
        let rm := match switch_Repeat v with Some m => m | None => RepeatMode.Off end in
        Returned (set_repeatMode_ rm st))
  | cb_sendSetRepeat m =>
      parsed (Cxx.stoi s) st (fun v =>
        match switch_Repeat v with
        | Some rm =>
            if negb (RepeatMode.eqb rm m) then Returned st
            else Returned (set_repeatMode_ rm st)
        | None =>
            (* no case has assigned rm: if (rm != m) reads what it holds *)
            if negb (Indeterminate_rm P (List.length (trace st)) =? RepeatMode_int P m)
            then Returned st
            else Returned (set_repeatMode_ m st)
        end)
  | cb_sendGetShuffle =>
      parsed (Cxx.stoi s) st (fun v => Returned (set_shuffleMode_ (shuffle_of v) st))
  | cb_sendSetShuffle _ =>
      parsed (Cxx.stoi s) st (fun v =>
        Returned (set_shuffleMode_ (shuffle_of v) (sendGetQueue 0 25000 st)))
  | cb_sendGetStatus =>
      parsed (Cxx.stoi s) st (fun v =>
        let ps := match switch_Status v with
                  | Some p => p
                  | None => PlaybackStatus.Error
                  end in
        Returned (set_status_ ps st))
  | cb_sendGetPosition | cb_sendSetPosition =>
      parsed (Cxx.stod s) st (fun v => Returned (set_position_ v st))
  | cb_sendGetPlayingFrom | cb_sendSetPlayingFrom =>
      Returned (set_playingFrom_ s st)
  end.

(** *** Connection *)

(** void Sysmodule::reconnect() *)
Definition reconnect (st : Sys) : Outcome Sys :=
  let '(sock, c') := getTransferSocket (connector st) in
  let st1 := set_socket sock (set_connector c' st) in
  match sock with
  | None => Returned (set_error_ Error.NotConnected st1)
  | Some s0 =>
      if negb (isConnected s0) then Returned (set_error_ Error.NotConnected st1)
      else
        let message := opcode Protocol.Command.Version in
        let '(ok, s1) := writeMessage s0 message in
        let '(reply, s2) := readMessage s1 in
        let st2 := log [Wrote message ok; Read reply] (set_socket (Some s2) st1) in
        if 0 <? Z.of_nat (String.length reply) then
          parsed (Cxx.stoi reply) st2 (fun version =>
            if negb (version =? Version P)
            then Returned (set_error_ Error.DifferentVersion st2)
            else Returned (set_error_ Error.None st2))
        else Returned (set_error_ Error.Unknown st2)
  end.

(** Sysmodule::Sysmodule().  The constructor leaves subQueueSize_ as it
    finds it: [subQueueSize0].  The fields it assigns after the call of
    reconnect, which reads none of them, are given their values at once. *)
Definition Sysmodule_new (c : Conn) (subQueueSize0 : Z) : Outcome Sys :=
  let st0 :=
    {| connector := c; error_ := Error.Unknown; limit_ := -1; socket := None;
       currentSong_ := -1; exit_ := false; playingFrom_ := ""; position_ := Cxx.double_of_Z 0;
       queueChanged_ := false; queueSize_ := 0; repeatMode_ := RepeatMode.Off;
       shuffleMode_ := ShuffleMode.Off; songIdx_ := 0; subQueueChanged_ := false;
       status_ := PlaybackStatus.Stopped; volume_ := Cxx.double_of_Z 100; queue_ := [];
       subQueue_ := []; subQueueSize_ := subQueueSize0; writeQueue := [];
       done_flags := fun _ => false; trace := [] |} in
  match reconnect st0 with
  | Returned st1 => Returned (sendGetSubQueue 0 5000 (sendGetQueue 0 25000 st1))
  | Aborted e st1 => Aborted e st1
  end.

(** *** The worker *)

(** Once round the inner loop of process, "while (!writeQueue.empty())",
    entered with a non-empty queue. *)
Definition drain_iter (st : Sys) : Outcome Sys :=
  match writeQueue st, socket st with
  | [], _ => Returned st
  | _ :: _, None => Aborted NullSocket st
  | (message, queuedFunc) :: _, Some sock =>
      let '(ok, sock1) := writeMessage sock message in
      let st1 := log [Wrote message ok] (set_socket (Some sock1) st) in
      let after :=
        if negb ok then Returned (set_error_ Error.LostConnection st1)
        else
          let '(str, sock2) := readMessage sock1 in
          let st2 := log [Read str] (set_socket (Some sock2) st1) in
          if Z.of_nat (String.length str) =? 0
          then Returned (set_error_ Error.LostConnection st2)
          else
            match run_handler queuedFunc str (log [Invoked (message, queuedFunc) str] st2) with
            | Returned st3 => Returned (set_writeQueue (tl (writeQueue st3)) st3)
            | Aborted e st3 => Aborted e st3
            end in
      match after with
      | Returned st4 =>
          if negb (Error.eqb (error_ st4) Error.None)
          then Returned (log [Cleared] (set_writeQueue [] st4))
          else Returned st4
      | Aborted e st4 => Aborted e st4
      end
  end.

(** The inner loop, for [fuel] rounds at most; [None] when they do not
    suffice. *)
Fixpoint drain_fuel (fuel : nat) (st : Sys) : option (Outcome Sys) :=
  match fuel with
  | O => None
  | S fuel' =>
      match writeQueue st with
      | [] => Some (Returned st)
      | _ :: _ =>
          match drain_iter st with
          | Returned st' => drain_fuel fuel' st'
          | Aborted e st' => Some (Aborted e st')
          end
      end
  end.

(** How many commands a lambda may push when it runs. *)
Definition spawns (f : Handler) : nat :=
  match f with
  | cb_sendGetSongIdx => 2
  | cb_sendGetQueueSize | cb_sendGetSubQueueSize | cb_sendSetShuffle _ => 1
  | _ => 0
  end.

(** A bound on the rounds the inner loop takes on a queue. *)
Fixpoint weight (q : list Cmd) : nat :=
  match q with
  | [] => O
  | c :: q' => S (spawns (snd c) + weight q')
  end.

(** The inner loop.  [drain_fuel_enough] shows that the fuel given here
    always suffices. *)
Definition drain (st : Sys) : Outcome Sys :=
  match drain_fuel (S (weight (writeQueue st))) st with
  | Some r => r
  | None => Returned st
  end.

(** The ten requests sent when UPDATE_DELAY has passed. *)
Definition poll (st : Sys) : Sys :=
  sendGetVolume (sendGetStatus (sendGetSubQueueSize (sendGetSongIdx (sendGetSong
    (sendGetShuffle (sendGetRepeat (sendGetQueueSize (sendGetPosition
      (sendGetPlayingFrom st))))))))).

(** Once round the outer loop of process, entered with exit_ unset.
    [due] tells whether more than UPDATE_DELAY seconds have passed on the
    steady clock since lastUpdateTime. *)
Definition process_iteration (due : bool) (st : Sys) : Outcome Sys :=
  if negb (Error.eqb (error_ st) Error.None) then Returned st
  else
    match drain st with
    | Returned st1 => Returned (if due then poll st1 else st1)
    | Aborted e st1 => Aborted e st1
    end.

(** void Sysmodule::process(), for as many rounds as [clock] has readings
    of the steady clock. *)
Fixpoint process (clock : list bool) (st : Sys) : Outcome Sys :=
  match clock with
  | [] => Returned st
  | due :: clock' =>
      if exit_ st then Returned st
      else
        match process_iteration due st with
        | Returned st' => process clock' st'
        | Aborted e st' => Aborted e st'
        end
  end.

(** *** Blocking calls

    A wait call runs on the caller's thread while the worker runs on its
    own.  Its first part pushes the request.  Its loop then reads the
    object once per wake-up: [view t] is the object as the caller finds it
    at its [t]-th wake-up, 5 ms after the one before. *)

Definition waitRequestDBLock_push (done : nat) (st : Sys) : Sys :=
  enqueue (opcode Protocol.Command.RequestDBLock) (cb_waitRequestDBLock done)
    (put_done done false st).

Definition waitReset_push (done : nat) (st : Sys) : Sys :=
  enqueue (opcode Protocol.Command.Reset) (cb_waitReset done) (put_done done false st).

Definition waitSongIdx_push (done : nat) (st : Sys) : Sys :=
  enqueue (opcode Protocol.Command.QueueIdx) (cb_waitSongIdx done) (put_done done false st).

(** while (!done) { sleep_for(5ms); if (error_ != Error::None) return ...; }
    from wake-up [t] on: whether the loop ended by [done] ([true]) or by
    the error ([false]), and at which wake-up.  [None]: still waiting
    after [fuel] rounds. *)
Fixpoint wait_loop (done : nat) (view : nat -> Sys) (fuel : nat) (t : nat)
  : option (bool * nat) :=
  match fuel with
  | O => None
  | S fuel' =>
      if done_flags (view t) done then Some (true, t)
      else if negb (Error.eqb (error_ (view (S t))) Error.None) then Some (false, S t)
      else wait_loop done view fuel' (S t)
  end.

(** bool Sysmodule::waitRequestDBLock(), after the push *)
Definition waitRequestDBLock (done : nat) (view : nat -> Sys) (fuel t : nat) : option bool :=
  option_map fst (wait_loop done view fuel t).

(** bool Sysmodule::waitReset(), after the push *)
Definition waitReset (done : nat) (view : nat -> Sys) (fuel t : nat) : option bool :=
  option_map fst (wait_loop done view fuel t).

(** size_t Sysmodule::waitSongIdx(), after the push *)
Definition waitSongIdx (done : nat) (view : nat -> Sys) (fuel t : nat) : option Z :=
  match wait_loop done view fuel t with
  | Some (true, t') => Some (songIdx_ (view t'))
  | Some (false, _) => Some Cxx.SIZE_MAX
  | None => None
  end.

End Methods.

(** ** Reading the record of events *)

(** The commands pushed, in order. *)
Fixpoint enqueued (evs : list Event) : list Cmd :=
  match evs with
  | [] => []
  | Enqueued c :: evs' => c :: enqueued evs'
  | _ :: evs' => enqueued evs'
  end.

(** The lambdas called, in order, each with the reply it was given. *)
Fixpoint invocations (evs : list Event) : list (Cmd * string) :=
  match evs with
  | [] => []
  | Invoked c r :: evs' => (c, r) :: invocations evs'
  | _ :: evs' => invocations evs'
  end.

(** The traffic on the socket, in order. *)
Fixpoint io (evs : list Event) : list Event :=
  match evs with
  | [] => []
  | Wrote m ok :: evs' => Wrote m ok :: io evs'
  | Read r :: evs' => Read r :: io evs'
  | _ :: evs' => io evs'
  end.

(** A request answered: its bytes written with success, then its reply
    read. *)
Definition exchange (cr : Cmd * string) : list Event :=
  [Wrote (fst (fst cr)) true; Read (snd cr)].

(** ** Sockets and connectors to run the methods on *)

(** A socket that follows a script: the results of the writes to come and
    the replies of the reads to come. *)
Record Scripted : Set := {
  connected : bool;
  writes : list bool;
  reads : list string
}.

#[export] Instance Scripted_Transport : Transport Scripted := {
  isConnected s := connected s;
  writeMessage s _ :=
    match writes s with
    | [] => (false, s)
    | ok :: rest => (ok, {| connected := connected s; writes := rest; reads := reads s |})
    end;
  readMessage s :=
    match reads s with
    | [] => (EmptyString, s)
    | r :: rest => (r, {| connected := connected s; writes := writes s; reads := rest |})
    end
}.

(** A connector that hands out the sockets of a list, then nullptr. *)
#[export] Instance Scripted_Connector : Connector (list (option Scripted)) Scripted := {
  getTransferSocket c :=
    match c with
    | [] => (None, [])
    | s :: rest => (s, rest)
    end
}.

(** A service that answers every request with the same reply. *)
Record Constant : Set := { answer : string }.

#[export] Instance Constant_Transport : Transport Constant := {
  isConnected _ := true;
  writeMessage s _ := (true, s);
  readMessage s := (answer s, s)
}.

#[export] Instance Constant_Connector : Connector Constant Constant := {
  getTransferSocket c := (Some c, c)
}.

(** Values for the declarations that are not among the sources, to run
    examples with: enumerators count from 0 in the order they are listed,
    the delimiter is the byte 28, the version is 3.  The indeterminate
    local of sendSetRepeat's lambda is given the number of events on
    record. *)
Definition sample_decls : Decls := {|
  Delimiter := "028"%char;
  Version := 3;
  Command_int c :=
    match c with
    | Protocol.Command.Version => 0 | Protocol.Command.Resume => 1
    | Protocol.Command.Pause => 2 | Protocol.Command.Previous => 3
    | Protocol.Command.Next => 4 | Protocol.Command.GetVolume => 5
    | Protocol.Command.SetVolume => 6 | Protocol.Command.Mute => 7
    | Protocol.Command.Unmute => 8 | Protocol.Command.SetQueueIdx => 9
    | Protocol.Command.QueueIdx => 10 | Protocol.Command.QueueSize => 11
    | Protocol.Command.RemoveFromQueue => 12 | Protocol.Command.GetQueue => 13
    | Protocol.Command.SetQueue => 14 | Protocol.Command.AddToSubQueue => 15
    | Protocol.Command.RemoveFromSubQueue => 16 | Protocol.Command.SubQueueSize => 17
    | Protocol.Command.GetSubQueue => 18 | Protocol.Command.SkipSubQueueSongs => 19
    | Protocol.Command.GetRepeat => 20 | Protocol.Command.SetRepeat => 21
    | Protocol.Command.GetShuffle => 22 | Protocol.Command.SetShuffle => 23
    | Protocol.Command.GetSong => 24 | Protocol.Command.GetStatus => 25
    | Protocol.Command.GetPosition => 26 | Protocol.Command.SetPosition => 27
    | Protocol.Command.GetPlayingFrom => 28 | Protocol.Command.SetPlayingFrom => 29
    | Protocol.Command.RequestDBLock => 30 | Protocol.Command.ReleaseDBLock => 31
    | Protocol.Command.ReloadConfig => 32 | Protocol.Command.Reset => 33
    end;
  Repeat_int r :=
    match r with
    | Protocol.Repeat.Off => 0 | Protocol.Repeat.One => 1 | Protocol.Repeat.All => 2
    end;
  Shuffle_Off_int := 0;
  Status_int s :=
    match s with
    | Protocol.Status.Error => 0 | Protocol.Status.Playing => 1
    | Protocol.Status.Paused => 2 | Protocol.Status.Stopped => 3
    end;
  RepeatMode_int m :=
    match m with
    | RepeatMode.Off => 0 | RepeatMode.One => 1 | RepeatMode.All => 2
    end;
  ShuffleMode_int m :=
    match m with
    | ShuffleMode.Off => 0 | ShuffleMode.On => 1
    end;
  Indeterminate_rm n := Z.of_nat n
|}.

(** An object with every field at the value the constructor gives it, a
    socket [sock] and the error field [e]. *)
Definition fresh {Sock Conn : Type} (c : Conn) (sock : option Sock) (e : Error.t)
  : State Sock Conn :=
  {| connector := c; error_ := e; limit_ := -1; socket := sock;
     currentSong_ := -1; exit_ := false; playingFrom_ := ""; position_ := Cxx.double_of_Z 0;
     queueChanged_ := false; queueSize_ := 0; repeatMode_ := RepeatMode.Off;
     shuffleMode_ := ShuffleMode.Off; songIdx_ := 0; subQueueChanged_ := false;
     status_ := PlaybackStatus.Stopped; volume_ := Cxx.double_of_Z 100; queue_ := [];
     subQueue_ := []; subQueueSize_ := 0; writeQueue := [];
     done_flags := fun _ => false; trace := [] |}.

(** ** Vocabulary of the properties *)

Section Vocabulary.

Context {Sock Conn : Type} {transport : Transport Sock} {conn : Connector Conn Sock}.
Variable P : Decls.

(** A socket behind which the service always answers: now and after any
    traffic, a write succeeds and a read returns a non-empty reply. *)
Definition always_answers (s0 : Sock) : Prop :=
  exists good : Sock -> Prop,
    good s0 /\
    forall s, good s ->
      (forall m, fst (writeMessage s m) = true /\ good (snd (writeMessage s m))) /\
      fst (readMessage s) <> EmptyString /\ good (snd (readMessage s)).

(** The object holds such a socket. *)
Definition answering (st : State Sock Conn) : Prop :=
  exists sock, socket st = Some sock /\ always_answers sock.

(** The exchange for the request [m] fails on [sock]: the write fails, or
    the read after it returns the empty string. *)
Definition exchange_fails (sock : Sock) (m : string) : Prop :=
  fst (writeMessage sock m) = false \/
  (fst (writeMessage sock m) = true /\
   fst (readMessage (snd (writeMessage sock m))) = EmptyString).

(** The state [n] rounds into the inner loop of process, when it gets
    that far. *)
Fixpoint drain_rounds (n : nat) (st : State Sock Conn) : option (State Sock Conn) :=
  match n with
  | O => Some st
  | S n' =>
      match writeQueue st with
      | [] => None
      | _ :: _ =>
          match drain_iter P st with
          | Returned st' => drain_rounds n' st'
          | Aborted _ _ => None
          end
      end
  end.

(** What a push of [c] adds to the queue of [st]. *)
Definition accepted (st : State Sock Conn) (c : Cmd) : list Cmd :=
  if Error.eqb (error_ st) Error.None then [c] else [].

(** From [st] to [st'] the commands [new] were pushed, and nothing else
    happened that the worker looks at. *)
Definition pushes (st : State Sock Conn) (new : list Cmd) (st' : State Sock Conn) : Prop :=
  writeQueue st' = writeQueue st ++ new /\
  trace st' = trace st ++ map Enqueued new /\
  error_ st' = error_ st /\
  socket st' = socket st /\
  exit_ st' = exit_ st.

(** From [st] to [st'] the worker answered commands one after the other:
    [evs] is what happened; every command that was pending or pushed on
    the way has been invoked, in the order of the queue, or is still
    pending; and the traffic on the socket is one exchange per invocation,
    the reply handed to the lambda being that of its own request. *)
Definition served (st : State Sock Conn) (evs : list Event) (st' : State Sock Conn) : Prop :=
  trace st' = trace st ++ evs /\
  writeQueue st ++ enqueued evs = map fst (invocations evs) ++ writeQueue st' /\
  io evs = flat_map exchange (invocations evs) /\
  Forall (fun cr => snd cr <> EmptyString) (invocations evs) /\
  error_ st' = Error.None.

(** The requests that sendGetQueue(0, 25000) and sendGetSubQueue(0, 5000)
    push. *)
Definition getQueue_request : Cmd :=
  (Cxx.to_string (Command_int P Protocol.Command.GetQueue) +++ DELIM P +++ "0"
     +++ DELIM P +++ "25000", cb_sendGetQueue).

Definition getSubQueue_request : Cmd :=
  (Cxx.to_string (Command_int P Protocol.Command.GetSubQueue) +++ DELIM P +++ "0"
     +++ DELIM P +++ "5000", cb_sendGetSubQueue).

(** What the lambda [f] pushes when it runs on [st] and returns. *)
Definition pushed_by (f : Handler) (s : string) (st : State Sock Conn) : list Cmd :=
  match f with
  | cb_sendGetSongIdx =>
      match Cxx.stoul s with
      | inr tmp =>
          if songIdx_ st =? tmp then []
          else accepted st getQueue_request ++ accepted st getSubQueue_request
      | inl _ => []
      end
  | cb_sendGetQueueSize =>
      match Cxx.stoul s with
      | inr tmp => if queueSize_ st =? tmp then [] else accepted st getQueue_request
      | inl _ => []
      end
  | cb_sendGetSubQueueSize =>
      match Cxx.stoul s with
      | inr tmp => if subQueueSize_ st =? tmp then [] else accepted st getSubQueue_request
      | inl _ => []
      end
  | cb_sendSetShuffle _ => accepted st getQueue_request
  | _ => []
  end.

(** The state handed to the lambda in a round whose exchange succeeds. *)
Definition at_invocation (st : State Sock Conn) (m : string) (f : Handler) (sock : Sock)
  : State Sock Conn :=
  let sock1 := snd (writeMessage sock m) in
  log [Invoked (m, f) (fst (readMessage sock1))]
    (log [Read (fst (readMessage sock1))]
       (set_socket (Some (snd (readMessage sock1)))
          (log [Wrote m true] (set_socket (Some sock1) st)))).

(** The song ids of [q] as sendSetQueue writes them: each after a
    delimiter. *)
Fixpoint serialize_ids (q : list Z) : string :=
  match q with
  | [] => EmptyString
  | x :: q' => DELIM P +++ Cxx.to_string x +++ serialize_ids q'
  end.

(** The entries of [q] that sendSetQueue sends under the limit [limit]. *)
Definition entries_sent (limit : Z) (q : list Z) : list Z :=
  if 0 <=? limit then firstn (Z.to_nat limit) q else q.

End Vocabulary.

(** ** Sample objects *)

Definition service (s : string) : Constant := {| answer := s |}.

(** The object an outcome leaves. *)
Definition state_of {A : Type} (o : Outcome A) : A :=
  match o with
  | Returned a | Aborted _ a => a
  end.

(** Connected to a service that answers "3" to everything, with a poll of
    the queue size and a request for the current song pending. *)
Definition sample_polling : State Constant Constant :=
  sendGetSong sample_decls
    (sendGetQueueSize sample_decls (fresh (service "3") (Some (service "3")) Error.None)).

(** Connected to a service that answers "x" to everything, with a request
    for the volume and one for the current song pending. *)
Definition sample_garbled : State Constant Constant :=
  sendGetSong sample_decls
    (sendGetVolume sample_decls (fresh (service "x") (Some (service "x")) Error.None)).

(** A socket on which the first exchange succeeds with reply "1" and the
    second write fails. *)
Definition sample_breaking_socket : Scripted :=
  {| connected := true; writes := [true; false]; reads := ["1"%string] |}.

(** Three commands pending on that socket. *)
Definition sample_breaking : State Scripted (list (option Scripted)) :=
  sendNext sample_decls
    (sendGetSong sample_decls
       (sendResume sample_decls (fresh [] (Some sample_breaking_socket) Error.None))).

(** The same, one round into the inner loop. *)
Definition sample_broken : State Scripted (list (option Scripted)) :=
  match drain_rounds sample_decls 1 sample_breaking with
  | Some st => st
  | None => sample_breaking
  end.

(** A disconnected object about to reconnect through a connector that
    hands out [sock]. *)
Definition sample_reconnecting (sock : list (option Scripted))
  : State Scripted (list (option Scripted)) :=
  fresh sock None Error.LostConnection.

(** A socket that answers the version request with [reply]. *)
Definition sample_versioned (reply : list string) : Scripted :=
  {| connected := true; writes := [true]; reads := reply |}.

(** An object that was never connected. *)
Definition sample_down : State Constant Constant :=
  fresh (service "3") None Error.NotConnected.

(** A connected object with nothing pending. *)
Definition sample_up : State Constant Constant :=
  fresh (service "3") (Some (service "3")) Error.None.

(** What a waiting caller sees: the connection is lost from its third
    wake-up on and its lambda never runs. *)
Definition sample_view (t : nat) : State Constant Constant :=
  if Nat.ltb t 3 then sample_up
  else fresh (service "3") (Some (service "3")) Error.LostConnection.

(** A command pending when the service is terminated, then a
    reconnection. *)
Definition sample_terminated : State Constant Constant :=
  snd (terminate true (sendResume sample_decls sample_up)).

(** ** Decimal numerals *)

(** The value of the digits [d], read from the left with [acc] before
    them. *)
Fixpoint uint_val (acc : Z) (d : Decimal.uint) : Z :=
  match d with
  | Nil => acc
  | D0 d => uint_val (10 * acc) d
  | D1 d => uint_val (10 * acc + 1) d
  | D2 d => uint_val (10 * acc + 2) d
  | D3 d => uint_val (10 * acc + 3) d
  | D4 d => uint_val (10 * acc + 4) d
  | D5 d => uint_val (10 * acc + 5) d
  | D6 d => uint_val (10 * acc + 6) d
  | D7 d => uint_val (10 * acc + 7) d
  | D8 d => uint_val (10 * acc + 8) d
  | D9 d => uint_val (10 * acc + 9) d
  end.

(** [s] does not begin with a decimal digit. *)
Definition no_digit_ahead (s : string) : Prop :=
  match s with
  | EmptyString => True
  | String c _ => Cxx.digit_of c = None
  end.

(** [s] begins with a decimal digit. *)
Definition digit_ahead (s : string) : Prop :=
  match s with
  | EmptyString => False
  | String c _ => Cxx.digit_of c <> None
  end.

(** ** Strings of digits *)

Fixpoint all_chars (p : ascii -> bool) (s : string) : bool :=
  match s with
  | EmptyString => true
  | String c s' => p c && all_chars p s'
  end.

(** A character that std::to_string may print for an integer. *)
Definition numeral_char (c : ascii) : bool :=
  match Cxx.digit_of c with
  | Some _ => true
  | None => Ascii.eqb c "-"
  end.

(** What strtok leaves of a token being read when it ends. *)
Definition flush (cur : string) : list string :=
  match cur with
  | EmptyString => []
  | _ => [cur]
  end.

(** ** More vocabulary: the worker behind any service *)

Section Loss.

Context {Sock Conn : Type} {transport : Transport Sock} {conn : Connector Conn Sock}.
Variable P : Decls.

(** The traffic of an exchange for the request [m] that fails: a write
    that fails, or a write that succeeds and a read that returns
    nothing. *)
Definition failed_exchange (m : string) (tail : list Event) : Prop :=
  tail = [Wrote m false] \/ tail = [Wrote m true; Read EmptyString].

(** From [st] to [st'] the worker served commands in order, then the
    exchange for the command at the front failed and the queue was
    cleared. *)
Definition lost (st : State Sock Conn) (evs : list Event) (st' : State Sock Conn) : Prop :=
  exists e1 st1 m f rest tail,
    served st e1 st1 /\
    writeQueue st1 = (m, f) :: rest /\
    failed_exchange m tail /\
    evs = e1 ++ tail ++ [Cleared] /\
    trace st' = trace st ++ evs /\
    error_ st' = Error.LostConnection /\
    writeQueue st' = [].

End Loss.

Section Throw.

Context {Sock Conn : Type} {transport : Transport Sock} {conn : Connector Conn Sock}.
Variable P : Decls.

(** The round entered at [st1] is left at [st'] by the lambda of the
    front command, which throws [e] on the reply [r]: the exchange was
    made and the invocation recorded, and nothing else has changed. *)
Definition thrown_at (st1 : State Sock Conn) (e : Abort) (c : Cmd) (r : string)
    (st' : State Sock Conn) : Prop :=
  exists rest,
    writeQueue st1 = c :: rest /\
    r <> EmptyString /\
    trace st' = trace st1 ++ [Wrote (fst c) true; Read r; Invoked c r] /\
    writeQueue st' = writeQueue st1 /\
    error_ st' = error_ st1 /\
    run_handler P (snd c) r st' = Aborted e st'.

End Throw.

(** ** The callers *)

(** The commands a caller can ask for: the send methods and the first
    part of the wait methods. *)
Inductive Request : Type :=
| AskResume | AskPause | AskPrevious | AskNext
| AskGetVolume | AskSetVolume (v : Cxx.double) | AskMute | AskUnmute
| AskSetSongIdx (id : Z) | AskGetSongIdx | AskGetQueueSize
| AskRemoveFromQueue (pos : Z) | AskGetQueue (s e : Z) | AskSetQueue (q : list Z)
| AskAddToSubQueue (id : Z) | AskRemoveFromSubQueue (pos : Z) | AskGetSubQueueSize
| AskGetSubQueue (s e : Z) | AskSkipSubQueueSongs (n : Z)
| AskGetRepeat | AskSetRepeat (m : RepeatMode.t)
| AskGetShuffle | AskSetShuffle (m : ShuffleMode.t)
| AskGetSong | AskGetStatus | AskGetPosition | AskSetPosition (pos : Cxx.double)
| AskGetPlayingFrom | AskSetPlayingFrom (str : string)
| AskReleaseDBLock | AskReloadConfig
| AskRequestDBLock (done : nat) | AskReset (done : nat) | AskSongIdx (done : nat).

(** The Protocol::Command whose opcode each lambda's method sends. *)
Definition command_of (f : Handler) : Protocol.Command.t :=
  match f with
  | cb_waitRequestDBLock _ => Protocol.Command.RequestDBLock
  | cb_waitReset _ => Protocol.Command.Reset
  | cb_waitSongIdx _ => Protocol.Command.QueueIdx
  | cb_sendResume => Protocol.Command.Resume
  | cb_sendPause => Protocol.Command.Pause
  | cb_sendPrevious => Protocol.Command.Previous
  | cb_sendNext => Protocol.Command.Next
  | cb_sendGetVolume => Protocol.Command.GetVolume
  | cb_sendSetVolume => Protocol.Command.SetVolume
  | cb_sendMute => Protocol.Command.Mute
  | cb_sendUnmute => Protocol.Command.Unmute
  | cb_sendSetSongIdx => Protocol.Command.SetQueueIdx
  | cb_sendGetSongIdx => Protocol.Command.QueueIdx
  | cb_sendGetQueueSize => Protocol.Command.QueueSize
  | cb_sendRemoveFromQueue _ => Protocol.Command.RemoveFromQueue
  | cb_sendGetQueue => Protocol.Command.GetQueue
  | cb_sendSetQueue _ => Protocol.Command.SetQueue
  | cb_sendAddToSubQueue _ => Protocol.Command.AddToSubQueue
  | cb_sendRemoveFromSubQueue _ => Protocol.Command.RemoveFromSubQueue
  | cb_sendGetSubQueueSize => Protocol.Command.SubQueueSize
  | cb_sendGetSubQueue => Protocol.Command.GetSubQueue
  | cb_sendSkipSubQueueSongs _ => Protocol.Command.SkipSubQueueSongs
  | cb_sendGetRepeat => Protocol.Command.GetRepeat
  | cb_sendSetRepeat _ => Protocol.Command.SetRepeat
  | cb_sendGetShuffle => Protocol.Command.GetShuffle
  | cb_sendSetShuffle _ => Protocol.Command.SetShuffle
  | cb_sendGetSong => Protocol.Command.GetSong
  | cb_sendGetStatus => Protocol.Command.GetStatus
  | cb_sendGetPosition => Protocol.Command.GetPosition
  | cb_sendSetPosition => Protocol.Command.SetPosition
  | cb_sendGetPlayingFrom => Protocol.Command.GetPlayingFrom
  | cb_sendSetPlayingFrom => Protocol.Command.SetPlayingFrom
  | cb_sendReleaseDBLock => Protocol.Command.ReleaseDBLock
  | cb_sendReloadConfig => Protocol.Command.ReloadConfig
  end.

(** What is taken of the declarations that are not among the sources: an
    opcode is an int, and the delimiter is neither a digit nor a minus
    sign. *)
Definition plain_decls (P : Decls) : Prop :=
  numeral_char (Delimiter P) = false /\
  forall c, Cxx.INT_MIN <= Command_int P c <= Cxx.INT_MAX.

Section Callers.

Context {Sock Conn : Type} {transport : Transport Sock} {conn : Connector Conn Sock}.
Variable P : Decls.

(** The method call behind a request. *)
Definition ask (r : Request) (st : State Sock Conn) : State Sock Conn :=
  match r with
  | AskResume => sendResume P st
  | AskPause => sendPause P st
  | AskPrevious => sendPrevious P st
  | AskNext => sendNext P st
  | AskGetVolume => sendGetVolume P st
  | AskSetVolume v => sendSetVolume P v st
  | AskMute => sendMute P st
  | AskUnmute => sendUnmute P st
  | AskSetSongIdx id => sendSetSongIdx P id st
  | AskGetSongIdx => sendGetSongIdx P st
  | AskGetQueueSize => sendGetQueueSize P st
  | AskRemoveFromQueue pos => sendRemoveFromQueue P pos st
  | AskGetQueue s e => sendGetQueue P s e st
  | AskSetQueue q => sendSetQueue P q st
  | AskAddToSubQueue id => sendAddToSubQueue P id st
  | AskRemoveFromSubQueue pos => sendRemoveFromSubQueue P pos st
  | AskGetSubQueueSize => sendGetSubQueueSize P st
  | AskGetSubQueue s e => sendGetSubQueue P s e st
  | AskSkipSubQueueSongs n => sendSkipSubQueueSongs P n st
  | AskGetRepeat => sendGetRepeat P st
  | AskSetRepeat m => sendSetRepeat P m st
  | AskGetShuffle => sendGetShuffle P st
  | AskSetShuffle m => sendSetShuffle P m st
  | AskGetSong => sendGetSong P st
  | AskGetStatus => sendGetStatus P st
  | AskGetPosition => sendGetPosition P st
  | AskSetPosition pos => sendSetPosition P pos st
  | AskGetPlayingFrom => sendGetPlayingFrom P st
  | AskSetPlayingFrom str => sendSetPlayingFrom P str st
  | AskReleaseDBLock => sendReleaseDBLock P st
  | AskReloadConfig => sendReloadConfig P st
  | AskRequestDBLock done => waitRequestDBLock_push P done st
  | AskReset done => waitReset_push P done st
  | AskSongIdx done => waitSongIdx_push P done st
  end.

(** The request of a command begins with the opcode that goes with its
    lambda: std::stoi reads that opcode off it. *)
Definition addressed (c : Cmd) : Prop :=
  Cxx.stoi (fst c) = inr (Command_int P (command_of (snd c))).

(** The body of the loop of Application::run (Application.cpp), entered
    when display->loop() has answered true: reconnect if the connection
    was lost. *)
Definition Application_run_turn (st : State Sock Conn) : Outcome (State Sock Conn) :=
  if Error.eqb (error st) Error.LostConnection then reconnect P st else Returned st.

(** What goes on around the object, one whole step at a time: a caller's
    request, a turn of the loop of Application::run, a round of the
    worker's loop. *)
Inductive Activity : Type :=
| Asks (r : Request)
| RunTurn
| WorkerRound (due : bool).

Definition perform (a : Activity) (st : State Sock Conn) : Outcome (State Sock Conn) :=
  match a with
  | Asks r => Returned (ask r st)
  | RunTurn => Application_run_turn st
  | WorkerRound due => if exit_ st then Returned st else process_iteration P due st
  end.

Fixpoint perform_all (acts : list Activity) (st : State Sock Conn)
  : Outcome (State Sock Conn) :=
  match acts with
  | [] => Returned st
  | a :: acts' =>
      match perform a st with
      | Returned st' => perform_all acts' st'
      | Aborted e st' => Aborted e st'
      end
  end.

End Callers.

Section Cache.

Context {Sock Conn : Type}.

(** [st'] differs from [st] at most in the connector, the socket, the
    error field and the record of events. *)
Definition same_cache (st st' : State Sock Conn) : Prop :=
  limit_ st' = limit_ st /\ currentSong_ st' = currentSong_ st /\
  exit_ st' = exit_ st /\ playingFrom_ st' = playingFrom_ st /\
  position_ st' = position_ st /\ queueChanged_ st' = queueChanged_ st /\
  queueSize_ st' = queueSize_ st /\ repeatMode_ st' = repeatMode_ st /\
  shuffleMode_ st' = shuffleMode_ st /\ songIdx_ st' = songIdx_ st /\
  subQueueChanged_ st' = subQueueChanged_ st /\ status_ st' = status_ st /\
  volume_ st' = volume_ st /\ queue_ st' = queue_ st /\
  subQueue_ st' = subQueue_ st /\ subQueueSize_ st' = subQueueSize_ st /\
  writeQueue st' = writeQueue st /\ done_flags st' = done_flags st.

(** No command is pending while the error field is set. *)
Definition quiet_when_down (st : State Sock Conn) : Prop :=
  error_ st <> Error.None -> writeQueue st = [].

End Cache.

Section Polling.

Context {Sock Conn : Type} {transport : Transport Sock} {conn : Connector Conn Sock}.
Variable P : Decls.

(** The ten commands of the poll, in the order process sends them. *)
Definition poll_commands : list Cmd :=
  [ (Cxx.to_string (Command_int P Protocol.Command.GetPlayingFrom), cb_sendGetPlayingFrom);
    (Cxx.to_string (Command_int P Protocol.Command.GetPosition), cb_sendGetPosition);
    (Cxx.to_string (Command_int P Protocol.Command.QueueSize), cb_sendGetQueueSize);
    (Cxx.to_string (Command_int P Protocol.Command.GetRepeat), cb_sendGetRepeat);
    (Cxx.to_string (Command_int P Protocol.Command.GetShuffle), cb_sendGetShuffle);
    (Cxx.to_string (Command_int P Protocol.Command.GetSong), cb_sendGetSong);
    (Cxx.to_string (Command_int P Protocol.Command.QueueIdx), cb_sendGetSongIdx);
    (Cxx.to_string (Command_int P Protocol.Command.SubQueueSize), cb_sendGetSubQueueSize);
    (Cxx.to_string (Command_int P Protocol.Command.GetStatus), cb_sendGetStatus);
    (Cxx.to_string (Command_int P Protocol.Command.GetVolume), cb_sendGetVolume) ].

(** The cached numbers are values of their C++ types: size_t for the
    index and the sizes, int for the song ids. *)
Definition in_types (st : State Sock Conn) : Prop :=
  0 <= songIdx_ st <= Cxx.SIZE_MAX /\
  0 <= queueSize_ st <= Cxx.SIZE_MAX /\
  0 <= subQueueSize_ st <= Cxx.SIZE_MAX /\
  Cxx.INT_MIN <= currentSong_ st <= Cxx.INT_MAX /\
  Forall (fun z => Cxx.INT_MIN <= z <= Cxx.INT_MAX) (queue_ st) /\
  Forall (fun z => Cxx.INT_MIN <= z <= Cxx.INT_MAX) (subQueue_ st).

End Polling.

(** ** More sample objects *)

(** Connected to a service that answers "99999999999" to everything, a
    number that fits a size_t and no int, with a poll of the queue size
    and a request for the current song pending. *)
Definition sample_overflowing : State Constant Constant :=
  sendGetSong sample_decls
    (sendGetQueueSize sample_decls
       (fresh (service "99999999999") (Some (service "99999999999")) Error.None)).

(** A connector with one socket to hand out, on which the version
    exchange succeeds and every write after it fails. *)
Definition sample_one_socket : list (option Scripted) :=
  [Some (sample_versioned ["3"%string])].

(** A caller asks to resume, the worker runs a round, a caller asks to
    pause, Application::run takes a turn. *)
Definition sample_session : list Activity :=
  [Asks AskResume; WorkerRound false; Asks AskPause; RunTurn].

(** A connector with two sockets to hand out, on each of which the
    version exchange succeeds and every write after it fails. *)
Definition sample_two_sockets : list (option Scripted) :=
  [Some (sample_versioned ["3"%string]); Some (sample_versioned ["3"%string])].

(** A caller has entered waitRequestDBLock on a newly constructed object:
    its flag, number 0, is unset and its request is pushed. *)
Definition sample_waiting : State Scripted (list (option Scripted)) :=
  waitRequestDBLock_push sample_decls 0
    (state_of (Sysmodule_new sample_decls sample_two_sockets 0)).

(** The worker has gone a round: its first write has failed. *)
Definition sample_dropped : State Scripted (list (option Scripted)) :=
  state_of (process_iteration sample_decls false sample_waiting).

(** Application::run has taken a turn: it has reconnected. *)
Definition sample_reconnected : State Scripted (list (option Scripted)) :=
  state_of (Application_run_turn sample_decls sample_dropped).

(** What the caller sees when both happen during its first sleep. *)
Definition sample_missed (t : nat) : State Scripted (list (option Scripted)) :=
  if Nat.eqb t 0 then sample_waiting else sample_reconnected.

(** What a waiting caller sees when its lambda runs between its second
    and its third wake-up. *)
Definition sample_granted (t : nat) : State Constant Constant :=
  if Nat.ltb t 2 then sample_up else set_done 0 sample_up.

(** ** What a request stores at once *)

(** The object as a request leaves it before it pushes: sendSetPosition
    stores the position first, a wait method starts with its flag unset,
    every other method stores nothing. *)
Definition stored_by {Sock Conn : Type} (r : Request) (st : State Sock Conn)
  : State Sock Conn :=
  match r with
  | AskSetPosition pos => set_position_ pos st
  | AskRequestDBLock done | AskReset done | AskSongIdx done => put_done done false st
  | _ => st
  end.

(** * Properties *)

(** ** The runtime functions on sample inputs *)

Module CxxTests.
Import Cxx.
Open Scope string_scope.

Example to_string_0 : to_string 0 = "0". Proof. reflexivity. Qed.
Example to_string_25000 : to_string 25000 = "25000". Proof. reflexivity. Qed.
Example to_string_neg : to_string (-7) = "-7". Proof. reflexivity. Qed.
Example stoi_plain : stoi "3" = inr 3%Z. Proof. reflexivity. Qed.
Example stoi_prefix : stoi "  -12ab" = inr (-12)%Z. Proof. reflexivity. Qed.
Example stoi_none : stoi "x" = inl InvalidArgument. Proof. reflexivity. Qed.
Example stoi_big : stoi "2147483648" = inl OutOfRange. Proof. reflexivity. Qed.
Example stoul_neg : stoul "-1" = inr ULONG_MAX. Proof. reflexivity. Qed.
Example stod_42 : stod "42.000000" = inr (double_of_Z 42). Proof. reflexivity. Qed.
Example stod_exp : stod "4.2e1" = inr (double_of_Z 42). Proof. reflexivity. Qed.
Example stod_hex : stod "0x2Ap0" = inr (double_of_Z 42). Proof. reflexivity. Qed.
Example stod_tenth :
  stod "0.1" = inr (S754_finite false 7205759403792794 (-56)).
Proof. reflexivity. Qed.
Example stod_none : stod "volume" = inl InvalidArgument. Proof. reflexivity. Qed.
Example to_string_double_42 : to_string_double (double_of_Z 42) = "42.000000".
Proof. reflexivity. Qed.
Example to_string_double_tenth :
  to_string_double (S754_finite false 7205759403792794 (-56)) = "0.100000".
Proof. reflexivity. Qed.
Example to_string_double_small :
  to_string_double (double_of 1 (-21)) = "0.000000".
Proof. reflexivity. Qed.
Example to_string_double_tie :
  to_string_double (double_of 1 (-7)) = "0.007812".
Proof. reflexivity. Qed.
Example stod_sum :
  stod "0.30000000000000004" = inr (S754_finite false 5404319552844596 (-54)).
Proof. reflexivity. Qed.
Example stod_tie_even :
  stod "9007199254740993.0" = inr (double_of_Z 9007199254740992).
Proof. reflexivity. Qed.
Example stod_huge : stod "1e400" = inl OutOfRange. Proof. reflexivity. Qed.
Example stod_inf : stod "-Infinity" = inr (S754_infinity true). Proof. reflexivity. Qed.
Example strtok_three :
  map strtol (strtok_all ["028"%char] ("10" ++ String "028" "20" ++ String "028" "30"))
  = [10; 20; 30]%Z.
Proof. reflexivity. Qed.
End CxxTests.

Lemma Error_eqb_eq (a b : Error.t) : Error.eqb a b = true <-> a = b.
Proof. destruct a, b; simpl; split; intro E; try reflexivity; discriminate E. Qed.

Lemma Error_neqb (a : Error.t) :
  negb (Error.eqb a Error.None) = true <-> a <> Error.None.
Proof. destruct a; simpl; split; intro E; congruence. Qed.

(** ** Reading the record of events *)

Lemma enqueued_app (a b : list Event) : enqueued (a ++ b) = enqueued a ++ enqueued b.
Proof.
  induction a as [|e a IH]; simpl; [reflexivity|].
  destruct e; simpl; rewrite IH; reflexivity.
Qed.

Lemma invocations_app (a b : list Event) :
  invocations (a ++ b) = invocations a ++ invocations b.
Proof.
  induction a as [|e a IH]; simpl; [reflexivity|].
  destruct e; simpl; rewrite IH; reflexivity.
Qed.

Lemma io_app (a b : list Event) : io (a ++ b) = io a ++ io b.
Proof.
  induction a as [|e a IH]; simpl; [reflexivity|].
  destruct e; simpl; rewrite IH; reflexivity.
Qed.

Lemma enqueued_pushed (new : list Cmd) : enqueued (map Enqueued new) = new.
Proof. induction new as [|c new IH]; simpl; congruence. Qed.

Lemma invocations_pushed (new : list Cmd) : invocations (map Enqueued new) = [].
Proof. induction new as [|c new IH]; simpl; congruence. Qed.

Lemma io_pushed (new : list Cmd) : io (map Enqueued new) = [].
Proof. induction new as [|c new IH]; simpl; congruence. Qed.

Lemma weight_app (a b : list Cmd) : weight (a ++ b) = (weight a + weight b)%nat.
Proof. induction a as [|c a IH]; simpl; [reflexivity|]. rewrite IH. lia. Qed.

(** ** Pushes *)

Section Pushes.

Context {Sock Conn : Type} {transport : Transport Sock} {conn : Connector Conn Sock}.
Variable P : Decls.

Local Abbreviation Sys := (State Sock Conn).

Lemma pushes_refl (st : Sys) : pushes st [] st.
Proof. unfold pushes; simpl; rewrite !app_nil_r; auto. Qed.

Lemma pushes_trans (st st1 st2 : Sys) (n1 n2 : list Cmd) :
  pushes st n1 st1 -> pushes st1 n2 st2 -> pushes st (n1 ++ n2) st2.
Proof.
  intros (Q1 & T1 & E1 & S1 & X1) (Q2 & T2 & E2 & S2 & X2).
  unfold pushes. rewrite Q2, Q1, T2, T1, E2, E1, S2, S1, X2, X1, map_app, !app_assoc.
  auto.
Qed.

Lemma enqueue_pushes (s : string) (f : Handler) (st : Sys) :
  pushes st (accepted st (s, f)) (enqueue s f st).
Proof.
  unfold enqueue, addToWriteQueue, accepted.
  destruct (Error.eqb (error_ st) Error.None); simpl.
  - unfold pushes; simpl; auto.
  - apply pushes_refl.
Qed.

Lemma accepted_same (st st' : Sys) (c : Cmd) :
  error_ st' = error_ st -> accepted st' c = accepted st c.
Proof. unfold accepted. intros ->. reflexivity. Qed.

Lemma weight_accepted (st : Sys) (c : Cmd) :
  (weight (accepted st c) <= S (spawns (snd c)))%nat.
Proof. unfold accepted. destruct (Error.eqb _ _); simpl; lia. Qed.

Ltac field_only :=
  unfold pushes; simpl; rewrite ?app_nil_r; auto.

Lemma pushes_cached (st st1 st2 : Sys) (new : list Cmd) :
  pushes st new st1 ->
  writeQueue st2 = writeQueue st1 -> trace st2 = trace st1 -> error_ st2 = error_ st1 ->
  socket st2 = socket st1 -> exit_ st2 = exit_ st1 ->
  pushes st new st2.
Proof.
  intros (Q & T & E & S & X) Q2 T2 E2 S2 X2.
  unfold pushes. rewrite Q2, T2, E2, S2, X2. auto.
Qed.

Lemma sendGetQueue_pushes (st : Sys) :
  pushes st (accepted st (getQueue_request P)) (sendGetQueue P 0 25000 st).
Proof. apply enqueue_pushes. Qed.

Lemma sendGetSubQueue_pushes (st : Sys) :
  pushes st (accepted st (getSubQueue_request P)) (sendGetSubQueue P 0 5000 st).
Proof. apply enqueue_pushes. Qed.

(** The two requests are what the calls in the lambdas hand to
    addToWriteQueue. *)
Lemma follow_up_requests (st : Sys) :
  sendGetQueue P 0 25000 st
  = snd (addToWriteQueue (fst (getQueue_request P)) (snd (getQueue_request P)) st) /\
  sendGetSubQueue P 0 5000 st
  = snd (addToWriteQueue (fst (getSubQueue_request P)) (snd (getSubQueue_request P)) st).
Proof. split; reflexivity. Qed.

(** A lambda that returns has pushed [pushed_by] and changed cached fields
    only; one that throws has changed nothing. *)
Lemma run_handler_pushes (f : Handler) (s : string) (st : Sys) :
  match run_handler P f s st with
  | Returned st' => pushes st (pushed_by P f s st) st'
  | Aborted _ st' => st' = st
  end.
Proof.
  destruct f; cbn [run_handler pushed_by]; unfold parsed;
    try (destruct (Cxx.stoi s) as [e|v]; [reflexivity|]);
    try (destruct (Cxx.stoul s) as [e|v]; [reflexivity|]);
    try (destruct (Cxx.stod s) as [e|v]; [reflexivity|]);
    try (field_only; fail).
  - (* sendGetSongIdx *)
    destruct (songIdx_ st =? v); simpl; [field_only|].
    eapply pushes_cached with (st1 := sendGetSubQueue P 0 5000 (sendGetQueue P 0 25000 st));
      try reflexivity.
    eapply pushes_trans; [apply sendGetQueue_pushes|].
    erewrite <- accepted_same; [apply sendGetSubQueue_pushes|].
    apply sendGetQueue_pushes.
  - (* sendGetQueueSize *)
    destruct (queueSize_ st =? v); simpl; [field_only|].
    eapply pushes_cached; [apply sendGetQueue_pushes|reflexivity..].
  - (* sendGetSubQueueSize *)
    destruct (subQueueSize_ st =? v); simpl; [field_only|].
    eapply pushes_cached; [apply sendGetSubQueue_pushes|reflexivity..].
  - (* sendSetRepeat *)
    destruct (switch_Repeat P v) as [rm|].
    + destruct (negb (RepeatMode.eqb rm m)); field_only.
    + destruct (negb (_ =? _)); field_only.
  - (* sendSetShuffle *)
    eapply pushes_cached; [apply sendGetQueue_pushes|reflexivity..].
Qed.

Lemma weight_pushed_by (f : Handler) (s : string) (st : Sys) :
  (weight (pushed_by P f s st) <= spawns f)%nat.
Proof.
  destruct f; cbn [pushed_by spawns]; try (simpl; lia);
    try (destruct (Cxx.stoul s) as [e|v]; [simpl; lia|]).
  - destruct (songIdx_ st =? v); [simpl; lia|].
    rewrite weight_app. unfold accepted. destruct (Error.eqb _ _); simpl; lia.
  - destruct (queueSize_ st =? v); [simpl; lia|].
    unfold accepted. destruct (Error.eqb _ _); simpl; lia.
  - destruct (subQueueSize_ st =? v); [simpl; lia|].
    unfold accepted. destruct (Error.eqb _ _); simpl; lia.
  - unfold accepted. destruct (Error.eqb _ _); simpl; lia.
Qed.

End Pushes.

(** ** The inner loop of the worker *)

Section Drain.

Context {Sock Conn : Type} {transport : Transport Sock} {conn : Connector Conn Sock}.
Variable P : Decls.

Local Abbreviation Sys := (State Sock Conn).

Lemma always_answers_write (sock : Sock) (m : string) :
  always_answers sock ->
  fst (writeMessage sock m) = true /\ always_answers (snd (writeMessage sock m)).
Proof.
  intros (good & G0 & G). destruct (G sock G0) as (W & _).
  destruct (W m) as (Wok & Wgood). split; [exact Wok|].
  exists good. auto.
Qed.

Lemma always_answers_read (sock : Sock) :
  always_answers sock ->
  fst (readMessage sock) <> EmptyString /\ always_answers (snd (readMessage sock)).
Proof.
  intros (good & G0 & G). destruct (G sock G0) as (_ & R & Rgood).
  split; [exact R|]. exists good. auto.
Qed.

Lemma length_zero (s : string) : (Z.of_nat (String.length s) =? 0) = true <-> s = EmptyString.
Proof. destruct s; simpl; split; intro E; try reflexivity; try discriminate E; lia. Qed.

(** A round whose write fails. *)
Lemma drain_iter_write_fails (st : Sys) (m : string) (f : Handler) (rest : list Cmd)
    (sock : Sock) :
  writeQueue st = (m, f) :: rest -> socket st = Some sock ->
  fst (writeMessage sock m) = false ->
  drain_iter P st =
  Returned (log [Cleared] (set_writeQueue [] (set_error_ Error.LostConnection
    (log [Wrote m false] (set_socket (Some (snd (writeMessage sock m))) st))))).
Proof.
  intros Q S W. unfold drain_iter. rewrite Q, S.
  destruct (writeMessage sock m) as [ok sock1]. simpl in W. subst ok. reflexivity.
Qed.

(** A round whose read returns nothing. *)
Lemma drain_iter_read_empty (st : Sys) (m : string) (f : Handler) (rest : list Cmd)
    (sock : Sock) :
  writeQueue st = (m, f) :: rest -> socket st = Some sock ->
  fst (writeMessage sock m) = true ->
  fst (readMessage (snd (writeMessage sock m))) = EmptyString ->
  drain_iter P st =
  Returned (log [Cleared] (set_writeQueue [] (set_error_ Error.LostConnection
    (log [Read EmptyString]
       (set_socket (Some (snd (readMessage (snd (writeMessage sock m)))))
          (log [Wrote m true] (set_socket (Some (snd (writeMessage sock m))) st))))))).
Proof.
  intros Q S W R. unfold drain_iter. rewrite Q, S.
  destruct (writeMessage sock m) as [ok sock1]. simpl in W, R. subst ok. simpl.
  destruct (readMessage sock1) as [str sock2]. simpl in R. subst str. reflexivity.
Qed.

(** A round whose exchange succeeds: the lambda runs, and when it returns
    the command is popped and, if the error field is set, the queue
    cleared. *)
Lemma drain_iter_answered (st : Sys) (m : string) (f : Handler) (rest : list Cmd)
    (sock : Sock) :
  writeQueue st = (m, f) :: rest -> socket st = Some sock ->
  fst (writeMessage sock m) = true ->
  fst (readMessage (snd (writeMessage sock m))) <> EmptyString ->
  drain_iter P st =
  match run_handler P f (fst (readMessage (snd (writeMessage sock m))))
          (at_invocation st m f sock) with
  | Returned st3 =>
      let st4 := set_writeQueue (tl (writeQueue st3)) st3 in
      if negb (Error.eqb (error_ st4) Error.None)
      then Returned (log [Cleared] (set_writeQueue [] st4))
      else Returned st4
  | Aborted e st3 => Aborted e st3
  end.
Proof.
  intros Q S W R. unfold drain_iter, at_invocation. rewrite Q, S.
  destruct (writeMessage sock m) as [ok sock1]. simpl in W, R. subst ok. simpl.
  destruct (readMessage sock1) as [str sock2]. simpl in R. simpl.
  destruct (Z.of_nat (String.length str) =? 0) eqn:L.
  - apply length_zero in L. contradiction.
  - destruct (run_handler P f str _); reflexivity.
Qed.

Lemma pushed_by_at_invocation (st : Sys) (m : string) (f : Handler) (sock : Sock)
    (r : string) :
  pushed_by P f r (at_invocation st m f sock) = pushed_by P f r st.
Proof. destruct f; reflexivity. Qed.

(** What a round with a successful exchange leaves when the lambda
    returns: the command popped, what the lambda pushed at the back. *)
Lemma drain_iter_answered_returned (st st' : Sys) (m : string) (f : Handler)
    (rest : list Cmd) (sock : Sock) :
  writeQueue st = (m, f) :: rest -> socket st = Some sock ->
  fst (writeMessage sock m) = true ->
  fst (readMessage (snd (writeMessage sock m))) <> EmptyString ->
  error_ st = Error.None ->
  drain_iter P st = Returned st' ->
  let r := fst (readMessage (snd (writeMessage sock m))) in
  let new := pushed_by P f r st in
  writeQueue st' = rest ++ new /\
  trace st' = trace st ++ [Wrote m true; Read r; Invoked (m, f) r] ++ map Enqueued new /\
  error_ st' = Error.None /\
  socket st' = Some (snd (readMessage (snd (writeMessage sock m)))) /\
  exit_ st' = exit_ st.
Proof.
  intros Q S W R E D r new.
  rewrite (drain_iter_answered st m f rest sock Q S W R) in D.
  pose proof (run_handler_pushes P f r (at_invocation st m f sock)) as H.
  fold r in D.
  destruct (run_handler P f r (at_invocation st m f sock)) as [st3|e st3];
    [|discriminate D].
  rewrite pushed_by_at_invocation in H. fold new in H.
  destruct H as (Q3 & T3 & E3 & S3 & X3).
  simpl in Q3, T3, E3, S3, X3. rewrite Q in Q3. fold r in T3.
  cbv zeta in D. simpl error_ in D. rewrite E3, E in D. simpl in D.
  injection D as <-. simpl. rewrite Q3, T3, E3, E, S3, X3. simpl.
  repeat split; try reflexivity.
  rewrite <- !app_assoc. reflexivity.
Qed.

(** Every round takes weight off the queue. *)
Lemma drain_iter_weight (st st' : Sys) :
  writeQueue st <> [] -> drain_iter P st = Returned st' ->
  (weight (writeQueue st') < weight (writeQueue st))%nat.
Proof.
  intros NE D.
  destruct (writeQueue st) as [|[m f] rest] eqn:Q; [congruence|].
  destruct (socket st) as [sock|] eqn:S.
  2:{ unfold drain_iter in D. rewrite Q, S in D. discriminate D. }
  destruct (fst (writeMessage sock m)) eqn:W.
  2:{ rewrite (drain_iter_write_fails st m f rest sock Q S W) in D.
      injection D as <-. simpl. lia. }
  destruct (fst (readMessage (snd (writeMessage sock m)))) as [|c r'] eqn:R.
  { rewrite (drain_iter_read_empty st m f rest sock Q S W R) in D.
    injection D as <-. simpl. lia. }
  assert (R' : fst (readMessage (snd (writeMessage sock m))) <> EmptyString)
    by (rewrite R; discriminate).
  rewrite (drain_iter_answered st m f rest sock Q S W R') in D.
  pose proof (run_handler_pushes P f (fst (readMessage (snd (writeMessage sock m))))
                (at_invocation st m f sock)) as H.
  destruct (run_handler P f _ (at_invocation st m f sock)) as [st3|e st3];
    [|discriminate D].
  rewrite pushed_by_at_invocation in H.
  destruct H as (Q3 & _). simpl in Q3. rewrite Q in Q3.
  cbv zeta in D.
  destruct (negb (Error.eqb _ _)); injection D as <-; simpl; [lia|].
  rewrite Q3. simpl. rewrite weight_app.
  pose proof (weight_pushed_by P f (fst (readMessage (snd (writeMessage sock m)))) st).
  lia.
Qed.

(** The inner loop ends: fuel above the weight of the queue is enough. *)
Lemma drain_fuel_enough (fuel : nat) (st : Sys) :
  (weight (writeQueue st) < fuel)%nat -> drain_fuel P fuel st <> None.
Proof.
  revert st. induction fuel as [|fuel IH]; intros st Hw; [lia|].
  simpl. destruct (writeQueue st) as [|c rest] eqn:Q; [discriminate|].
  destruct (drain_iter P st) as [st'|e st'] eqn:D; [|discriminate].
  apply IH.
  assert (NE : writeQueue st <> []) by (rewrite Q; discriminate).
  pose proof (drain_iter_weight st st' NE D) as L. rewrite Q in L. simpl in Hw, L. lia.
Qed.

(** More fuel does not change the result. *)
Lemma drain_fuel_mono (a b : nat) (st : Sys) (r : Outcome Sys) :
  drain_fuel P a st = Some r -> (a <= b)%nat -> drain_fuel P b st = Some r.
Proof.
  revert b st. induction a as [|a IH]; intros b st D L; [discriminate D|].
  destruct b as [|b]; [lia|]. simpl in D |- *.
  destruct (writeQueue st); [exact D|].
  destruct (drain_iter P st); [|exact D].
  apply IH; [exact D|lia].
Qed.

(** [drain] is the result of the inner loop run with fuel that suffices. *)
Lemma drain_eq (fuel : nat) (st : Sys) (r : Outcome Sys) :
  drain_fuel P fuel st = Some r -> drain P st = r.
Proof.
  intros D. unfold drain.
  destruct (drain_fuel P (S (weight (writeQueue st))) st) as [r'|] eqn:D'.
  - destruct (Nat.le_ge_cases fuel (S (weight (writeQueue st)))) as [L|L].
    + rewrite (drain_fuel_mono _ _ _ _ D L) in D'. congruence.
    + rewrite (drain_fuel_mono _ _ _ _ D' L) in D. congruence.
  - exfalso. apply (drain_fuel_enough (S (weight (writeQueue st))) st); [lia|exact D'].
Qed.

Lemma drain_total (st : Sys) :
  exists fuel, drain_fuel P fuel st = Some (drain P st).
Proof.
  exists (S (weight (writeQueue st))).
  destruct (drain_fuel P (S (weight (writeQueue st))) st) as [r|] eqn:D.
  - rewrite (drain_eq _ _ _ D). reflexivity.
  - exfalso. apply (drain_fuel_enough (S (weight (writeQueue st))) st); [lia|exact D].
Qed.

(** ** Commands are served in the order of the queue *)

Lemma served_refl (st : Sys) : error_ st = Error.None -> served st [] st.
Proof.
  intro E. unfold served. simpl. rewrite !app_nil_r. repeat split; auto.
Qed.

Lemma served_trans (st st1 st2 : Sys) (e1 e2 : list Event) :
  served st e1 st1 -> served st1 e2 st2 -> served st (e1 ++ e2) st2.
Proof.
  intros (T1 & Q1 & I1 & N1 & E1) (T2 & Q2 & I2 & N2 & E2).
  unfold served.
  rewrite T2, T1, enqueued_app, invocations_app, io_app, map_app, flat_map_app, I1, I2.
  repeat split; auto.
  - rewrite app_assoc. reflexivity.
  - rewrite app_assoc, Q1, <- !app_assoc, Q2. reflexivity.
  - apply Forall_app; auto.
Qed.

Lemma pushes_served (st st' : Sys) (new : list Cmd) :
  pushes st new st' -> error_ st = Error.None -> served st (map Enqueued new) st'.
Proof.
  intros (Q & T & E & _) E0. unfold served.
  rewrite enqueued_pushed, invocations_pushed, io_pushed. simpl.
  repeat split; auto. congruence.
Qed.

(** One round on a socket that answers, with the error field clear, when
    the lambda returns. *)
Lemma drain_iter_served (st st' : Sys) :
  answering st -> error_ st = Error.None -> writeQueue st <> [] ->
  drain_iter P st = Returned st' ->
  exists evs, served st evs st' /\ answering st' /\ exit_ st' = exit_ st.
Proof.
  intros (sock & S & A) E NE D.
  destruct (writeQueue st) as [|[m f] rest] eqn:Q; [congruence|].
  destruct (always_answers_write sock m A) as (W & A1).
  destruct (always_answers_read _ A1) as (R & A2).
  destruct (drain_iter_answered_returned st st' m f rest sock Q S W R E D)
    as (Q' & T' & E' & S' & X').
  eexists. split; [|split; [exists (snd (readMessage (snd (writeMessage sock m)))); auto|exact X']].
  unfold served. split; [exact T'|].
  rewrite Q, Q'.
  change (?a :: ?b :: ?c :: ?d) with ([a; b; c] ++ d).
  rewrite enqueued_app, invocations_app, io_app.
  rewrite enqueued_pushed, invocations_pushed, io_pushed. simpl.
  repeat split; auto.
Qed.

(** The inner loop on a socket that answers, when no lambda throws:
    everything is served and the queue is empty. *)
Lemma drain_fuel_served (fuel : nat) (st st' : Sys) :
  answering st -> error_ st = Error.None ->
  drain_fuel P fuel st = Some (Returned st') ->
  exists evs, served st evs st' /\ writeQueue st' = [] /\ answering st' /\
              exit_ st' = exit_ st.
Proof.
  revert st. induction fuel as [|fuel IH]; intros st A E D; [discriminate D|].
  simpl in D. destruct (writeQueue st) as [|c rest] eqn:Q.
  - injection D as <-. exists []. auto using served_refl.
  - destruct (drain_iter P st) as [st1|e st1] eqn:D1; [|discriminate D].
    assert (NE : writeQueue st <> []) by (rewrite Q; discriminate).
    destruct (drain_iter_served st st1 A E NE D1) as (e1 & V1 & A1 & X1).
    assert (E1 : error_ st1 = Error.None) by apply V1.
    destruct (IH st1 A1 E1 D) as (e2 & V2 & Q2 & A2 & X2).
    exists (e1 ++ e2). split; [eapply served_trans; eauto|].
    split; [exact Q2|]. split; [exact A2|]. congruence.
Qed.

Lemma poll_pushes (st : Sys) : exists new, pushes st new (poll P st).
Proof.
  unfold poll, sendGetVolume, sendGetStatus, sendGetSubQueueSize, sendGetSongIdx,
    sendGetSong, sendGetShuffle, sendGetRepeat, sendGetQueueSize, sendGetPosition,
    sendGetPlayingFrom.
  eexists.
  repeat (eapply pushes_trans; [|apply enqueue_pushes]).
  apply pushes_refl.
Qed.

(** One round of the outer loop. *)
Lemma process_iteration_served (due : bool) (st st' : Sys) :
  answering st -> error_ st = Error.None ->
  process_iteration P due st = Returned st' ->
  exists evs, served st evs st' /\ answering st' /\ exit_ st' = exit_ st /\
              (due = false -> writeQueue st' = []).
Proof.
  intros A E D. unfold process_iteration in D. rewrite E in D. simpl in D.
  destruct (drain_total st) as (fuel & F).
  destruct (drain P st) as [st1|e st1]; [|discriminate D].
  destruct (drain_fuel_served fuel st st1 A E F) as (e1 & V1 & Q1 & A1 & X1).
  injection D as <-. destruct due.
  - destruct (poll_pushes st1) as (new & N).
    exists (e1 ++ map Enqueued new). split; [|split; [|split]].
    + eapply served_trans; [exact V1|]. apply pushes_served; [exact N|apply V1].
    + destruct A1 as (sock & S1 & A1). exists sock. split; [|exact A1].
      destruct N as (_ & _ & _ & S & _). congruence.
    + destruct N as (_ & _ & _ & _ & X). congruence.
    + discriminate.
  - exists e1. auto.
Qed.

Lemma process_served (clock : list bool) (st st' : Sys) :
  answering st -> error_ st = Error.None ->
  process P clock st = Returned st' ->
  exists evs, served st evs st' /\ answering st' /\
              (exit_ st = false -> last clock true = false -> writeQueue st' = []).
Proof.
  revert st. induction clock as [|due clock IH]; intros st A E D.
  - injection D as <-. exists []. split; [apply served_refl; exact E|].
    split; [exact A|]. simpl. discriminate.
  - simpl in D. destruct (exit_ st) eqn:X.
    + injection D as <-. exists []. split; [apply served_refl; exact E|].
      split; [exact A|]. discriminate.
    + destruct (process_iteration P due st) as [st1|e st1] eqn:D1; [|discriminate D].
      destruct (process_iteration_served due st st1 A E D1) as (e1 & V1 & A1 & X1 & Q1).
      assert (E1 : error_ st1 = Error.None) by apply V1.
      destruct (IH st1 A1 E1 D) as (e2 & V2 & A2 & Q2).
      exists (e1 ++ e2). split; [eapply served_trans; eauto|]. split; [exact A2|].
      intros _ L. destruct clock as [|due' clock'].
      * simpl in L, D. injection D as <-. auto.
      * apply Q2; [congruence|exact L].
Qed.

(** C1, amended.  On a socket behind which the service always answers,
    and with the error field clear, whenever process gets through its
    rounds without a lambda throwing: the lambdas invoked are, in order
    and one for one, the commands that were pending or were pushed on the
    way, up to those still pending at the end; the traffic on the socket
    is one write and one read per invocation, and the reply handed to a
    lambda is the one read right after its own request was written; and
    after a last round that did not poll, nothing is pending. *)
Theorem process_fifo (clock : list bool) (st st' : Sys) :
  answering st -> error_ st = Error.None ->
  process P clock st = Returned st' ->
  exists evs,
    trace st' = trace st ++ evs /\
    map fst (invocations evs) ++ writeQueue st' = writeQueue st ++ enqueued evs /\
    io evs = flat_map exchange (invocations evs) /\
    Forall (fun cr => snd cr <> EmptyString) (invocations evs) /\
    (exit_ st = false -> last clock true = false -> writeQueue st' = []).
Proof.
  intros A E D.
  destruct (process_served clock st st' A E D) as (evs & (T & Q & I & N & _) & _ & L).
  exists evs. auto.
Qed.

(** Behind a service that always answers, the only way out of a round
    other than by returning is a lambda that throws: the record ends with
    its invocation. *)
Lemma drain_iter_aborted (st st' : Sys) (e : Abort) :
  answering st -> drain_iter P st = Aborted e st' ->
  exists c r st_i evs,
    run_handler P (snd c) r st_i = Aborted e st' /\
    trace st' = trace st ++ evs ++ [Invoked c r].
Proof.
  intros (sock & S & A) D.
  destruct (writeQueue st) as [|[m f] rest] eqn:Q.
  { unfold drain_iter in D. rewrite Q in D. discriminate D. }
  destruct (always_answers_write sock m A) as (W & A1).
  destruct (always_answers_read _ A1) as (R & _).
  rewrite (drain_iter_answered st m f rest sock Q S W R) in D.
  pose proof (run_handler_pushes P f (fst (readMessage (snd (writeMessage sock m))))
                (at_invocation st m f sock)) as H.
  destruct (run_handler P f _ (at_invocation st m f sock)) as [st3|e3 st3] eqn:RH.
  - cbv zeta in D. destruct (negb _); discriminate D.
  - injection D as -> ->. subst st'.
    exists (m, f), (fst (readMessage (snd (writeMessage sock m)))),
      (at_invocation st m f sock),
      [Wrote m true; Read (fst (readMessage (snd (writeMessage sock m))))].
    split; [exact RH|]. simpl. rewrite <- !app_assoc. reflexivity.
Qed.

Lemma drain_fuel_aborted (fuel : nat) (st st' : Sys) (e : Abort) :
  answering st -> error_ st = Error.None ->
  drain_fuel P fuel st = Some (Aborted e st') ->
  exists c r st_i evs,
    run_handler P (snd c) r st_i = Aborted e st' /\
    trace st' = trace st ++ evs ++ [Invoked c r].
Proof.
  revert st. induction fuel as [|fuel IH]; intros st A E D; [discriminate D|].
  simpl in D. destruct (writeQueue st) as [|c0 rest] eqn:Q; [discriminate D|].
  destruct (drain_iter P st) as [st1|e1 st1] eqn:D1.
  - assert (NE : writeQueue st <> []) by (rewrite Q; discriminate).
    destruct (drain_iter_served st st1 A E NE D1) as (e1 & V1 & A1 & _).
    assert (E1 : error_ st1 = Error.None) by apply V1.
    destruct (IH st1 A1 E1 D) as (c & r & st_i & evs & RH & T).
    exists c, r, st_i, (e1 ++ evs). split; [exact RH|].
    destruct V1 as (T1 & _). rewrite T, T1, <- !app_assoc. reflexivity.
  - injection D as -> ->. apply (drain_iter_aborted st st' e); [exact A|exact D1].
Qed.

(** process is left only through a lambda that throws. *)
Lemma process_aborted_by_handler (clock : list bool) (st st' : Sys) (e : Abort) :
  answering st -> error_ st = Error.None ->
  process P clock st = Aborted e st' ->
  exists c r st_i evs,
    run_handler P (snd c) r st_i = Aborted e st' /\
    trace st' = trace st ++ evs ++ [Invoked c r].
Proof.
  revert st. induction clock as [|due clock IH]; intros st A E D; [discriminate D|].
  simpl in D. destruct (exit_ st); [discriminate D|].
  destruct (process_iteration P due st) as [st1|e1 st1] eqn:D1.
  - destruct (process_iteration_served due st st1 A E D1) as (e1 & V1 & A1 & _).
    assert (E1 : error_ st1 = Error.None) by apply V1.
    destruct (IH st1 A1 E1 D) as (c & r & st_i & evs & RH & T).
    exists c, r, st_i, (e1 ++ evs). split; [exact RH|].
    destruct V1 as (T1 & _). rewrite T, T1, <- !app_assoc. reflexivity.
  - injection D as -> ->. unfold process_iteration in D1. rewrite E in D1. simpl in D1.
    destruct (drain_total st) as (fuel & F).
    destruct (drain P st) as [st2|e2 st2]; [discriminate D1|].
    injection D1 as -> ->. apply (drain_fuel_aborted fuel st st' e A E F).
Qed.

(** ** A failed exchange *)

(** What a round does when the error field is clear and the lambda, if it
    runs, returns: either the exchange failed, the connection is lost and
    the queue cleared with no lambda invoked, or the front command was
    invoked and popped. *)
Lemma drain_iter_cases (st st' : Sys) (m : string) (f : Handler) (rest : list Cmd) :
  error_ st = Error.None -> writeQueue st = (m, f) :: rest ->
  drain_iter P st = Returned st' ->
  (error_ st' = Error.LostConnection /\ writeQueue st' = [] /\
   invocations (trace st') = invocations (trace st)) \/
  (exists r, error_ st' = Error.None /\
             invocations (trace st') = invocations (trace st) ++ [((m, f), r)] /\
             writeQueue st' = rest ++ pushed_by P f r st).
Proof.
  intros E Q D.
  destruct (socket st) as [sock|] eqn:S.
  2:{ unfold drain_iter in D. rewrite Q, S in D. discriminate D. }
  destruct (fst (writeMessage sock m)) eqn:W.
  2:{ rewrite (drain_iter_write_fails st m f rest sock Q S W) in D.
      injection D as <-. left. simpl.
      repeat (rewrite ?invocations_app; simpl). rewrite ?app_nil_r. auto. }
  destruct (fst (readMessage (snd (writeMessage sock m)))) as [|c r'] eqn:R.
  { rewrite (drain_iter_read_empty st m f rest sock Q S W R) in D.
    injection D as <-. left. simpl.
    repeat (rewrite ?invocations_app; simpl). rewrite ?app_nil_r. auto. }
  assert (R' : fst (readMessage (snd (writeMessage sock m))) <> EmptyString)
    by (rewrite R; discriminate).
  destruct (drain_iter_answered_returned st st' m f rest sock Q S W R' E D)
    as (Q' & T' & E' & _).
  right. exists (fst (readMessage (snd (writeMessage sock m)))).
  split; [exact E'|]. split; [|exact Q'].
  rewrite T', invocations_app.
  change (?a :: ?b :: ?c :: ?d) with ([a; b; c] ++ d).
  rewrite invocations_app, invocations_pushed. reflexivity.
Qed.

(** The rounds before the one at [st_k] are rounds of the inner loop. *)
Lemma drain_rounds_fuel (n fuel : nat) (st st_k : Sys) :
  drain_rounds P n st = Some st_k ->
  drain_fuel P (n + fuel) st = drain_fuel P fuel st_k.
Proof.
  revert st. induction n as [|n IH]; intros st D; simpl in D |- *.
  - injection D as <-. reflexivity.
  - destruct (writeQueue st); [discriminate D|].
    destruct (drain_iter P st); [|discriminate D].
    apply IH. exact D.
Qed.

(** When the loop, [n] rounds in, still has commands to send, each of the
    [n] rounds has invoked its lambda and the error field is still
    clear. *)
Lemma drain_rounds_invoked (n : nat) (st st_k : Sys) :
  error_ st = Error.None -> drain_rounds P n st = Some st_k ->
  writeQueue st_k <> [] ->
  error_ st_k = Error.None /\
  List.length (invocations (trace st_k)) = (List.length (invocations (trace st)) + n)%nat.
Proof.
  revert st. induction n as [|n IH]; intros st E D NE; simpl in D.
  - injection D as <-. split; [exact E|lia].
  - destruct (writeQueue st) as [|[m f] rest] eqn:Q; [discriminate D|].
    destruct (drain_iter P st) as [st1|e st1] eqn:D1; [|discriminate D].
    destruct (drain_iter_cases st st1 m f rest E Q D1)
      as [(E1 & Q1 & _)|(r & E1 & I1 & _)].
    + destruct n; simpl in D.
      * injection D as <-. contradiction.
      * rewrite Q1 in D. discriminate D.
    + destruct (IH st1 E1 D NE) as (Ek & Lk). split; [exact Ek|].
      rewrite Lk, I1, List.length_app. simpl. lia.
Qed.

(** With the error field set the worker only sleeps. *)
Lemma process_in_error (clock : list bool) (st : Sys) :
  error_ st <> Error.None -> process P clock st = Returned st.
Proof.
  intro E. induction clock as [|due clock IH]; simpl; [reflexivity|].
  destruct (exit_ st); [reflexivity|].
  unfold process_iteration. apply Error_neqb in E. rewrite E. exact IH.
Qed.

(** The round at [st] when the exchange for the front command fails. *)
Lemma drain_iter_fails (st : Sys) (m : string) (f : Handler) (rest : list Cmd)
    (sock : Sock) :
  writeQueue st = (m, f) :: rest -> socket st = Some sock -> exchange_fails sock m ->
  exists st', drain_iter P st = Returned st' /\
              error_ st' = Error.LostConnection /\ writeQueue st' = [] /\
              invocations (trace st') = invocations (trace st) /\
              enqueued (trace st') = enqueued (trace st).
Proof.
  intros Q S [W|(W & R)].
  - rewrite (drain_iter_write_fails st m f rest sock Q S W).
    eexists. split; [reflexivity|]. simpl.
    repeat (rewrite ?invocations_app, ?enqueued_app; simpl). rewrite ?app_nil_r. auto.
  - rewrite (drain_iter_read_empty st m f rest sock Q S W R).
    eexists. split; [reflexivity|]. simpl.
    repeat (rewrite ?invocations_app, ?enqueued_app; simpl). rewrite ?app_nil_r. auto.
Qed.

(** C2.  The inner loop has answered [n] commands and is at [st_k], where
    the exchange for the front command, the [n+1]-th, fails: its write
    fails or its read returns the empty string.  Then the loop ends with
    the error field at LostConnection and an empty queue; the lambdas
    invoked are the [n] that were invoked before, so neither that of the
    failing command nor that of any command queued behind it has run; and
    the worker invokes nothing further, however long it goes on. *)
Theorem drain_lost_connection (n : nat) (st st_k : Sys) (m : string) (f : Handler)
    (rest : list Cmd) (sock : Sock) :
  error_ st = Error.None ->
  drain_rounds P n st = Some st_k ->
  writeQueue st_k = (m, f) :: rest -> socket st_k = Some sock ->
  exchange_fails sock m ->
  exists st',
    drain P st = Returned st' /\
    error_ st' = Error.LostConnection /\
    writeQueue st' = [] /\
    invocations (trace st') = invocations (trace st_k) /\
    List.length (invocations (trace st_k)) = (List.length (invocations (trace st)) + n)%nat /\
    (forall clock, process P clock st' = Returned st').
Proof.
  intros E D Q S F.
  destruct (drain_iter_fails st_k m f rest sock Q S F) as (st' & D' & E' & Q' & I' & _).
  exists st'.
  assert (NE : writeQueue st_k <> []) by (rewrite Q; discriminate).
  destruct (drain_rounds_invoked n st st_k E D NE) as (_ & L).
  split; [|repeat split; auto].
  - apply (drain_eq (n + 2)). rewrite (drain_rounds_fuel n 2 st st_k D).
    simpl. rewrite Q, D'. rewrite Q'. reflexivity.
  - intro clock. apply process_in_error. rewrite E'. discriminate.
Qed.

End Drain.

(** ** The methods one by one *)

Lemma append_assoc (a b c : string) : (a +++ b) +++ c = a +++ b +++ c.
Proof. induction a as [|x a IH]; simpl; congruence. Qed.

Lemma append_nil_r (a : string) : a +++ EmptyString = a.
Proof. induction a as [|x a IH]; simpl; congruence. Qed.

Section Facade.

Context {Sock Conn : Type} {transport : Transport Sock} {conn : Connector Conn Sock}.
Variable P : Decls.

Local Abbreviation Sys := (State Sock Conn).

(** C3.  The outcomes of the handshake in reconnect: no socket, or one
    that is not connected, gives NotConnected; an empty reply to the
    version request gives Unknown; a reply that parses to a number other
    than Protocol::Version gives DifferentVersion; one that parses to
    Protocol::Version gives None.  These are all: reconnect never returns
    with LostConnection. *)
Theorem reconnect_outcomes (st : Sys) :
  (forall c', getTransferSocket (connector st) = (None, c') ->
     exists st', reconnect P st = Returned st' /\ error_ st' = Error.NotConnected) /\
  (forall s0 c', getTransferSocket (connector st) = (Some s0, c') ->
     isConnected s0 = false ->
     exists st', reconnect P st = Returned st' /\ error_ st' = Error.NotConnected) /\
  (forall s0 c' reply, getTransferSocket (connector st) = (Some s0, c') ->
     isConnected s0 = true ->
     fst (readMessage (snd (writeMessage s0
            (Cxx.to_string (Command_int P Protocol.Command.Version))))) = reply ->
     (reply = EmptyString ->
        exists st', reconnect P st = Returned st' /\ error_ st' = Error.Unknown) /\
     (forall version, reply <> EmptyString -> Cxx.stoi reply = inr version ->
        (version <> Version P ->
           exists st', reconnect P st = Returned st' /\
                       error_ st' = Error.DifferentVersion) /\
        (version = Version P ->
           exists st', reconnect P st = Returned st' /\ error_ st' = Error.None))) /\
  (forall st', reconnect P st = Returned st' -> error_ st' <> Error.LostConnection).
Proof.
  split; [|split; [|split]].
  - intros c' G. unfold reconnect. rewrite G. eexists. split; reflexivity.
  - intros s0 c' G C. unfold reconnect. rewrite G, C. eexists. split; reflexivity.
  - intros s0 c' reply G C R. unfold reconnect. rewrite G, C. simpl negb. cbv iota.
    destruct (writeMessage s0 _) as [ok s1]. simpl in R.
    destruct (readMessage s1) as [reply' s2]. simpl in R. subst reply'.
    split.
    + intros ->. eexists. split; reflexivity.
    + intros version NE V.
      assert (L : (0 <? Z.of_nat (String.length reply)) = true).
      { destruct reply; [congruence|]. simpl String.length. apply Z.ltb_lt. lia. }
      rewrite L. unfold parsed. rewrite V. split.
      * intro D. apply Z.eqb_neq in D. rewrite D. eexists. split; reflexivity.
      * intro D. apply Z.eqb_eq in D. rewrite D. eexists. split; reflexivity.
  - intros st' D. unfold reconnect in D.
    destruct (getTransferSocket (connector st)) as [[s0|] c'].
    2:{ injection D as <-. discriminate. }
    destruct (negb (isConnected s0)); [injection D as <-; discriminate|].
    destruct (writeMessage s0 _) as [ok s1]. destruct (readMessage s1) as [reply s2].
    destruct (0 <? _); [|injection D as <-; discriminate].
    unfold parsed in D. destruct (Cxx.stoi reply) as [e|v]; [discriminate D|].
    destruct (negb _); injection D as <-; discriminate.
Qed.

Lemma addToWriteQueue_rejects (s : string) (f : Handler) (st : Sys) :
  error_ st <> Error.None -> addToWriteQueue s f st = (false, st).
Proof. intro E. unfold addToWriteQueue. apply Error_neqb in E. rewrite E. reflexivity. Qed.

Lemma addToWriteQueue_accepts (s : string) (f : Handler) (st : Sys) :
  error_ st = Error.None ->
  addToWriteQueue s f st =
  (true, log [Enqueued (s, f)] (set_writeQueue (writeQueue st ++ [(s, f)]) st)).
Proof. intro E. unfold addToWriteQueue. rewrite E. reflexivity. Qed.

(** C4.  addToWriteQueue returns false and leaves the object as it is
    when the error field is not None; when it is None it returns true
    with the pair at the back of the queue. *)
Theorem addToWriteQueue_gate (s : string) (f : Handler) (st : Sys) :
  (error_ st <> Error.None -> addToWriteQueue s f st = (false, st)) /\
  (error_ st = Error.None ->
     fst (addToWriteQueue s f st) = true /\
     writeQueue (snd (addToWriteQueue s f st)) = writeQueue st ++ [(s, f)]).
Proof.
  split; intro E.
  - apply addToWriteQueue_rejects. exact E.
  - rewrite (addToWriteQueue_accepts s f st E). simpl. auto.
Qed.

Lemma queueChanged_set (st : Sys) :
  queueChanged_ st = true -> queueChanged st = (true, set_queueChanged_ false st).
Proof. intro H. unfold queueChanged. rewrite H. reflexivity. Qed.

Lemma subQueueChanged_set (st : Sys) :
  subQueueChanged_ st = true -> subQueueChanged st = (true, set_subQueueChanged_ false st).
Proof. intro H. unfold subQueueChanged. rewrite H. reflexivity. Qed.

(** C5.  queueChanged and subQueueChanged read and clear.  Once the
    lambda of sendGetQueue (of sendGetSubQueue) has run and set the flag,
    the first call returns true and resets it and the next call returns
    false; the same holds from any state with the flag set; with the flag
    unset the call returns false and changes nothing. *)
Theorem changed_read_and_clear (st : Sys) (s : string) :
  (exists st1, run_handler P cb_sendGetQueue s st = Returned st1 /\
     fst (queueChanged st1) = true /\
     queueChanged (snd (queueChanged st1)) = (false, snd (queueChanged st1))) /\
  (exists st1, run_handler P cb_sendGetSubQueue s st = Returned st1 /\
     fst (subQueueChanged st1) = true /\
     subQueueChanged (snd (subQueueChanged st1)) = (false, snd (subQueueChanged st1))) /\
  (queueChanged_ st = true ->
     fst (queueChanged st) = true /\
     queueChanged_ (snd (queueChanged st)) = false /\
     queueChanged (snd (queueChanged st)) = (false, snd (queueChanged st))) /\
  (subQueueChanged_ st = true ->
     fst (subQueueChanged st) = true /\
     subQueueChanged_ (snd (subQueueChanged st)) = false /\
     subQueueChanged (snd (subQueueChanged st)) = (false, snd (subQueueChanged st))) /\
  (queueChanged_ st = false -> queueChanged st = (false, st)) /\
  (subQueueChanged_ st = false -> subQueueChanged st = (false, st)).
Proof.
  split; [|split; [|split; [|split; [|split]]]].
  - eexists. split; [reflexivity|]. split; reflexivity.
  - eexists. split; [reflexivity|]. split; reflexivity.
  - intro H. rewrite (queueChanged_set st H). simpl. auto.
  - intro H. rewrite (subQueueChanged_set st H). simpl. auto.
  - intro H. unfold queueChanged. rewrite H. reflexivity.
  - intro H. unfold subQueueChanged. rewrite H. reflexivity.
Qed.

(** A round of the worker whose lambda returns, the error field being
    clear: the command is popped and the round is over. *)
Lemma drain_iter_returns (st st3 : Sys) (m : string) (f : Handler) (rest : list Cmd)
    (sock : Sock) :
  writeQueue st = (m, f) :: rest -> socket st = Some sock ->
  fst (writeMessage sock m) = true ->
  fst (readMessage (snd (writeMessage sock m))) <> EmptyString ->
  error_ st = Error.None ->
  run_handler P f (fst (readMessage (snd (writeMessage sock m))))
    (at_invocation st m f sock) = Returned st3 ->
  drain_iter P st = Returned (set_writeQueue (tl (writeQueue st3)) st3).
Proof.
  intros Q S W R E H.
  rewrite (drain_iter_answered P st m f rest sock Q S W R), H.
  pose proof (run_handler_pushes P f (fst (readMessage (snd (writeMessage sock m))))
                (at_invocation st m f sock)) as Hp.
  rewrite H in Hp. destruct Hp as (_ & _ & E3 & _). simpl in E3.
  cbv zeta. simpl error_. rewrite E3, E. reflexivity.
Qed.

(** C6.  In a round of the worker (error field clear) whose front command
    is the one pushed by sendGetQueueSize and whose exchange brings a
    reply that parses to [tmp]: the cached size becomes [tmp]; when [tmp]
    differs from the size cached before, one request for the queue with
    bounds 0 and 25000 is pushed, and nothing else; when it is the same,
    nothing is pushed.  Likewise for sendGetSubQueueSize, with one request
    for the sub-queue with bounds 0 and 5000. *)
Theorem size_change_follow_up (st : Sys) (m : string) (rest : list Cmd) (sock : Sock)
    (s : string) (tmp : Z) :
  error_ st = Error.None -> socket st = Some sock ->
  fst (writeMessage sock m) = true ->
  fst (readMessage (snd (writeMessage sock m))) = s -> s <> EmptyString ->
  Cxx.stoul s = inr tmp ->
  (writeQueue st = (m, cb_sendGetQueueSize) :: rest ->
   exists st', drain_iter P st = Returned st' /\ queueSize_ st' = tmp /\
     (tmp <> queueSize_ st ->
        writeQueue st' = rest ++ [getQueue_request P] /\
        enqueued (trace st') = enqueued (trace st) ++ [getQueue_request P]) /\
     (tmp = queueSize_ st ->
        writeQueue st' = rest /\ enqueued (trace st') = enqueued (trace st))) /\
  (writeQueue st = (m, cb_sendGetSubQueueSize) :: rest ->
   exists st', drain_iter P st = Returned st' /\ subQueueSize_ st' = tmp /\
     (tmp <> subQueueSize_ st ->
        writeQueue st' = rest ++ [getSubQueue_request P] /\
        enqueued (trace st') = enqueued (trace st) ++ [getSubQueue_request P]) /\
     (tmp = subQueueSize_ st ->
        writeQueue st' = rest /\ enqueued (trace st') = enqueued (trace st))).
Proof.
  intros E S W R NE V.
  assert (R' : fst (readMessage (snd (writeMessage sock m))) <> EmptyString)
    by congruence.
  split; intro Q.
  - assert (H : exists st3,
               run_handler P cb_sendGetQueueSize
                 (fst (readMessage (snd (writeMessage sock m))))
                 (at_invocation st m cb_sendGetQueueSize sock) = Returned st3 /\
               queueSize_ st3 = tmp).
    { rewrite R. cbn [run_handler]. unfold parsed. rewrite V.
      eexists. split; reflexivity. }
    destruct H as (st3 & H & Z3).
    pose proof (drain_iter_returns st st3 m _ rest sock Q S W R' E H) as D.
    eexists. split; [exact D|]. split; [exact Z3|].
    destruct (drain_iter_answered_returned P st _ m _ rest sock Q S W R' E D)
      as (Q' & T' & _).
    rewrite R in Q', T'. cbn [pushed_by] in Q', T'. rewrite V in Q', T'.
    rewrite Q', T', enqueued_app.
    change (?a :: ?b :: ?c :: ?d) with ([a; b; c] ++ d).
    rewrite enqueued_app, enqueued_pushed. simpl enqueued at 2. simpl app at 3 5.
    unfold accepted. rewrite E. simpl Error.eqb. cbv iota.
    split; intro C.
    + assert (C' : (queueSize_ st =? tmp) = false) by (apply Z.eqb_neq; congruence).
      rewrite C'. auto.
    + assert (C' : (queueSize_ st =? tmp) = true) by (apply Z.eqb_eq; congruence).
      rewrite C', !app_nil_r. auto.
  - assert (H : exists st3,
               run_handler P cb_sendGetSubQueueSize
                 (fst (readMessage (snd (writeMessage sock m))))
                 (at_invocation st m cb_sendGetSubQueueSize sock) = Returned st3 /\
               subQueueSize_ st3 = tmp).
    { rewrite R. cbn [run_handler]. unfold parsed. rewrite V.
      eexists. split; reflexivity. }
    destruct H as (st3 & H & Z3).
    pose proof (drain_iter_returns st st3 m _ rest sock Q S W R' E H) as D.
    eexists. split; [exact D|]. split; [exact Z3|].
    destruct (drain_iter_answered_returned P st _ m _ rest sock Q S W R' E D)
      as (Q' & T' & _).
    rewrite R in Q', T'. cbn [pushed_by] in Q', T'. rewrite V in Q', T'.
    rewrite Q', T', enqueued_app.
    change (?a :: ?b :: ?c :: ?d) with ([a; b; c] ++ d).
    rewrite enqueued_app, enqueued_pushed. simpl enqueued at 2. simpl app at 3 5.
    unfold accepted. rewrite E. simpl Error.eqb. cbv iota.
    split; intro C.
    + assert (C' : (subQueueSize_ st =? tmp) = false) by (apply Z.eqb_neq; congruence).
      rewrite C'. auto.
    + assert (C' : (subQueueSize_ st =? tmp) = true) by (apply Z.eqb_eq; congruence).
      rewrite C', !app_nil_r. auto.
Qed.

(** The wait loop goes round while the flag is unset and the error field
    is clear at every wake-up. *)
Lemma wait_loop_skip (done : nat) (view : nat -> Sys) (n fuel t0 : nat) :
  (forall i, (i < n)%nat -> done_flags (view (t0 + i)%nat) done = false) ->
  (forall i, (1 <= i <= n)%nat -> error_ (view (t0 + i)%nat) = Error.None) ->
  wait_loop done view (n + fuel) t0 = wait_loop done view fuel (t0 + n)%nat.
Proof.
  revert t0. induction n as [|n IH]; intros t0 Hd He.
  - simpl. rewrite Nat.add_0_r. reflexivity.
  - simpl. specialize (Hd O ltac:(lia)) as Hd0. rewrite Nat.add_0_r in Hd0.
    rewrite Hd0.
    specialize (He 1%nat ltac:(lia)) as He1. rewrite Nat.add_1_r in He1.
    rewrite He1. simpl.
    rewrite IH.
    + f_equal. lia.
    + intros i Hi. replace (S t0 + i)%nat with (t0 + S i)%nat by lia. apply Hd. lia.
    + intros i Hi. replace (S t0 + i)%nat with (t0 + S i)%nat by lia. apply He. lia.
Qed.

(** A wait call made while the error field is set pushes nothing: its
    lambda will never run and its flag stays unset. *)
Lemma wait_push_rejected (done : nat) (st : Sys) :
  error_ st <> Error.None ->
  waitRequestDBLock_push P done st = put_done done false st /\
  waitReset_push P done st = put_done done false st /\
  waitSongIdx_push P done st = put_done done false st /\
  done_flags (put_done done false st) done = false.
Proof.
  intro E.
  unfold waitRequestDBLock_push, waitReset_push, waitSongIdx_push, enqueue.
  rewrite !addToWriteQueue_rejects by exact E.
  repeat split. simpl. rewrite Nat.eqb_refl. reflexivity.
Qed.

(** C7, amended.  It is the error field as the caller reads it at a
    wake-up that ends a wait call.  A call has gone round its loop [n]
    times since wake-up [t0], finding its flag unset and, after each
    sleep, the error field clear; it finds the flag unset once more,
    sleeps, and at the next wake-up, [t0 + n + 1], finds the error field
    set.  Then it returns at that wake-up, one polling interval after it
    last looked: waitRequestDBLock and waitReset return false and
    waitSongIdx returns the largest size_t.  With [n = 0] the error field
    is set already at the first look. *)
Theorem wait_returns_on_error (done : nat) (view : nat -> Sys) (n t0 fuel : nat) :
  (forall i, (i <= n)%nat -> done_flags (view (t0 + i)%nat) done = false) ->
  (forall i, (1 <= i <= n)%nat -> error_ (view (t0 + i)%nat) = Error.None) ->
  error_ (view (t0 + S n)%nat) <> Error.None ->
  (n < fuel)%nat ->
  wait_loop done view fuel t0 = Some (false, (t0 + S n)%nat) /\
  waitRequestDBLock done view fuel t0 = Some false /\
  waitReset done view fuel t0 = Some false /\
  waitSongIdx done view fuel t0 = Some Cxx.SIZE_MAX.
Proof.
  intros Hd He Herr Hf.
  assert (L : wait_loop done view fuel t0 = Some (false, (t0 + S n)%nat)).
  { replace fuel with (n + S (fuel - S n))%nat by lia.
    rewrite wait_loop_skip; [|intros i Hi; apply Hd; lia|exact He].
    simpl. rewrite (Hd n (Nat.le_refl n)).
    apply Error_neqb in Herr. rewrite <- Nat.add_succ_r. rewrite Herr. reflexivity. }
  unfold waitRequestDBLock, waitReset, waitSongIdx. rewrite L. auto.
Qed.

(** C8, amended.  While the error field is not None the worker does
    nothing to the object, however many rounds it goes, so it does no
    socket traffic and leaves the queue as it is; and addToWriteQueue
    turns every command down, so nothing accumulates.  When an exchange
    of the worker fails, the round sets LostConnection and clears the
    queue at once, with no lambda invoked. *)
Theorem error_state_behaviour :
  (forall st : Sys, error_ st <> Error.None ->
     (forall clock, process P clock st = Returned st) /\
     (forall due, process_iteration P due st = Returned st) /\
     (forall s f, addToWriteQueue s f st = (false, st))) /\
  (forall (st : Sys) m f rest sock,
     writeQueue st = (m, f) :: rest -> socket st = Some sock -> exchange_fails sock m ->
     exists st', drain_iter P st = Returned st' /\
                 error_ st' = Error.LostConnection /\ writeQueue st' = [] /\
                 invocations (trace st') = invocations (trace st)).
Proof.
  split.
  - intros st E. split; [|split].
    + intro clock. apply process_in_error. exact E.
    + intro due. unfold process_iteration. apply Error_neqb in E. rewrite E. reflexivity.
    + intros s f. apply addToWriteQueue_rejects. exact E.
  - intros st m f rest sock Q S F.
    destruct (drain_iter_fails P st m f rest sock Q S F) as (st' & D & E & Q' & I & _).
    exists st'. auto.
Qed.

(** C9.  sendSetVolume(42.0) hands addToWriteQueue the SetVolume opcode,
    the delimiter and "42.000000", which is pushed when the error field
    is clear; its lambda stores in volume_ whatever the reply parses to:
    42.0 for "42.000000", and 50.0 for "50.000000" although 42.0 was
    asked for; in general the value stored is that of the reply, whatever
    was requested. *)
Theorem sendSetVolume_scenario (st : Sys) :
  let request :=
    Cxx.to_string (Command_int P Protocol.Command.SetVolume) +++ DELIM P +++ "42.000000" in
  let st1 := sendSetVolume P (Cxx.double_of_Z 42) st in
  st1 = snd (addToWriteQueue request cb_sendSetVolume st) /\
  (error_ st = Error.None -> writeQueue st1 = writeQueue st ++ [(request, cb_sendSetVolume)]) /\
  (exists st2, run_handler P cb_sendSetVolume "42.000000" st1 = Returned st2 /\
               volume_ st2 = Cxx.double_of_Z 42) /\
  (exists st2, run_handler P cb_sendSetVolume "50.000000" st1 = Returned st2 /\
               volume_ st2 = Cxx.double_of_Z 50) /\
  (forall requested reply v, Cxx.stod reply = inr v ->
     exists st2,
       run_handler P cb_sendSetVolume reply (sendSetVolume P requested st) = Returned st2 /\
       volume_ st2 = v).
Proof.
  cbv zeta. split; [reflexivity|]. split; [|split; [|split]].
  - intro E. unfold sendSetVolume, enqueue.
    rewrite (addToWriteQueue_accepts _ _ st E). reflexivity.
  - eexists. split; reflexivity.
  - eexists. split; reflexivity.
  - intros requested reply v V. cbn [run_handler]. unfold parsed. rewrite V.
    eexists. split; reflexivity.
Qed.

Lemma sendSetQueue_loop_unlimited (limit i : Z) (q : list Z) (seq : string) :
  sendSetQueue_loop P false limit i q seq = seq +++ serialize_ids P q.
Proof.
  revert i seq. induction q as [|x q IH]; intros i seq; simpl.
  - rewrite append_nil_r. reflexivity.
  - rewrite IH, !append_assoc. reflexivity.
Qed.

Lemma sendSetQueue_loop_limited (limit i : Z) (q : list Z) (seq : string) :
  0 <= i ->
  sendSetQueue_loop P true limit i q seq
  = seq +++ serialize_ids P (firstn (Z.to_nat (limit - i)) q).
Proof.
  revert i seq. induction q as [|x q IH]; intros i seq Hi; simpl.
  - rewrite firstn_nil. simpl. rewrite append_nil_r. reflexivity.
  - destruct (limit <=? i) eqn:L.
    + apply Z.leb_le in L. replace (Z.to_nat (limit - i)) with O by lia.
      simpl. rewrite append_nil_r. reflexivity.
    + apply Z.leb_gt in L.
      replace (Z.to_nat (limit - i)) with (S (Z.to_nat (limit - (i + 1)))) by lia.
      rewrite IH by lia. simpl. rewrite !append_assoc. reflexivity.
Qed.

Lemma enqueue_keeps_limit (s : string) (f : Handler) (st : Sys) :
  limit_ (enqueue s f st) = limit_ st.
Proof. unfold enqueue, addToWriteQueue. destruct (negb _); reflexivity. Qed.

Lemma reconnect_keeps_limit (st : Sys) :
  match reconnect P st with
  | Returned st' | Aborted _ st' => limit_ st' = limit_ st
  end.
Proof.
  unfold reconnect. destruct (getTransferSocket (connector st)) as [[s0|] c'];
    [|reflexivity].
  destruct (negb (isConnected s0)); [reflexivity|].
  destruct (writeMessage s0 _) as [ok s1]. destruct (readMessage s1) as [reply s2].
  destruct (0 <? _); [|reflexivity].
  unfold parsed. destruct (Cxx.stoi reply) as [e|v]; [reflexivity|].
  destruct (negb _); reflexivity.
Qed.

(** C10.  sendSetQueue leaves the object alone when the list is empty or
    the limit is 0.  Otherwise it hands addToWriteQueue the SetQueue
    opcode followed by the entries it sends, each after a delimiter, with
    a lambda that holds the size of the whole list.  Under a limit that
    is not negative the entries sent are the first [limit] of the list,
    no more than [limit] of them; under a negative limit, which is what
    the constructor sets, they are the whole list in order. *)
Theorem sendSetQueue_limit (limit : Z) (q : list Z) (st : Sys) :
  let st1 := setQueueLimit limit st in
  let request :=
    Cxx.to_string (Command_int P Protocol.Command.SetQueue)
      +++ serialize_ids P (entries_sent limit q) in
  (q = [] \/ limit = 0 -> sendSetQueue P q st1 = st1) /\
  (q <> [] -> limit <> 0 ->
     sendSetQueue P q st1 =
     snd (addToWriteQueue request (cb_sendSetQueue (Z.of_nat (List.length q))) st1)) /\
  (q <> [] -> limit <> 0 -> error_ st = Error.None ->
     writeQueue (sendSetQueue P q st1) =
     writeQueue st ++ [(request, cb_sendSetQueue (Z.of_nat (List.length q)))]) /\
  (0 <= limit ->
     entries_sent limit q = firstn (Z.to_nat limit) q /\
     Z.of_nat (List.length (entries_sent limit q)) <= limit) /\
  (limit < 0 -> entries_sent limit q = q) /\
  (forall c z st0, Sysmodule_new P c z = Returned st0 -> limit_ st0 = -1).
Proof.
  cbv zeta.
  assert (Sent : q <> [] -> limit <> 0 ->
     sendSetQueue P q (setQueueLimit limit st) =
     snd (addToWriteQueue
            (Cxx.to_string (Command_int P Protocol.Command.SetQueue)
               +++ serialize_ids P (entries_sent limit q))
            (cb_sendSetQueue (Z.of_nat (List.length q))) (setQueueLimit limit st))).
  { intros NE L. unfold sendSetQueue. simpl limit_.
    destruct q as [|x q']; [congruence|].
    replace (Z.of_nat (List.length (x :: q')) =? 0) with false
      by (symmetry; apply Z.eqb_neq; simpl List.length; lia).
    apply Z.eqb_neq in L. rewrite L. simpl orb. cbv iota.
    unfold enqueue, entries_sent. do 3 f_equal.
    destruct (0 <=? limit) eqn:H.
    - rewrite sendSetQueue_loop_limited by lia. rewrite Z.sub_0_r. reflexivity.
    - rewrite sendSetQueue_loop_unlimited. reflexivity. }
  split; [|split; [exact Sent|split; [|split; [|split]]]].
  - intros [-> | ->]; unfold sendSetQueue.
    + reflexivity.
    + simpl limit_. rewrite orb_true_r. reflexivity.
  - intros NE L E. rewrite (Sent NE L).
    rewrite addToWriteQueue_accepts by exact E. reflexivity.
  - intro H. unfold entries_sent.
    replace (0 <=? limit) with true by (symmetry; apply Z.leb_le; exact H).
    split; [reflexivity|]. rewrite length_firstn. lia.
  - intro H. unfold entries_sent.
    replace (0 <=? limit) with false by (symmetry; apply Z.leb_gt; exact H).
    reflexivity.
  - intros c z st0 N. unfold Sysmodule_new in N.
    match type of N with
    | match reconnect P ?s with _ => _ end = _ =>
        pose proof (reconnect_keeps_limit s) as K; destruct (reconnect P s) as [st1|e st1]
    end; [|discriminate N].
    injection N as <-. simpl in K. unfold sendGetSubQueue, sendGetQueue.
    rewrite !enqueue_keeps_limit. exact K.
Qed.

End Facade.
(** ** The properties on sample objects *)

Lemma Constant_always_answers (c : Constant) :
  answer c <> EmptyString -> always_answers c.
Proof.
  intro H. exists (fun s => answer s <> EmptyString). split; [exact H|].
  intros s G. simpl. auto.
Qed.

Lemma sample_polling_answering : answering sample_polling.
Proof.
  exists (service "3"). split; [reflexivity|].
  apply Constant_always_answers. discriminate.
Defined.

Lemma sample_garbled_answering : answering sample_garbled.
Proof.
  exists (service "x"). split; [reflexivity|].
  apply Constant_always_answers. discriminate.
Defined.

(** [process_fifo] on [sample_polling], for one round without a poll. *)
Lemma process_fifo_witness :
  answering sample_polling /\
  error_ sample_polling = Error.None /\
  exists evs,
    trace (state_of (process sample_decls [false] sample_polling))
    = trace sample_polling ++ evs /\
    map fst (invocations evs)
      ++ writeQueue (state_of (process sample_decls [false] sample_polling))
    = writeQueue sample_polling ++ enqueued evs /\
    io evs = flat_map exchange (invocations evs) /\
    Forall (fun cr => snd cr <> EmptyString) (invocations evs) /\
    (exit_ sample_polling = false -> last [false] true = false ->
     writeQueue (state_of (process sample_decls [false] sample_polling)) = []).
Proof.
  split; [exact sample_polling_answering|]. split; [reflexivity|].
  apply (process_fifo sample_decls [false] sample_polling
           (state_of (process sample_decls [false] sample_polling))).
  - exact sample_polling_answering.
  - reflexivity.
  - vm_compute. reflexivity.
Defined.

(** The run behind that witness: three lambdas invoked, the third being
    the follow-up that the second pushed. *)
Example process_fifo_run :
  map fst (invocations (trace (state_of (process sample_decls [false] sample_polling))))
  = [("11"%string, cb_sendGetQueueSize); ("24"%string, cb_sendGetSong);
     getQueue_request sample_decls].
Proof. vm_compute. reflexivity. Qed.

(** C1 as stated fails.  The service answers every request with the
    non-empty reply "x" and every write succeeds; two commands are
    pending.  The lambda of the first is invoked, std::stod throws on
    "x", process is left by the exception, and the lambda of the second
    command is never invoked. *)
Lemma process_fifo_counterexample :
  answering sample_garbled /\
  error_ sample_garbled = Error.None /\
  writeQueue sample_garbled
  = [("5"%string, cb_sendGetVolume); ("24"%string, cb_sendGetSong)] /\
  (exists st', process sample_decls [false] sample_garbled = Aborted InvalidArgument st' /\
     map fst (invocations (trace st')) = [("5"%string, cb_sendGetVolume)]) /\
  ~ (exists st' evs,
       process sample_decls [false] sample_garbled = Returned st' /\
       trace st' = trace sample_garbled ++ evs /\
       map fst (invocations evs) = writeQueue sample_garbled).
Proof.
  split; [exact sample_garbled_answering|]. split; [reflexivity|].
  split; [reflexivity|]. split.
  - eexists. split; vm_compute; reflexivity.
  - intros (st' & evs & D & _). vm_compute in D. discriminate D.
Qed.

(** [drain_lost_connection] on [sample_breaking]: the first command is
    answered, the write of the second fails. *)
Lemma drain_lost_connection_witness :
  error_ sample_breaking = Error.None /\
  drain_rounds sample_decls 1 sample_breaking = Some sample_broken /\
  writeQueue sample_broken
  = ("24"%string, cb_sendGetSong) :: [("4"%string, cb_sendNext)] /\
  socket sample_broken
  = Some {| connected := true; writes := [false]; reads := [] |} /\
  exchange_fails {| connected := true; writes := [false]; reads := [] |} "24" /\
  exists st',
    drain sample_decls sample_breaking = Returned st' /\
    error_ st' = Error.LostConnection /\
    writeQueue st' = [] /\
    invocations (trace st') = invocations (trace sample_broken) /\
    List.length (invocations (trace sample_broken))
    = (List.length (invocations (trace sample_breaking)) + 1)%nat /\
    (forall clock, process sample_decls clock st' = Returned st').
Proof.
  split; [reflexivity|]. split; [vm_compute; reflexivity|].
  split; [vm_compute; reflexivity|]. split; [vm_compute; reflexivity|].
  split; [left; reflexivity|].
  apply (drain_lost_connection sample_decls 1 sample_breaking sample_broken
           "24" cb_sendGetSong [("4"%string, cb_sendNext)]
           {| connected := true; writes := [false]; reads := [] |}).
  - reflexivity.
  - vm_compute. reflexivity.
  - vm_compute. reflexivity.
  - vm_compute. reflexivity.
  - left. reflexivity.
Defined.

(** The run behind that witness. *)
Example drain_lost_connection_run :
  invocations (trace (state_of (drain sample_decls sample_breaking)))
  = [(("1"%string, cb_sendResume), "1"%string)] /\
  enqueued (trace (state_of (drain sample_decls sample_breaking)))
  = [("1"%string, cb_sendResume); ("24"%string, cb_sendGetSong);
     ("4"%string, cb_sendNext)] /\
  writeQueue (state_of (drain sample_decls sample_breaking)) = [].
Proof. vm_compute. auto. Qed.

(** [reconnect_outcomes] on sample connectors, one per outcome. *)
Lemma reconnect_outcomes_witness :
  (exists st', reconnect sample_decls (sample_reconnecting []) = Returned st' /\
               error_ st' = Error.NotConnected) /\
  (exists st', reconnect sample_decls
                 (sample_reconnecting
                    [Some {| connected := false; writes := []; reads := [] |}])
               = Returned st' /\
               error_ st' = Error.NotConnected) /\
  (exists st', reconnect sample_decls
                 (sample_reconnecting [Some (sample_versioned [])]) = Returned st' /\
               error_ st' = Error.Unknown) /\
  (exists st', reconnect sample_decls
                 (sample_reconnecting [Some (sample_versioned ["2"%string])])
               = Returned st' /\
               error_ st' = Error.DifferentVersion) /\
  (exists st', reconnect sample_decls
                 (sample_reconnecting [Some (sample_versioned ["3"%string])])
               = Returned st' /\
               error_ st' = Error.None).
Proof.
  split; [|split; [|split; [|split]]].
  - destruct (reconnect_outcomes sample_decls (sample_reconnecting [])) as (H & _).
    apply (H []). reflexivity.
  - destruct (reconnect_outcomes sample_decls
                (sample_reconnecting
                   [Some {| connected := false; writes := []; reads := [] |}]))
      as (_ & H & _).
    apply (H {| connected := false; writes := []; reads := [] |} []); reflexivity.
  - destruct (reconnect_outcomes sample_decls
                (sample_reconnecting [Some (sample_versioned [])])) as (_ & _ & H & _).
    destruct (H (sample_versioned []) [] EmptyString) as (H1 & _);
      try reflexivity.
    apply H1. reflexivity.
  - destruct (reconnect_outcomes sample_decls
                (sample_reconnecting [Some (sample_versioned ["2"%string])]))
      as (_ & _ & H & _).
    destruct (H (sample_versioned ["2"%string]) [] "2"%string) as (_ & H2);
      try reflexivity.
    destruct (H2 2) as (H3 & _); [discriminate|reflexivity|].
    apply H3. discriminate.
  - destruct (reconnect_outcomes sample_decls
                (sample_reconnecting [Some (sample_versioned ["3"%string])]))
      as (_ & _ & H & _).
    destruct (H (sample_versioned ["3"%string]) [] "3"%string) as (_ & H2);
      try reflexivity.
    destruct (H2 3) as (_ & H3); [discriminate|reflexivity|].
    apply H3. reflexivity.
Defined.

(** [addToWriteQueue_gate] on an object that is down and on one that is
    up. *)
Lemma addToWriteQueue_gate_witness :
  (error_ sample_down <> Error.None /\
   addToWriteQueue "1" cb_sendResume sample_down = (false, sample_down)) /\
  (error_ sample_up = Error.None /\
   fst (addToWriteQueue "1" cb_sendResume sample_up) = true /\
   writeQueue (snd (addToWriteQueue "1" cb_sendResume sample_up))
   = writeQueue sample_up ++ [("1"%string, cb_sendResume)]).
Proof.
  split.
  - split; [discriminate|].
    apply (proj1 (addToWriteQueue_gate "1" cb_sendResume sample_down)). discriminate.
  - split; [reflexivity|].
    apply (proj2 (addToWriteQueue_gate "1" cb_sendResume sample_up)). reflexivity.
Defined.

(** [changed_read_and_clear] on a connected object and the reply
    "10", delimiter, "20". *)
Lemma changed_read_and_clear_witness :
  (exists st1,
     run_handler sample_decls cb_sendGetQueue ("10" +++ String "028" "20") sample_up
     = Returned st1 /\
     queue_ st1 = [10; 20] /\
     fst (queueChanged st1) = true /\
     queueChanged (snd (queueChanged st1)) = (false, snd (queueChanged st1))) /\
  (queueChanged_ sample_up = false /\ queueChanged sample_up = (false, sample_up)).
Proof.
  destruct (changed_read_and_clear sample_decls sample_up ("10" +++ String "028" "20"))
    as ((st1 & R & C1 & C2) & _ & _ & _ & U & _).
  split.
  - exists st1. split; [exact R|]. split; [|split; [exact C1|exact C2]].
    vm_compute in R. injection R as <-. reflexivity.
  - split; [reflexivity|]. apply U. reflexivity.
Defined.

(** [size_change_follow_up] on [sample_polling]: the cached size is 0, the
    reply is "3". *)
Lemma size_change_follow_up_witness :
  error_ sample_polling = Error.None /\
  socket sample_polling = Some (service "3") /\
  fst (writeMessage (service "3") "11") = true /\
  fst (readMessage (snd (writeMessage (service "3") "11"))) = "3"%string /\
  "3"%string <> EmptyString /\
  Cxx.stoul "3" = inr 3 /\
  writeQueue sample_polling
  = ("11"%string, cb_sendGetQueueSize) :: [("24"%string, cb_sendGetSong)] /\
  exists st', drain_iter sample_decls sample_polling = Returned st' /\
    queueSize_ st' = 3 /\
    (3 <> queueSize_ sample_polling ->
       writeQueue st' = [("24"%string, cb_sendGetSong)] ++ [getQueue_request sample_decls] /\
       enqueued (trace st')
       = enqueued (trace sample_polling) ++ [getQueue_request sample_decls]) /\
    (3 = queueSize_ sample_polling ->
       writeQueue st' = [("24"%string, cb_sendGetSong)] /\
       enqueued (trace st') = enqueued (trace sample_polling)).
Proof.
  split; [reflexivity|]. split; [reflexivity|]. split; [reflexivity|].
  split; [reflexivity|]. split; [discriminate|]. split; [reflexivity|].
  split; [reflexivity|].
  destruct (size_change_follow_up sample_decls sample_polling "11"
              [("24"%string, cb_sendGetSong)] (service "3") "3" 3) as (H & _);
    try reflexivity; [discriminate|].
  apply H. reflexivity.
Defined.

Lemma sample_view_flags (t : nat) : done_flags (sample_view t) 0%nat = false.
Proof. unfold sample_view. destruct (Nat.ltb t 3); reflexivity. Defined.

(** [wait_returns_on_error] on [sample_view]: two rounds of waiting, the
    error seen at the third wake-up. *)
Lemma wait_returns_on_error_witness :
  (forall i, (i <= 2)%nat -> done_flags (sample_view (0 + i)%nat) 0%nat = false) /\
  (forall i, (1 <= i <= 2)%nat -> error_ (sample_view (0 + i)%nat) = Error.None) /\
  error_ (sample_view (0 + 3)%nat) <> Error.None /\
  (2 < 5)%nat /\
  wait_loop 0 sample_view 5 0 = Some (false, (0 + 3)%nat) /\
  waitRequestDBLock 0 sample_view 5 0 = Some false /\
  waitReset 0 sample_view 5 0 = Some false /\
  waitSongIdx 0 sample_view 5 0 = Some Cxx.SIZE_MAX.
Proof.
  assert (Hd : forall i, (i <= 2)%nat -> done_flags (sample_view (0 + i)%nat) 0%nat = false)
    by (intros i _; apply sample_view_flags).
  assert (He : forall i, (1 <= i <= 2)%nat -> error_ (sample_view (0 + i)%nat) = Error.None).
  { intros i Hi. destruct i as [|[|[|i]]]; try reflexivity; lia. }
  assert (Hx : error_ (sample_view (0 + 3)%nat) <> Error.None) by discriminate.
  split; [exact Hd|]. split; [exact He|]. split; [exact Hx|]. split; [lia|].
  apply (wait_returns_on_error 0 sample_view 2 0 5 Hd He Hx). lia.
Defined.

(** [error_state_behaviour] on an object that is down, and on
    [sample_broken], whose next write fails. *)
Lemma error_state_behaviour_witness :
  (error_ sample_down <> Error.None /\
   process sample_decls [true; false] sample_down = Returned sample_down /\
   addToWriteQueue "1" cb_sendResume sample_down = (false, sample_down)) /\
  (exists st', drain_iter sample_decls sample_broken = Returned st' /\
               error_ st' = Error.LostConnection /\ writeQueue st' = [] /\
               invocations (trace st') = invocations (trace sample_broken)).
Proof.
  split.
  - assert (E : error_ sample_down <> Error.None) by discriminate.
    destruct (proj1 (error_state_behaviour sample_decls) sample_down E) as (H1 & _ & H3).
    split; [exact E|]. split; [apply H1|apply H3].
  - apply (proj2 (error_state_behaviour sample_decls) sample_broken
             "24"%string cb_sendGetSong [("4"%string, cb_sendNext)]
             {| connected := true; writes := [false]; reads := [] |}).
    + vm_compute. reflexivity.
    + vm_compute. reflexivity.
    + left. reflexivity.
Defined.

(** C8 as stated fails.  The object is down; a producer calls sendResume;
    addToWriteQueue answers false and the queue stays empty: the command
    has not accumulated in it. *)
Lemma error_state_counterexample :
  error_ sample_down <> Error.None /\
  addToWriteQueue "1" cb_sendResume sample_down = (false, sample_down) /\
  writeQueue (sendResume sample_decls sample_down) = [] /\
  writeQueue (sendResume sample_decls sample_down)
  <> writeQueue sample_down ++ [("1"%string, cb_sendResume)].
Proof.
  split; [discriminate|]. split; [reflexivity|]. split; [reflexivity|].
  vm_compute. discriminate.
Qed.

(** terminate sets LostConnection and leaves the queue as it is: a
    command pending then is still pending after a reconnection, and the
    worker invokes its lambda on the new connection. *)
Example terminate_keeps_pending :
  error_ sample_terminated = Error.LostConnection /\
  writeQueue sample_terminated = [("1"%string, cb_sendResume)] /\
  invocations (trace sample_terminated) = [] /\
  error_ (state_of (reconnect sample_decls sample_terminated)) = Error.None /\
  invocations (trace (state_of (process sample_decls [false]
                                  (state_of (reconnect sample_decls sample_terminated)))))
  = [(("1"%string, cb_sendResume), "3"%string)].
Proof. vm_compute. auto. Qed.

(** [sendSetVolume_scenario] on a connected object. *)
Lemma sendSetVolume_scenario_witness :
  error_ sample_up = Error.None /\
  writeQueue (sendSetVolume sample_decls (Cxx.double_of_Z 42) sample_up)
  = [("6" +++ String "028" "42.000000", cb_sendSetVolume)] /\
  (exists st2,
     run_handler sample_decls cb_sendSetVolume "50.000000"
       (sendSetVolume sample_decls (Cxx.double_of_Z 42) sample_up) = Returned st2 /\
     volume_ st2 = Cxx.double_of_Z 50).
Proof.
  destruct (sendSetVolume_scenario sample_decls sample_up) as (_ & Q & _ & H50 & _).
  split; [reflexivity|]. split; [apply Q; reflexivity|exact H50].
Defined.

(** [sendSetQueue_limit] on five songs under the limits 2, 0 and -1. *)
Lemma sendSetQueue_limit_witness :
  writeQueue (sendSetQueue sample_decls [7; 8; 9; 10; 11] (setQueueLimit 2 sample_up))
  = [("14" +++ String "028" "7" +++ String "028" "8", cb_sendSetQueue 5)] /\
  sendSetQueue sample_decls [7; 8; 9; 10; 11] (setQueueLimit 0 sample_up)
  = setQueueLimit 0 sample_up /\
  writeQueue (sendSetQueue sample_decls [7; 8; 9] (setQueueLimit (-1) sample_up))
  = [("14" +++ String "028" "7" +++ String "028" "8" +++ String "028" "9",
      cb_sendSetQueue 3)].
Proof.
  split; [|split].
  - destruct (sendSetQueue_limit sample_decls 2 [7; 8; 9; 10; 11] sample_up)
      as (_ & _ & H & _).
    apply H; [discriminate|discriminate|reflexivity].
  - destruct (sendSetQueue_limit sample_decls 0 [7; 8; 9; 10; 11] sample_up) as (H & _).
    apply H. right. reflexivity.
  - destruct (sendSetQueue_limit sample_decls (-1) [7; 8; 9] sample_up)
      as (_ & _ & H & _).
    apply H; [discriminate|discriminate|reflexivity].
Defined.

(** * Further properties *)

(** ** Printing and parsing integers *)

Lemma take_digits_uint (d : Decimal.uint) (acc : Z) (n : nat) (rest : string) :
  no_digit_ahead rest ->
  Cxx.take_digits acc n (NilEmpty.string_of_uint d +++ rest)
  = (uint_val acc d, (n + Decimal.nb_digits d)%nat, rest).
Proof.
  intro H. revert acc n.
  induction d; intros acc n; simpl NilEmpty.string_of_uint; simpl String.append;
    try (cbn [Cxx.take_digits];
         match goal with
         | |- context [Cxx.digit_of ?c] =>
             let v := eval vm_compute in (Cxx.digit_of c) in
             change (Cxx.digit_of c) with v
         end;
         cbv iota; rewrite IHd; cbn [uint_val nb_digits];
         rewrite ?Z.add_0_r, ?Nat.add_succ_r; reflexivity).
  cbn [uint_val nb_digits]. rewrite Nat.add_0_r.
  destruct rest as [|c rest]; [reflexivity|]. simpl in H. cbn [Cxx.take_digits]. rewrite H. reflexivity.
Qed.

Lemma uint_val_of_lu (d : Decimal.uint) (acc : Z) :
  uint_val acc d = acc * 10 ^ Z.of_N (Unsigned.usize d) + Z.of_N (Unsigned.of_lu (Decimal.rev d)).
Proof.
  revert acc. induction d; intro acc; cbn [uint_val Unsigned.usize];
    try (unfold Decimal.rev; cbn [Decimal.revapp];
         rewrite (Unsigned.of_lu_revapp d); cbn [Unsigned.of_lu];
         rewrite IHd;
         rewrite N2Z.inj_succ, Z.pow_succ_r by lia;
         rewrite !N2Z.inj_add, !N2Z.inj_mul, N2Z.inj_pow; simpl Z.of_N; ring).
  simpl. lia.
Qed.

Lemma uint_val_to_uint (p : positive) : uint_val 0 (Pos.to_uint p) = Z.pos p.
Proof.
  rewrite uint_val_of_lu. rewrite <- Unsigned.of_uint_alt, Unsigned.of_to. simpl. reflexivity.
Qed.



Lemma digit_not_space_nor_sign (c : ascii) :
  Cxx.digit_of c <> None ->
  Cxx.isspace c = false /\ c <> "-"%char /\ c <> "+"%char.
Proof.
  destruct c as [[] [] [] [] [] [] [] []]; vm_compute; intro H;
    try (exfalso; apply H; reflexivity); repeat split; discriminate.
Qed.

Lemma digit_ahead_unsigned (s : string) :
  digit_ahead s -> Cxx.take_sign (Cxx.skip_space s) = (false, s).
Proof.
  destruct s as [|c s]; [intros []|]. simpl. intro H.
  destruct (digit_not_space_nor_sign c H) as (Sp & Mi & Pl).
  rewrite Sp. unfold Cxx.take_sign.
  destruct c as [[] [] [] [] [] [] [] []]; try reflexivity; congruence.
Qed.

Lemma string_of_uint_digit_ahead (d : Decimal.uint) :
  d <> Nil -> digit_ahead (NilEmpty.string_of_uint d).
Proof. destruct d; simpl; [congruence|..]; intros _; vm_compute; discriminate. Qed.

Lemma NilZero_string_of_uint (d : Decimal.uint) :
  d <> Nil -> NilZero.string_of_uint d = NilEmpty.string_of_uint d.
Proof. destruct d; [congruence|..]; reflexivity. Qed.

Lemma nb_digits_pos (d : Decimal.uint) : d <> Nil -> exists k, nb_digits d = S k.
Proof. destruct d; [congruence|..]; simpl; eauto. Qed.

Lemma append_digit_ahead (s rest : string) : digit_ahead s -> digit_ahead (s +++ rest).
Proof. destruct s; [intros []|]. simpl. auto. Qed.

Lemma parse_unsigned (d : Decimal.uint) (rest : string) :
  d <> Nil -> no_digit_ahead rest ->
  Cxx.parse_integer (NilEmpty.string_of_uint d +++ rest) = Some (false, uint_val 0 d).
Proof.
  intros NN ND. unfold Cxx.parse_integer.
  rewrite (digit_ahead_unsigned _
             (append_digit_ahead _ rest (string_of_uint_digit_ahead d NN))).
  rewrite (take_digits_uint d 0 0 rest ND).
  destruct (nb_digits_pos d NN) as (k & ->). reflexivity.
Qed.

Lemma parse_negative (d : Decimal.uint) (rest : string) :
  d <> Nil -> no_digit_ahead rest ->
  Cxx.parse_integer (String "-" (NilEmpty.string_of_uint d) +++ rest)
  = Some (true, uint_val 0 d).
Proof.
  intros NN ND. unfold Cxx.parse_integer. simpl String.append. cbn [Cxx.skip_space].
  change (Cxx.isspace "-") with false. cbv iota. cbn [Cxx.take_sign].
  rewrite (take_digits_uint d 0 0 rest ND).
  destruct (nb_digits_pos d NN) as (k & ->). reflexivity.
Qed.

(** The integer parse reads back a printed integer, whatever follows it
    that does not begin with a digit. *)
Lemma parse_integer_to_string_then (z : Z) (rest : string) :
  no_digit_ahead rest ->
  Cxx.parse_integer (Cxx.to_string z +++ rest) = Some (z <? 0, Z.abs z).
Proof.
  intro ND. unfold Cxx.to_string. destruct z as [|p|p].
  - simpl. unfold Cxx.parse_integer. simpl Cxx.skip_space. cbn [Cxx.take_sign].
    cbn [Cxx.take_digits]. change (Cxx.digit_of "0") with (Some 0). cbv iota.
    destruct rest as [|c rest]; [reflexivity|]. simpl in ND.
    cbn [Cxx.take_digits]. rewrite ND. reflexivity.
  - simpl Z.to_int. unfold NilZero.string_of_int.
    rewrite NilZero_string_of_uint by apply Unsigned.to_uint_nonnil.
    rewrite parse_unsigned by (apply Unsigned.to_uint_nonnil || exact ND).
    rewrite uint_val_to_uint. reflexivity.
  - simpl Z.to_int. unfold NilZero.string_of_int.
    rewrite NilZero_string_of_uint by apply Unsigned.to_uint_nonnil.
    rewrite parse_negative by (apply Unsigned.to_uint_nonnil || exact ND).
    rewrite uint_val_to_uint. reflexivity.
Qed.

Lemma parse_integer_to_string (z : Z) :
  Cxx.parse_integer (Cxx.to_string z) = Some (z <? 0, Z.abs z).
Proof.
  rewrite <- (append_nil_r (Cxx.to_string z)).
  apply parse_integer_to_string_then. exact I.
Qed.

Lemma signed_abs (z : Z) : Cxx.signed (z <? 0) (Z.abs z) = z.
Proof. unfold Cxx.signed. destruct (Z.ltb_spec z 0); lia. Qed.

Lemma strtol_to_string (z : Z) :
  Cxx.LONG_MIN <= z <= Cxx.LONG_MAX -> Cxx.strtol (Cxx.to_string z) = z.
Proof.
  unfold Cxx.strtol. rewrite parse_integer_to_string, signed_abs. lia.
Qed.

Lemma stoi_to_string (z : Z) :
  Cxx.stoi (Cxx.to_string z)
  = if (Cxx.INT_MIN <=? z) && (z <=? Cxx.INT_MAX) then inr z else inl OutOfRange.
Proof. unfold Cxx.stoi. rewrite parse_integer_to_string, signed_abs. reflexivity. Qed.

Lemma stoi_to_string_then (z : Z) (rest : string) :
  no_digit_ahead rest -> Cxx.INT_MIN <= z <= Cxx.INT_MAX ->
  Cxx.stoi (Cxx.to_string z +++ rest) = inr z.
Proof.
  intros ND H. unfold Cxx.stoi. rewrite parse_integer_to_string_then by exact ND.
  rewrite signed_abs.
  replace (Cxx.INT_MIN <=? z) with true by (symmetry; apply Z.leb_le; lia).
  replace (z <=? Cxx.INT_MAX) with true by (symmetry; apply Z.leb_le; lia).
  reflexivity.
Qed.

Lemma stoul_to_string (z : Z) :
  - Cxx.ULONG_MAX <= z <= Cxx.ULONG_MAX ->
  Cxx.stoul (Cxx.to_string z) = inr (z mod 2 ^ 64).
Proof.
  unfold Cxx.stoul, Cxx.ULONG_MAX, Cxx.to_size_t.
  rewrite parse_integer_to_string, signed_abs. intro H.
  replace (Z.abs z <=? 2 ^ 64 - 1) with true by (symmetry; apply Z.leb_le; lia).
  reflexivity.
Qed.

(** ** Splitting at the delimiter *)

Lemma all_chars_app (p : ascii -> bool) (a b : string) :
  all_chars p (a +++ b) = all_chars p a && all_chars p b.
Proof. induction a as [|c a IH]; simpl; [reflexivity|]. rewrite IH, andb_assoc. reflexivity. Qed.

Lemma string_of_uint_numeral (d : Decimal.uint) :
  all_chars numeral_char (NilEmpty.string_of_uint d) = true.
Proof. induction d; simpl; try exact IHd; reflexivity. Qed.

Lemma to_string_numeral (z : Z) : all_chars numeral_char (Cxx.to_string z) = true.
Proof.
  unfold Cxx.to_string. destruct z as [|p|p]; [reflexivity| |]; simpl Z.to_int;
    unfold NilZero.string_of_int;
    rewrite NilZero_string_of_uint by apply Unsigned.to_uint_nonnil.
  - apply string_of_uint_numeral.
  - simpl. apply string_of_uint_numeral.
Qed.

Lemma to_string_nonempty (z : Z) : Cxx.to_string z <> EmptyString.
Proof.
  intro E. pose proof (parse_integer_to_string z) as H. rewrite E in H. discriminate H.
Qed.

Lemma flush_nonempty (s : string) : s <> EmptyString -> flush s = [s].
Proof. destruct s; [congruence|reflexivity]. Qed.

Lemma tokens_from_end (delims : list ascii) (cur : string) :
  Cxx.tokens_from delims cur EmptyString = flush cur.
Proof. reflexivity. Qed.

Lemma tokens_from_delim (D : ascii) (cur rest : string) :
  Cxx.tokens_from [D] cur (String D rest) = flush cur ++ Cxx.tokens_from [D] EmptyString rest.
Proof. cbn [Cxx.tokens_from existsb]. rewrite Ascii.eqb_refl. reflexivity. Qed.

Lemma tokens_from_other (D c : ascii) (cur rest : string) :
  c <> D ->
  Cxx.tokens_from [D] cur (String c rest)
  = Cxx.tokens_from [D] (cur +++ String c EmptyString) rest.
Proof.
  intro NE. cbn [Cxx.tokens_from existsb].
  destruct (Ascii.eqb_spec c D) as [E|_]; [contradiction|]. reflexivity.
Qed.

(** A run of characters other than the delimiter is read into the token. *)
Lemma tokens_from_run (D : ascii) (t cur rest : string) :
  all_chars (fun c => negb (Ascii.eqb c D)) t = true ->
  Cxx.tokens_from [D] cur (t +++ rest) = Cxx.tokens_from [D] (cur +++ t) rest.
Proof.
  revert cur. induction t as [|c t IH]; intros cur H.
  - simpl. rewrite append_nil_r. reflexivity.
  - simpl in H. apply andb_true_iff in H. destruct H as (Hc & Ht).
    simpl String.append. rewrite tokens_from_other.
    + rewrite IH by exact Ht. rewrite append_assoc. reflexivity.
    + intro E. subst c. rewrite Ascii.eqb_refl in Hc. discriminate Hc.
Qed.

Lemma numeral_without (D : ascii) (s : string) :
  numeral_char D = false ->
  all_chars numeral_char s = true ->
  all_chars (fun c => negb (Ascii.eqb c D)) s = true.
Proof.
  intros HD. induction s as [|c s IH]; simpl; [reflexivity|].
  intro H. apply andb_true_iff in H. destruct H as (Hc & Hs).
  rewrite (IH Hs), andb_true_r.
  destruct (Ascii.eqb_spec c D) as [->|_]; [congruence|reflexivity].
Qed.

Section Ids.

Variable P : Decls.
Hypothesis delimiter_no_numeral : numeral_char (Delimiter P) = false.

Lemma tokens_from_ids (cur : string) (ids : list Z) :
  Cxx.tokens_from [Delimiter P] cur (serialize_ids P ids)
  = flush cur ++ map Cxx.to_string ids.
Proof.
  revert cur. induction ids as [|x ids IH]; intro cur.
  - simpl. rewrite app_nil_r. reflexivity.
  - cbn [serialize_ids]. unfold DELIM. simpl String.append.
    rewrite tokens_from_delim. f_equal.
    rewrite tokens_from_run
      by (apply numeral_without; [exact delimiter_no_numeral|apply to_string_numeral]).
    rewrite IH. simpl String.append.
    rewrite flush_nonempty by apply to_string_nonempty. reflexivity.
Qed.

Lemma to_int_small (z : Z) : Cxx.INT_MIN <= z <= Cxx.INT_MAX -> Cxx.to_int z = z.
Proof.
  unfold Cxx.INT_MIN, Cxx.INT_MAX, Cxx.to_int. intro H.
  rewrite Z.mod_small by lia. lia.
Qed.

Lemma parse_back (ids : list Z) :
  Forall (fun z => Cxx.INT_MIN <= z <= Cxx.INT_MAX) ids ->
  map (fun tok => Cxx.to_int (Cxx.strtol tok)) (map Cxx.to_string ids) = ids.
Proof.
  induction 1 as [|z ids Hz _ IH]; simpl; [reflexivity|].
  rewrite IH. f_equal.
  rewrite strtol_to_string
    by (unfold Cxx.INT_MIN, Cxx.INT_MAX, Cxx.LONG_MIN, Cxx.LONG_MAX in *; lia).
  apply to_int_small. exact Hz.
Qed.

End Ids.

(** ** The worker behind any service *)

Section AnyService.

Context {Sock Conn : Type} {transport : Transport Sock} {conn : Connector Conn Sock}.
Variable P : Decls.

Local Abbreviation Sys := (State Sock Conn).

(** A round that returns, entered with the error field clear: the front
    command was served, or its exchange failed and the queue was
    cleared. *)
Lemma drain_iter_round (st st' : Sys) (m : string) (f : Handler) (rest : list Cmd) :
  error_ st = Error.None -> writeQueue st = (m, f) :: rest ->
  drain_iter P st = Returned st' ->
  (exists evs, served st evs st') \/
  (exists tail, failed_exchange m tail /\
                trace st' = trace st ++ tail ++ [Cleared] /\
                error_ st' = Error.LostConnection /\ writeQueue st' = []).
Proof.
  intros E Q D.
  destruct (socket st) as [sock|] eqn:S.
  2:{ unfold drain_iter in D. rewrite Q, S in D. discriminate D. }
  destruct (fst (writeMessage sock m)) eqn:W.
  2:{ rewrite (drain_iter_write_fails P st m f rest sock Q S W) in D.
      injection D as <-. right. exists [Wrote m false].
      split; [left; reflexivity|]. simpl. rewrite <- app_assoc. auto. }
  destruct (fst (readMessage (snd (writeMessage sock m)))) as [|c r'] eqn:R.
  { rewrite (drain_iter_read_empty P st m f rest sock Q S W R) in D.
    injection D as <-. right. exists [Wrote m true; Read EmptyString].
    split; [right; reflexivity|]. simpl. rewrite <- !app_assoc. auto. }
  assert (R' : fst (readMessage (snd (writeMessage sock m))) <> EmptyString)
    by (rewrite R; discriminate).
  destruct (drain_iter_answered_returned P st st' m f rest sock Q S W R' E D)
    as (Q' & T' & E' & _).
  left. eexists. unfold served. split; [exact T'|].
  rewrite Q, Q'.
  change (?a :: ?b :: ?c :: ?d) with ([a; b; c] ++ d).
  rewrite enqueued_app, invocations_app, io_app.
  rewrite enqueued_pushed, invocations_pushed, io_pushed. simpl.
  rewrite R. repeat split; auto. repeat constructor. simpl. discriminate.
Qed.

Lemma served_error (st st' : Sys) (evs : list Event) :
  served st evs st' -> error_ st' = Error.None.
Proof. intros (_ & _ & _ & _ & E). exact E. Qed.

Lemma lost_after_served (st st1 st' : Sys) (e1 e2 : list Event) :
  served st e1 st1 -> lost st1 e2 st' -> lost st (e1 ++ e2) st'.
Proof.
  intros V (e & s & m & f & rest & tail & V1 & Q & F & -> & T & E & Q').
  exists (e1 ++ e), s, m, f, rest, tail.
  split; [eapply served_trans; eauto|]. split; [exact Q|]. split; [exact F|].
  split; [rewrite <- app_assoc; reflexivity|].
  split; [|auto]. rewrite T. destruct V as (-> & _). rewrite <- !app_assoc. reflexivity.
Qed.

Lemma drain_fuel_round (fuel : nat) (st st' : Sys) :
  error_ st = Error.None ->
  drain_fuel P fuel st = Some (Returned st') ->
  (exists evs, served st evs st' /\ writeQueue st' = []) \/ (exists evs, lost st evs st').
Proof.
  revert st. induction fuel as [|fuel IH]; intros st E D; [discriminate D|].
  simpl in D. destruct (writeQueue st) as [|[m f] rest] eqn:Q.
  - injection D as <-. left. exists []. auto using served_refl.
  - destruct (drain_iter P st) as [st1|e st1] eqn:D1; [|discriminate D].
    destruct (drain_iter_round st st1 m f rest E Q D1) as [(e1 & V1)|(tail & F & T & E1 & Q1)].
    + destruct (IH st1 (served_error _ _ _ V1) D) as [(e2 & V2 & Q2)|(e2 & L2)].
      * left. exists (e1 ++ e2). split; [eapply served_trans; eauto|exact Q2].
      * right. exists (e1 ++ e2). eapply lost_after_served; eauto.
    + right. destruct fuel as [|fuel]; [discriminate D|].
      simpl in D. rewrite Q1 in D. injection D as <-.
      exists (tail ++ [Cleared]), [], st, m, f, rest, tail.
      split; [apply served_refl; exact E|]. split; [exact Q|]. split; [exact F|].
      split; [reflexivity|]. split; [exact T|]. split; [exact E1|exact Q1].
Qed.

Lemma poll_in_error (st : Sys) : error_ st <> Error.None -> poll P st = st.
Proof.
  intro E. unfold poll, sendGetVolume, sendGetStatus, sendGetSubQueueSize, sendGetSongIdx,
    sendGetSong, sendGetShuffle, sendGetRepeat, sendGetQueueSize, sendGetPosition,
    sendGetPlayingFrom, enqueue.
  repeat (rewrite (addToWriteQueue_rejects _ _ st E); cbn [snd]). reflexivity.
Qed.

Lemma process_iteration_round (due : bool) (st st' : Sys) :
  error_ st = Error.None ->
  process_iteration P due st = Returned st' ->
  (exists evs, served st evs st') \/ (exists evs, lost st evs st').
Proof.
  intros E D. unfold process_iteration in D. rewrite E in D. simpl in D.
  destruct (drain_total P st) as (fuel & F).
  destruct (drain P st) as [st1|e st1]; [|discriminate D].
  injection D as <-.
  destruct (drain_fuel_round fuel st st1 E F) as [(e1 & V1 & _)|(e1 & L1)].
  - left. destruct due; [|eauto].
    destruct (poll_pushes P st1) as (new & N).
    exists (e1 ++ map Enqueued new). eapply served_trans; [exact V1|].
    apply pushes_served; [exact N|]. eapply served_error; eauto.
  - right. exists e1. destruct due; [|exact L1].
    rewrite poll_in_error; [exact L1|].
    destruct L1 as (_ & _ & _ & _ & _ & _ & _ & _ & _ & _ & _ & E1 & _).
    rewrite E1. discriminate.
Qed.

Lemma lost_error (st st' : Sys) (evs : list Event) :
  lost st evs st' -> error_ st' <> Error.None.
Proof.
  intros (_ & _ & _ & _ & _ & _ & _ & _ & _ & _ & _ & E & _). rewrite E. discriminate.
Qed.

Lemma process_round (clock : list bool) (st st' : Sys) :
  error_ st = Error.None ->
  process P clock st = Returned st' ->
  (exists evs, served st evs st') \/ (exists evs, lost st evs st').
Proof.
  revert st. induction clock as [|due clock IH]; intros st E D.
  - injection D as <-. left. exists []. apply served_refl. exact E.
  - simpl in D. destruct (exit_ st).
    + injection D as <-. left. exists []. apply served_refl. exact E.
    + destruct (process_iteration P due st) as [st1|e st1] eqn:D1; [|discriminate D].
      destruct (process_iteration_round due st st1 E D1) as [(e1 & V1)|(e1 & L1)].
      * destruct (IH st1 (served_error _ _ _ V1) D) as [(e2 & V2)|(e2 & L2)].
        -- left. exists (e1 ++ e2). eapply served_trans; eauto.
        -- right. exists (e1 ++ e2). eapply lost_after_served; eauto.
      * right. exists e1.
        rewrite (process_in_error P clock st1 (lost_error _ _ _ L1)) in D.
        injection D as <-. exact L1.
Qed.

Lemma failed_exchange_quiet (m : string) (tail : list Event) :
  failed_exchange m tail ->
  enqueued (tail ++ [Cleared]) = [] /\ invocations (tail ++ [Cleared]) = [] /\
  io (tail ++ [Cleared]) = tail.
Proof. intros [-> | ->]; simpl; auto. Qed.

(** X1.  Whatever the service does, a run of process that returns has
    invoked lambdas for a prefix of the commands in the order they were
    pushed, each with the reply read right after its own request; the
    traffic on the socket is one write and one read per invocation and,
    at most, one failed exchange after them, for the first command not
    invoked.  At the end the error field is None, with the commands not
    invoked still pending, or LostConnection, with the queue empty. *)
Theorem process_any_service (clock : list bool) (st st' : Sys) :
  error_ st = Error.None ->
  process P clock st = Returned st' ->
  exists evs left tail,
    trace st' = trace st ++ evs /\
    writeQueue st ++ enqueued evs = map fst (invocations evs) ++ left /\
    io evs = flat_map exchange (invocations evs) ++ tail /\
    ((error_ st' = Error.None /\ left = writeQueue st' /\ tail = []) \/
     (error_ st' = Error.LostConnection /\ writeQueue st' = [] /\
      exists m f rest, left = (m, f) :: rest /\ failed_exchange m tail)).
Proof.
  intros E D.
  destruct (process_round clock st st' E D) as [(evs & T & Q & I & _ & E')|(evs & L)].
  - exists evs, (writeQueue st'), []. rewrite app_nil_r. auto 10.
  - destruct L as (e1 & st1 & m & f & rest & tail & (T1 & Q1 & I1 & _) & Qf & F & -> & T & E' & Q').
    destruct (failed_exchange_quiet m tail F) as (Fe & Fi & Fio).
    exists (e1 ++ tail ++ [Cleared]), ((m, f) :: rest), tail.
    rewrite enqueued_app, invocations_app, io_app, Fe, Fi, Fio, !app_nil_r.
    split; [exact T|]. split; [rewrite Q1, Qf; reflexivity|].
    split; [rewrite I1; reflexivity|].
    right. split; [exact E'|]. split; [exact Q'|]. eauto.
Qed.

End AnyService.

(** ** A lambda that throws *)

Section Thrown.

Context {Sock Conn : Type} {transport : Transport Sock} {conn : Connector Conn Sock}.
Variable P : Decls.

Local Abbreviation Sys := (State Sock Conn).

(** A round is left either for want of a socket or by the lambda of the
    front command. *)
Lemma drain_iter_left (st st' : Sys) (e : Abort) :
  drain_iter P st = Aborted e st' ->
  (e = NullSocket /\ socket st = None /\ st' = st) \/
  (exists c r, thrown_at P st e c r st').
Proof.
  intro D.
  destruct (writeQueue st) as [|[m f] rest] eqn:Q.
  { unfold drain_iter in D. rewrite Q in D. discriminate D. }
  destruct (socket st) as [sock|] eqn:S.
  2:{ unfold drain_iter in D. rewrite Q, S in D. injection D as <- <-. auto. }
  right.
  destruct (fst (writeMessage sock m)) eqn:W.
  2:{ rewrite (drain_iter_write_fails P st m f rest sock Q S W) in D. discriminate D. }
  destruct (fst (readMessage (snd (writeMessage sock m)))) as [|c0 r'] eqn:R.
  { rewrite (drain_iter_read_empty P st m f rest sock Q S W R) in D. discriminate D. }
  assert (R' : fst (readMessage (snd (writeMessage sock m))) <> EmptyString)
    by (rewrite R; discriminate).
  rewrite (drain_iter_answered P st m f rest sock Q S W R') in D.
  pose proof (run_handler_pushes P f (fst (readMessage (snd (writeMessage sock m))))
                (at_invocation st m f sock)) as H.
  destruct (run_handler P f _ (at_invocation st m f sock)) as [st3|e3 st3] eqn:RH.
  { cbv zeta in D. destruct (negb _); discriminate D. }
  injection D as -> ->. subst st'.
  exists (m, f), (fst (readMessage (snd (writeMessage sock m)))), rest.
  split; [exact Q|]. split; [exact R'|].
  split; [simpl; rewrite <- !app_assoc; reflexivity|].
  split; [simpl; congruence|]. split; [reflexivity|exact RH].
Qed.

Lemma drain_fuel_left (fuel : nat) (st st' : Sys) (e : Abort) :
  error_ st = Error.None ->
  drain_fuel P fuel st = Some (Aborted e st') -> e <> NullSocket ->
  exists e1 st1 c r, served st e1 st1 /\ thrown_at P st1 e c r st'.
Proof.
  revert st. induction fuel as [|fuel IH]; intros st E D NS; [discriminate D|].
  simpl in D. destruct (writeQueue st) as [|[m f] rest] eqn:Q; [discriminate D|].
  destruct (drain_iter P st) as [st1|e1 st1] eqn:D1.
  - destruct (drain_iter_round P st st1 m f rest E Q D1) as [(ev & V)|(tail & _ & _ & _ & Q1)].
    + destruct (IH st1 (served_error _ _ _ V) D NS) as (e2 & st2 & c & r & V2 & T).
      exists (ev ++ e2), st2, c, r. split; [eapply served_trans; eauto|exact T].
    + destruct fuel as [|fuel]; [discriminate D|]. simpl in D. rewrite Q1 in D.
      discriminate D.
  - injection D as -> ->.
    destruct (drain_iter_left st st' e D1) as [(N & _)|(c & r & T)]; [contradiction|].
    exists [], st, c, r. split; [apply served_refl; exact E|exact T].
Qed.

Lemma drain_fuel_left_error (fuel : nat) (st st' : Sys) (e : Abort) :
  error_ st = Error.None ->
  drain_fuel P fuel st = Some (Aborted e st') -> error_ st' = Error.None.
Proof.
  revert st. induction fuel as [|fuel IH]; intros st E D; [discriminate D|].
  simpl in D. destruct (writeQueue st) as [|[m f] rest] eqn:Q; [discriminate D|].
  destruct (drain_iter P st) as [st1|e1 st1] eqn:D1.
  - destruct (drain_iter_round P st st1 m f rest E Q D1) as [(ev & V)|(tail & _ & _ & _ & Q1)].
    + apply (IH st1 (served_error _ _ _ V) D).
    + destruct fuel as [|fuel]; [discriminate D|]. simpl in D. rewrite Q1 in D.
      discriminate D.
  - injection D as -> ->.
    destruct (drain_iter_left st st' e D1) as [(_ & _ & ->)|(c & r & rest' & _ & _ & _ & _ & E' & _)];
      congruence.
Qed.

Lemma process_iteration_left_error (due : bool) (st st' : Sys) (e : Abort) :
  error_ st = Error.None ->
  process_iteration P due st = Aborted e st' -> error_ st' = Error.None.
Proof.
  intros E D. unfold process_iteration in D. rewrite E in D. simpl in D.
  destruct (drain_total P st) as (fuel & F).
  destruct (drain P st) as [st2|e2 st2]; [discriminate D|].
  injection D as -> ->. apply (drain_fuel_left_error fuel st st' e E F).
Qed.

Lemma process_left (clock : list bool) (st st' : Sys) (e : Abort) :
  error_ st = Error.None ->
  process P clock st = Aborted e st' -> e <> NullSocket ->
  exists e1 st1 c r, served st e1 st1 /\ thrown_at P st1 e c r st'.
Proof.
  revert st. induction clock as [|due clock IH]; intros st E D NS; [discriminate D|].
  simpl in D. destruct (exit_ st); [discriminate D|].
  destruct (process_iteration P due st) as [st1|e1 st1] eqn:D1.
  - destruct (process_iteration_round P due st st1 E D1) as [(ev & V)|(ev & L)].
    + destruct (IH st1 (served_error _ _ _ V) D NS) as (e2 & st2 & c & r & V2 & T).
      exists (ev ++ e2), st2, c, r. split; [eapply served_trans; eauto|exact T].
    + rewrite (process_in_error P clock st1 (lost_error _ _ _ L)) in D. discriminate D.
  - injection D as -> ->. unfold process_iteration in D1. rewrite E in D1. simpl in D1.
    destruct (drain_total P st) as (fuel & F).
    destruct (drain P st) as [st2|e2 st2]; [discriminate D1|].
    injection D1 as -> ->. apply (drain_fuel_left fuel st st' e E F NS).
Qed.

(** X2.  When a run of process is left by a lambda that throws, the
    lambdas invoked before it were invoked in the order of the queue, each
    with the reply to its own request; the command whose lambda threw is
    still at the front of the queue, with everything pushed behind it; and
    the error field is still None. *)
Theorem process_left_in_order (clock : list bool) (st st' : Sys) (e : Abort) :
  error_ st = Error.None ->
  process P clock st = Aborted e st' -> e <> NullSocket ->
  exists evs before c r rest,
    trace st' = trace st ++ evs /\
    invocations evs = before ++ [(c, r)] /\
    writeQueue st' = c :: rest /\
    writeQueue st ++ enqueued evs = map fst before ++ writeQueue st' /\
    io evs = flat_map exchange (invocations evs) /\
    error_ st' = Error.None /\
    run_handler P (snd c) r st' = Aborted e st'.
Proof.
  intros E D NS.
  destruct (process_left clock st st' e E D NS)
    as (e1 & st1 & c & r & (T1 & Q1 & I1 & _ & E1) & (rest & Q & R & T & Q' & E' & H)).
  exists (e1 ++ [Wrote (fst c) true; Read r; Invoked c r]), (invocations e1), c, r, rest.
  rewrite enqueued_app, invocations_app, io_app, flat_map_app. simpl.
  rewrite !app_nil_r.
  split; [rewrite T, T1, <- app_assoc; reflexivity|]. split; [reflexivity|].
  split; [congruence|]. split; [rewrite Q'; exact Q1|].
  split; [rewrite I1; reflexivity|]. split; [congruence|exact H].
Qed.

End Thrown.

(** ** The callers *)

Section CallersFacts.

Context {Sock Conn : Type} {transport : Transport Sock} {conn : Connector Conn Sock}.
Variable P : Decls.

Local Abbreviation Sys := (State Sock Conn).

Lemma reconnect_same_cache (st : Sys) :
  match reconnect P st with
  | Returned st' | Aborted _ st' => same_cache st st'
  end.
Proof.
  unfold reconnect. destruct (getTransferSocket (connector st)) as [[s0|] c'];
    [|repeat split].
  destruct (negb (isConnected s0)); [repeat split|].
  destruct (writeMessage s0 _) as [ok s1]. destruct (readMessage s1) as [reply s2].
  destruct (0 <? _); [|repeat split].
  unfold parsed. destruct (Cxx.stoi reply) as [e|v]; [repeat split|].
  destruct (negb _); repeat split.
Qed.

Lemma numeral_char_digit (c : ascii) : numeral_char c = false -> Cxx.digit_of c = None.
Proof. unfold numeral_char. destruct (Cxx.digit_of c); [discriminate|reflexivity]. Qed.

Section Plain.

Hypothesis plain : plain_decls P.

Lemma addressed_then (f : Handler) (rest : string) :
  no_digit_ahead rest ->
  addressed P (Cxx.to_string (Command_int P (command_of f)) +++ rest, f).
Proof.
  intro ND. unfold addressed. simpl fst. simpl snd.
  apply stoi_to_string_then; [exact ND|apply plain].
Qed.

Lemma addressed_alone (f : Handler) :
  addressed P (Cxx.to_string (Command_int P (command_of f)), f).
Proof.
  rewrite <- (append_nil_r (Cxx.to_string _)). apply addressed_then. exact I.
Qed.

Lemma addressed_args (f : Handler) (args : string) :
  addressed P (Cxx.to_string (Command_int P (command_of f)) +++ DELIM P +++ args, f).
Proof.
  apply addressed_then. simpl. apply numeral_char_digit. apply plain.
Qed.

Lemma serialize_ids_no_digit_ahead (ids : list Z) : no_digit_ahead (serialize_ids P ids).
Proof.
  destruct ids; simpl; [exact I|]. apply numeral_char_digit. apply plain.
Qed.

Lemma sendSetQueue_loop_no_digit_ahead (hasLimit : bool) (limit : Z) (q : list Z) :
  no_digit_ahead (sendSetQueue_loop P hasLimit limit 0 q EmptyString).
Proof.
  destruct hasLimit.
  - rewrite sendSetQueue_loop_limited by lia. apply serialize_ids_no_digit_ahead.
  - rewrite sendSetQueue_loop_unlimited. apply serialize_ids_no_digit_ahead.
Qed.

Lemma Forall_accepted (st : Sys) (c : Cmd) :
  addressed P c -> Forall (addressed P) (accepted st c).
Proof. intro A. unfold accepted. destruct (Error.eqb _ _); auto. Qed.

Lemma accepted_in_error (st : Sys) (c : Cmd) :
  error_ st <> Error.None -> accepted st c = [].
Proof.
  intro E. unfold accepted. destruct (Error.eqb (error_ st) Error.None) eqn:B;
    [|reflexivity].
  apply Error_eqb_eq in B. contradiction.
Qed.

End Plain.

(** What a request does to the object: it pushes one command at most, and
    none while the error field is set; it leaves the error field, the
    socket and the exit flag alone. *)
Lemma ask_pushes (r : Request) (st : Sys) :
  exists new, pushes st new (ask P r st) /\
              (plain_decls P -> Forall (addressed P) new) /\
              (error_ st <> Error.None -> new = []) /\
              (List.length new <= 1)%nat.
Proof.
  assert (Acc : forall (st0 : Sys) m f,
             pushes st [] st0 -> error_ st0 = error_ st ->
             (plain_decls P -> addressed P (m, f)) ->
             exists new, pushes st new (enqueue m f st0) /\
                         (plain_decls P -> Forall (addressed P) new) /\
                         (error_ st <> Error.None -> new = []) /\
                         (List.length new <= 1)%nat).
  { intros st0 m f P0 E0 A. exists (accepted st0 (m, f)).
    split; [apply (pushes_trans st st0 _ [] _ P0 (enqueue_pushes m f st0))|].
    split; [intro Pl; apply Forall_accepted; auto|].
    split; [intro E; apply accepted_in_error; congruence|].
    unfold accepted. destruct (Error.eqb _ _); simpl; lia. }
  destruct r; cbn [ask];
    unfold sendResume, sendPause, sendPrevious, sendNext, sendGetVolume, sendSetVolume,
      sendMute, sendUnmute, sendSetSongIdx, sendGetSongIdx, sendGetQueueSize,
      sendRemoveFromQueue, sendGetQueue, sendAddToSubQueue, sendRemoveFromSubQueue,
      sendGetSubQueueSize, sendGetSubQueue, sendSkipSubQueueSongs, sendGetRepeat,
      sendSetRepeat, sendGetShuffle, sendSetShuffle, sendGetSong, sendGetStatus,
      sendGetPosition, sendGetPlayingFrom, sendSetPlayingFrom, sendReleaseDBLock,
      sendReloadConfig;
    try (apply (Acc st); [apply pushes_refl|reflexivity|intro Pl];
         match goal with
         | |- addressed _ (_, ?f) =>
             first [apply (addressed_alone Pl f) | apply (addressed_args Pl f)]
         end).
  - (* sendSetQueue *)
    unfold sendSetQueue.
    destruct (_ || _)%bool.
    + exists []. split; [apply pushes_refl|]. auto.
    + apply (Acc st); [apply pushes_refl|reflexivity|intro Pl].
      apply (addressed_then Pl (cb_sendSetQueue _)).
      apply (sendSetQueue_loop_no_digit_ahead Pl).
  - (* sendSetPosition *)
    unfold sendSetPosition. apply Acc; [unfold pushes; simpl; rewrite !app_nil_r; auto|reflexivity|].
    intro Pl. apply (addressed_args Pl cb_sendSetPosition).
  - unfold waitRequestDBLock_push.
    apply Acc; [unfold pushes; simpl; rewrite !app_nil_r; auto|reflexivity|].
    intro Pl. apply (addressed_alone Pl (cb_waitRequestDBLock _)).
  - unfold waitReset_push.
    apply Acc; [unfold pushes; simpl; rewrite !app_nil_r; auto|reflexivity|].
    intro Pl. apply (addressed_alone Pl (cb_waitReset _)).
  - unfold waitSongIdx_push.
    apply Acc; [unfold pushes; simpl; rewrite !app_nil_r; auto|reflexivity|].
    intro Pl. apply (addressed_alone Pl (cb_waitSongIdx _)).
Qed.

Lemma plain_follow_ups :
  plain_decls P -> addressed P (getQueue_request P) /\ addressed P (getSubQueue_request P).
Proof.
  intro Pl. split.
  - apply (addressed_args Pl cb_sendGetQueue).
  - apply (addressed_args Pl cb_sendGetSubQueue).
Qed.

(** X3.  Taking an opcode to be an int and the delimiter to be neither
    a digit nor a minus sign: whatever a send method, or the first part of
    a wait method, pushes is one command at most, none while the error
    field is set, and std::stoi reads off its request the opcode that goes
    with its lambda; the same holds of the two requests that lambdas push
    on their own. *)
Theorem requests_addressed (r : Request) (st : Sys) :
  plain_decls P ->
  exists new,
    writeQueue (ask P r st) = writeQueue st ++ new /\
    Forall (addressed P) new /\
    (List.length new <= 1)%nat /\
    (error_ st <> Error.None -> new = []) /\
    addressed P (getQueue_request P) /\ addressed P (getSubQueue_request P).
Proof.
  intro Pl. destruct (ask_pushes r st) as (new & (Q & _) & A & E & L).
  exists new. destruct (plain_follow_ups Pl). auto 10.
Qed.

(** *** No command is pending while the error field is set *)

Lemma Sysmodule_new_shape (c : Conn) (z : Z) :
  match Sysmodule_new P c z with
  | Returned st =>
      error_ st <> Error.LostConnection /\
      writeQueue st = accepted st (getQueue_request P) ++ accepted st (getSubQueue_request P) /\
      limit_ st = -1 /\ exit_ st = false /\ queue_ st = [] /\ subQueue_ st = [] /\
      queueChanged_ st = false /\ subQueueChanged_ st = false /\
      subQueueSize_ st = z
  | Aborted e st => writeQueue st = [] /\ error_ st = Error.Unknown
  end.
Proof.
  unfold Sysmodule_new.
  match goal with
  | |- match match reconnect P ?s with _ => _ end with _ => _ end =>
      pose proof (reconnect_same_cache s) as K;
      pose proof (reconnect_outcomes P s) as (_ & _ & _ & NL);
      set (s0 := s) in *
  end.
  destruct (reconnect P s0) as [st1|e st1] eqn:R.
  - destruct K as (K1 & _ & K3 & _ & _ & K6 & _ & _ & _ & _ & K11 & _ & _ & K14 & K15 & K16 & K17 & _).
    pose proof (sendGetQueue_pushes P st1) as (Q1 & _ & E1 & _).
    pose proof (sendGetSubQueue_pushes P (sendGetQueue P 0 25000 st1)) as (Q2 & _ & E2 & _).
    rewrite (accepted_same st1 _ _ E1) in Q2.
    assert (Ef : error_ (sendGetSubQueue P 0 5000 (sendGetQueue P 0 25000 st1)) = error_ st1)
      by congruence.
    split; [rewrite Ef; apply NL; reflexivity|].
    split.
    { rewrite !(accepted_same st1 _ _ Ef). rewrite Q2, Q1, K17. reflexivity. }
    unfold sendGetSubQueue, sendGetQueue.
    rewrite !enqueue_keeps_limit.
    unfold enqueue, addToWriteQueue.
    repeat (destruct (negb _); simpl); auto 10.
  - destruct K as (_ & _ & _ & _ & _ & _ & _ & _ & _ & _ & _ & _ & _ & _ & _ & _ & K17 & _).
    split; [exact K17|].
    unfold reconnect in R. subst s0. simpl in R.
    destruct (getTransferSocket c) as [[s1|] c']; [|discriminate R].
    destruct (negb (isConnected s1)); [discriminate R|].
    destruct (writeMessage s1 _) as [ok s2]. destruct (readMessage s2) as [reply s3].
    destruct (0 <? _); [|discriminate R].
    unfold parsed in R. destruct (Cxx.stoi reply) as [e'|v].
    + injection R as _ <-. reflexivity.
    + destruct (negb _); discriminate R.
Qed.

End CallersFacts.

(** ** The object among its callers *)

Section Among.

Context {Sock Conn : Type} {transport : Transport Sock} {conn : Connector Conn Sock}.
Variable P : Decls.

Local Abbreviation Sys := (State Sock Conn).

Lemma accepted_when_up (st : Sys) (c : Cmd) :
  error_ st = Error.None -> accepted st c = [c].
Proof. intro E. unfold accepted. rewrite E. reflexivity. Qed.

(** X4.  What the constructor leaves.  If the handshake of its reconnect
    succeeds, the error field is None and exactly the requests for the
    whole queue and the whole sub-queue are pending, in that order.
    Otherwise the error field is NotConnected, Unknown or
    DifferentVersion and nothing is pending: the two fetches are dropped.
    In both cases the limit is -1 and the cached queues are empty, their
    changed flags unset.  If the version reply does not parse, the
    constructor is left with nothing pending. *)
Theorem Sysmodule_new_outcomes (c : Conn) (z : Z) :
  match Sysmodule_new P c z with
  | Returned st =>
      (error_ st = Error.None ->
         writeQueue st = [getQueue_request P; getSubQueue_request P]) /\
      (error_ st <> Error.None ->
         writeQueue st = [] /\ error_ st <> Error.LostConnection) /\
      limit_ st = -1 /\ exit_ st = false /\ queue_ st = [] /\ subQueue_ st = [] /\
      queueChanged_ st = false /\ subQueueChanged_ st = false
  | Aborted e st => writeQueue st = [] /\ error_ st = Error.Unknown
  end.
Proof.
  pose proof (Sysmodule_new_shape P c z) as H.
  destruct (Sysmodule_new P c z) as [st|e st]; [|exact H].
  destruct H as (NL & Q & L & X & Q1 & Q2 & C1 & C2 & _).
  split; [intro E; rewrite Q, !accepted_when_up by exact E; reflexivity|].
  split; [intro E; rewrite Q, !accepted_in_error by exact E; auto|].
  auto 10.
Qed.

Lemma Sysmodule_new_quiet (c : Conn) (z : Z) :
  quiet_when_down (state_of (Sysmodule_new P c z)).
Proof.
  pose proof (Sysmodule_new_shape P c z) as H.
  destruct (Sysmodule_new P c z) as [st|e st]; simpl.
  - destruct H as (_ & Q & _). intro E. rewrite Q, !accepted_in_error by exact E.
    reflexivity.
  - intros _. apply H.
Qed.

Lemma perform_quiet (a : Activity) (st : Sys) :
  quiet_when_down st -> quiet_when_down (state_of (perform P a st)).
Proof.
  intro H. destruct a as [r| |due]; cbn [perform state_of].
  - destruct (ask_pushes P r st) as (new & (Q & _ & E & _) & _ & N & _).
    intro E1. rewrite E in E1. rewrite Q, (N E1), (H E1). reflexivity.
  - unfold Application_run_turn, error.
    destruct (Error.eqb (error_ st) Error.LostConnection) eqn:B; [|exact H].
    apply Error_eqb_eq in B.
    pose proof (reconnect_same_cache P st) as K.
    assert (Q : writeQueue st = []) by (apply H; rewrite B; discriminate).
    destruct (reconnect P st) as [st'|e st']; simpl; intros _;
      destruct K as (_ & _ & _ & _ & _ & _ & _ & _ & _ & _ & _ & _ & _ & _ & _ & _ & K & _);
      congruence.
  - destruct (exit_ st); [exact H|].
    destruct (Error.eqb (error_ st) Error.None) eqn:B.
    + apply Error_eqb_eq in B.
      destruct (process_iteration P due st) as [st'|e st'] eqn:D; simpl.
      * destruct (process_iteration_round P due st st' B D) as [(ev & V)|(ev & L)].
        -- intro E. exfalso. apply E. eapply served_error; eauto.
        -- intros _. destruct L as (_ & _ & _ & _ & _ & _ & _ & _ & _ & _ & _ & _ & Q).
           exact Q.
      * intro E. exfalso. apply E. eapply process_iteration_left_error; eauto.
    + unfold process_iteration. rewrite B. exact H.
Qed.

Lemma perform_all_quiet (acts : list Activity) (st : Sys) :
  quiet_when_down st -> quiet_when_down (state_of (perform_all P acts st)).
Proof.
  revert st. induction acts as [|a acts IH]; intros st H; [exact H|].
  cbn [perform_all]. pose proof (perform_quiet a st H) as H1.
  destruct (perform P a st) as [st1|e st1]; [apply IH; exact H1|exact H1].
Qed.

(** X5.  From the constructor on, through any sequence of requests,
    turns of the loop of Application::run and rounds of the worker, each
    taken as one step, terminate not being among them, and however the
    sequence ends: whenever the error field is not None, no command is
    pending.  So on these paths a reconnection by Application::run finds
    the queue empty. *)
Theorem nothing_pending_when_down (c : Conn) (z : Z) (acts : list Activity) (st : Sys) :
  Sysmodule_new P c z = Returned st ->
  error_ (state_of (perform_all P acts st)) <> Error.None ->
  writeQueue (state_of (perform_all P acts st)) = [].
Proof.
  intros N. apply perform_all_quiet.
  pose proof (Sysmodule_new_quiet c z) as H. rewrite N in H. exact H.
Qed.

Lemma perform_down (a : Activity) (st : Sys) :
  error_ st <> Error.None -> error_ st <> Error.LostConnection ->
  exists st', perform P a st = Returned st' /\ pushes st [] st'.
Proof.
  intros E NL. destruct a as [r| |due]; cbn [perform].
  - destruct (ask_pushes P r st) as (new & Pu & _ & N & _).
    rewrite (N E) in Pu. eauto.
  - unfold Application_run_turn, error.
    destruct (Error.eqb (error_ st) Error.LostConnection) eqn:B.
    + apply Error_eqb_eq in B. contradiction.
    + exists st. split; [reflexivity|apply pushes_refl].
  - exists st. split; [|apply pushes_refl].
    destruct (exit_ st); [reflexivity|].
    unfold process_iteration. apply Error_neqb in E. rewrite E. reflexivity.
Qed.

(** X6.  With the error field at NotConnected, Unknown or
    DifferentVersion, no sequence of requests, turns of the loop of
    Application::run and rounds of the worker changes it: every step
    returns, the error field, the queue and the socket stay as they are
    and there is no traffic.  Application::run reconnects on
    LostConnection only. *)
Theorem down_for_good (acts : list Activity) (st : Sys) :
  error_ st <> Error.None -> error_ st <> Error.LostConnection ->
  exists st',
    perform_all P acts st = Returned st' /\
    error_ st' = error_ st /\ writeQueue st' = writeQueue st /\
    trace st' = trace st /\ socket st' = socket st.
Proof.
  revert st. induction acts as [|a acts IH]; intros st E NL.
  - exists st. auto.
  - destruct (perform_down a st E NL) as (st1 & D & (Q & T & E1 & S & _)).
    simpl in Q, T. rewrite app_nil_r in Q, T.
    destruct (IH st1) as (st' & D' & E' & Q' & T' & S'); try congruence.
    exists st'. cbn [perform_all]. rewrite D. split; [exact D'|].
    repeat split; congruence.
Qed.

(** X7.  terminate and reconnect leave the queue alone.  A command
    pending when terminate succeeds is still pending after a
    reconnection; behind a service that then always answers, a round of
    the worker whose lambdas return invokes every such command on the new
    connection, before anything pushed later. *)
Theorem pending_survive_terminate (st st2 st3 : Sys) :
  reconnect P (snd (terminate true st)) = Returned st2 ->
  error_ (snd (terminate true st)) = Error.LostConnection /\
  writeQueue (snd (terminate true st)) = writeQueue st /\
  writeQueue st2 = writeQueue st /\
  (answering st2 -> error_ st2 = Error.None -> exit_ st = false ->
   process P [false] st2 = Returned st3 ->
   exists evs, trace st3 = trace st2 ++ evs /\
               map fst (invocations evs) = writeQueue st ++ enqueued evs).
Proof.
  intro R. pose proof (reconnect_same_cache P (snd (terminate true st))) as K.
  rewrite R in K.
  destruct K as (_ & _ & K3 & _ & _ & _ & _ & _ & _ & _ & _ & _ & _ & _ & _ & _ & K17 & _).
  simpl in K3, K17. repeat split; try reflexivity; try exact K17.
  intros A E X D.
  destruct (process_served P [false] st2 st3 A E D) as (evs & (T & Q & _) & _ & L).
  exists evs. split; [exact T|].
  rewrite L in Q by (simpl; congruence). rewrite app_nil_r in Q. congruence.
Qed.

End Among.

(** ** Song ids on the wire *)

Lemma tokens_from_doubled (D : ascii) (a b cur : string) :
  Cxx.tokens_from [D] cur (a +++ String D (String D b))
  = Cxx.tokens_from [D] cur (a +++ String D b).
Proof.
  revert cur. induction a as [|c a IH]; intro cur; simpl String.append.
  - rewrite !tokens_from_delim. simpl. reflexivity.
  - destruct (Ascii.eqb_spec c D) as [->|NE].
    + rewrite !tokens_from_delim. rewrite IH. reflexivity.
    + rewrite !tokens_from_other by exact NE. apply IH.
Qed.

Lemma tokens_from_trailing (D : ascii) (a cur : string) :
  Cxx.tokens_from [D] cur (a +++ String D EmptyString) = Cxx.tokens_from [D] cur a.
Proof.
  revert cur. induction a as [|c a IH]; intro cur; simpl String.append.
  - rewrite tokens_from_delim. simpl. rewrite app_nil_r. reflexivity.
  - destruct (Ascii.eqb_spec c D) as [->|NE].
    + rewrite !tokens_from_delim. rewrite IH. reflexivity.
    + rewrite !tokens_from_other by exact NE. apply IH.
Qed.

Lemma to_int_range (z : Z) : Cxx.INT_MIN <= Cxx.to_int z <= Cxx.INT_MAX.
Proof.
  unfold Cxx.to_int, Cxx.INT_MIN, Cxx.INT_MAX.
  pose proof (Z.mod_pos_bound (z + 2 ^ 31) (2 ^ 32) ltac:(lia)). lia.
Qed.

(** *** The reply as a C string *)

Lemma c_str_clean (s : string) :
  all_chars (fun c => negb (Ascii.eqb c "000")) s = true -> Cxx.c_str s = s.
Proof.
  induction s as [|c s IH]; simpl; [reflexivity|].
  intro H. apply andb_true_iff in H. destruct H as (Hc & Hs).
  apply negb_true_iff in Hc. rewrite Hc, (IH Hs). reflexivity.
Qed.

Lemma c_str_is_clean (s : string) :
  all_chars (fun c => negb (Ascii.eqb c "000")) (Cxx.c_str s) = true.
Proof.
  induction s as [|c s IH]; simpl; [reflexivity|].
  destruct (Ascii.eqb c "000") eqn:E; simpl; [reflexivity|]. rewrite E, IH. reflexivity.
Qed.

Lemma c_str_app (a b : string) :
  Cxx.c_str (a +++ b)
  = if all_chars (fun c => negb (Ascii.eqb c "000")) a then a +++ Cxx.c_str b
    else Cxx.c_str a.
Proof.
  induction a as [|c a IH]; simpl; [reflexivity|].
  destruct (Ascii.eqb c "000"); simpl; [reflexivity|].
  rewrite IH. destruct (all_chars _ a); reflexivity.
Qed.

Lemma c_str_nul (a b : string) : Cxx.c_str (a +++ String "000" b) = Cxx.c_str a.
Proof.
  rewrite c_str_app. destruct (all_chars _ a) eqn:E; [|reflexivity].
  simpl. rewrite append_nil_r. symmetry. apply c_str_clean. exact E.
Qed.

Lemma c_str_delim (D : ascii) (b : string) :
  D <> "000"%char -> Cxx.c_str (String D b) = String D (Cxx.c_str b).
Proof.
  intro NE. simpl. destruct (Ascii.eqb_spec D "000"); [contradiction|reflexivity].
Qed.

Lemma numeral_clean (s : string) :
  all_chars numeral_char s = true ->
  all_chars (fun c => negb (Ascii.eqb c "000")) s = true.
Proof. apply numeral_without. reflexivity. Qed.

(** std::stoi, std::stoul and strtol read a std::string through c_str()
    as well; they stop at the first character that is no part of a
    number, so that they read the same of the string and of its part
    before the first NUL. *)
Lemma skip_space_c_str (s : string) :
  Cxx.skip_space (Cxx.c_str s) = Cxx.c_str (Cxx.skip_space s).
Proof.
  induction s as [|c s IH]; [reflexivity|].
  cbn [Cxx.c_str Cxx.skip_space].
  destruct (Ascii.eqb_spec c "000") as [->|NE].
  - reflexivity.
  - cbn [Cxx.skip_space]. destruct (Cxx.isspace c); [exact IH|].
    cbn [Cxx.c_str]. destruct (Ascii.eqb_spec c "000"); [contradiction|reflexivity].
Qed.

Lemma take_digits_c_str (acc : Z) (n : nat) (s : string) :
  fst (Cxx.take_digits acc n (Cxx.c_str s)) = fst (Cxx.take_digits acc n s).
Proof.
  revert acc n. induction s as [|c s IH]; intros acc n; [reflexivity|].
  cbn [Cxx.c_str]. destruct (Ascii.eqb_spec c "000") as [->|NE]; [reflexivity|].
  cbn [Cxx.take_digits]. destruct (Cxx.digit_of c); [apply IH|reflexivity].
Qed.

Lemma take_sign_c_str (s : string) :
  Cxx.take_sign (Cxx.c_str s)
  = (fst (Cxx.take_sign s), Cxx.c_str (snd (Cxx.take_sign s))).
Proof.
  destruct s as [|c s]; [reflexivity|].
  cbn [Cxx.c_str]. destruct (Ascii.eqb_spec c "000") as [->|NE]; [reflexivity|].
  destruct (Ascii.eqb_spec c "-") as [->|N1]; [reflexivity|].
  destruct (Ascii.eqb_spec c "+") as [->|N2]; [reflexivity|].
  assert (T : forall t, Cxx.take_sign (String c t) = (false, String c t)).
  { intro t. unfold Cxx.take_sign.
    destruct c as [[] [] [] [] [] [] [] []]; try reflexivity; congruence. }
  rewrite !T. simpl. destruct (Ascii.eqb_spec c "000"); [contradiction|reflexivity].
Qed.

Lemma parse_integer_c_str (s : string) :
  Cxx.parse_integer (Cxx.c_str s) = Cxx.parse_integer s.
Proof.
  unfold Cxx.parse_integer. rewrite skip_space_c_str, take_sign_c_str.
  destruct (Cxx.take_sign (Cxx.skip_space s)) as [neg s1]. cbn [fst snd].
  pose proof (take_digits_c_str 0 0 s1) as H.
  destruct (Cxx.take_digits 0 0 (Cxx.c_str s1)) as [[v n] r].
  destruct (Cxx.take_digits 0 0 s1) as [[v' n'] r']. simpl in H.
  injection H as -> ->. reflexivity.
Qed.

Section Wire.

Context {Sock Conn : Type} {transport : Transport Sock} {conn : Connector Conn Sock}.
Variable P : Decls.

Local Abbreviation Sys := (State Sock Conn).

Lemma parse_ids_range (s : string) :
  Forall (fun z => Cxx.INT_MIN <= z <= Cxx.INT_MAX) (parse_ids P s).
Proof.
  unfold parse_ids. apply Forall_map. apply Forall_forall. intros tok _.
  apply to_int_range.
Qed.

(** X8.  Song ids go over the wire and back.  With a delimiter that is
    neither a digit nor a minus sign nor NUL, and ids that are ints: what
    sendSetQueue writes for the ids, the strtok and strtol loop of the
    queue lambdas reads back as the same ids in the same order, also when
    a first number stands before the first delimiter; and the lambda of
    sendGetQueue (of sendGetSubQueue), given such a reply, replaces the
    cached queue (sub-queue) by these ids and sets its changed flag,
    leaving the other queue alone. *)
Theorem song_ids_round_trip (ids : list Z) (st : Sys) :
  numeral_char (Delimiter P) = false ->
  Delimiter P <> "000"%char ->
  Forall (fun z => Cxx.INT_MIN <= z <= Cxx.INT_MAX) ids ->
  parse_ids P (serialize_ids P ids) = ids /\
  (forall x, Cxx.INT_MIN <= x <= Cxx.INT_MAX ->
     parse_ids P (Cxx.to_string x +++ serialize_ids P ids) = x :: ids) /\
  (exists st', run_handler P cb_sendGetQueue (serialize_ids P ids) st = Returned st' /\
     queue_ st' = ids /\ queueChanged_ st' = true /\ subQueue_ st' = subQueue_ st) /\
  (exists st', run_handler P cb_sendGetSubQueue (serialize_ids P ids) st = Returned st' /\
     subQueue_ st' = ids /\ subQueueChanged_ st' = true /\ queue_ st' = queue_ st).
Proof.
  intros HD HN Hr.
  assert (C : all_chars (fun c => negb (Ascii.eqb c "000")) (serialize_ids P ids) = true).
  { clear Hr. induction ids as [|x ids IH]; [reflexivity|].
    cbn [serialize_ids]. unfold DELIM. simpl.
    destruct (Ascii.eqb_spec (Delimiter P) "000"); [contradiction|]. simpl.
    rewrite all_chars_app, IH, andb_true_r. apply numeral_clean, to_string_numeral. }
  assert (A : parse_ids P (serialize_ids P ids) = ids).
  { unfold parse_ids, Cxx.strtok_all. rewrite (c_str_clean _ C).
    rewrite (tokens_from_ids P HD). simpl.
    apply parse_back. exact Hr. }
  split; [exact A|]. split; [|split].
  - intros x Hx. unfold parse_ids, Cxx.strtok_all.
    rewrite c_str_clean
      by (rewrite all_chars_app, C, andb_true_r; apply numeral_clean, to_string_numeral).
    rewrite tokens_from_run
      by (apply numeral_without; [exact HD|apply to_string_numeral]).
    rewrite (tokens_from_ids P HD). simpl String.append.
    rewrite flush_nonempty by apply to_string_nonempty.
    change ([Cxx.to_string x] ++ map Cxx.to_string ids)
      with (map Cxx.to_string (x :: ids)).
    apply parse_back. constructor; assumption.
  - eexists. split; [reflexivity|]. simpl. auto.
  - eexists. split; [reflexivity|]. simpl. auto.
Qed.

(** X9.  The queue lambdas take any reply, and read it as a C string:
    up to its first NUL.  They never throw, they set the changed flag
    whatever the reply holds, and every id they store is an int.  What
    follows a NUL adds no entry.  A reply without a token empties the
    cached queue; a delimiter at the end or doubled adds no entry, nor
    does one in front unless the delimiter is NUL, when it hides the
    reply; a token without a NUL that does not begin with a number is
    stored as 0. *)
Theorem queue_reply_edges (s : string) (st : Sys) :
  (exists st', run_handler P cb_sendGetQueue s st = Returned st' /\
     queueChanged_ st' = true /\ queue_ st' = parse_ids P s /\
     Forall (fun z => Cxx.INT_MIN <= z <= Cxx.INT_MAX) (queue_ st')) /\
  (exists st', run_handler P cb_sendGetSubQueue s st = Returned st' /\
     subQueueChanged_ st' = true /\ subQueue_ st' = parse_ids P s /\
     Forall (fun z => Cxx.INT_MIN <= z <= Cxx.INT_MAX) (subQueue_ st')) /\
  parse_ids P (Cxx.c_str s) = parse_ids P s /\
  (forall b, parse_ids P (s +++ String "000" b) = parse_ids P s) /\
  parse_ids P EmptyString = [] /\
  parse_ids P (DELIM P) = [] /\
  (Delimiter P <> "000"%char -> parse_ids P (DELIM P +++ s) = parse_ids P s) /\
  parse_ids P (s +++ DELIM P) = parse_ids P s /\
  (forall b, parse_ids P (s +++ DELIM P +++ DELIM P +++ b) = parse_ids P (s +++ DELIM P +++ b)) /\
  (forall tok, Cxx.parse_integer tok = None ->
     tok <> EmptyString ->
     all_chars (fun c => negb (Ascii.eqb c (Delimiter P))) tok = true ->
     all_chars (fun c => negb (Ascii.eqb c "000")) tok = true ->
     parse_ids P tok = [0]).
Proof.
  split; [|split; [|split; [|split; [|split; [|split; [|split; [|split; [|split]]]]]]]].
  - eexists. split; [reflexivity|]. simpl. auto using parse_ids_range.
  - eexists. split; [reflexivity|]. simpl. auto using parse_ids_range.
  - unfold parse_ids. rewrite (c_str_clean _ (c_str_is_clean s)). reflexivity.
  - intro b. unfold parse_ids. rewrite c_str_nul. reflexivity.
  - reflexivity.
  - unfold parse_ids, Cxx.strtok_all, DELIM. cbn [Cxx.c_str].
    destruct (Ascii.eqb (Delimiter P) "000"); [reflexivity|].
    rewrite tokens_from_delim. reflexivity.
  - intro NE. unfold parse_ids, Cxx.strtok_all, DELIM. simpl String.append.
    rewrite (c_str_delim _ s NE), tokens_from_delim. reflexivity.
  - unfold parse_ids, Cxx.strtok_all, DELIM.
    destruct (Ascii.eqb_spec (Delimiter P) "000") as [E|NE].
    + rewrite E, c_str_nul. reflexivity.
    + rewrite c_str_app. destruct (all_chars _ s) eqn:C; [|reflexivity].
      rewrite (c_str_delim _ EmptyString NE), (c_str_clean s C).
      cbn [Cxx.c_str]. rewrite tokens_from_trailing. reflexivity.
  - intro b. unfold parse_ids, Cxx.strtok_all, DELIM. simpl String.append.
    destruct (Ascii.eqb_spec (Delimiter P) "000") as [E|NE].
    + rewrite E, !c_str_nul. reflexivity.
    + rewrite !c_str_app. destruct (all_chars _ s) eqn:C; [|reflexivity].
      rewrite !(c_str_delim _ _ NE). rewrite tokens_from_doubled. reflexivity.
  - intros tok N NE H C. unfold parse_ids, Cxx.strtok_all. rewrite (c_str_clean tok C).
    rewrite <- (append_nil_r tok). rewrite tokens_from_run by exact H.
    simpl String.append. rewrite tokens_from_end, flush_nonempty by exact NE.
    simpl. unfold Cxx.strtol. rewrite N. reflexivity.
Qed.

End Wire.

(** ** How long the inner loop runs *)

Lemma weight_le (q : list Cmd) : (weight q <= 3 * List.length q)%nat.
Proof.
  induction q as [|[m f] q IH]; simpl; [lia|].
  assert (spawns f <= 2)%nat by (destruct f; simpl; lia). lia.
Qed.

Lemma stoi_abort (s : string) (e : Abort) :
  Cxx.stoi s = inl e -> e = InvalidArgument \/ e = OutOfRange.
Proof.
  unfold Cxx.stoi. destruct (Cxx.parse_integer s) as [[neg v]|].
  - destruct (_ && _); intro H; inversion H; auto.
  - intro H; inversion H; auto.
Qed.

Lemma stoul_abort (s : string) (e : Abort) :
  Cxx.stoul s = inl e -> e = InvalidArgument \/ e = OutOfRange.
Proof.
  unfold Cxx.stoul. destruct (Cxx.parse_integer s) as [[neg v]|].
  - destruct (_ <=? _); intro H; inversion H; auto.
  - intro H; inversion H; auto.
Qed.

Lemma stod_abort (s : string) (e : Abort) :
  Cxx.stod s = inl e -> e = InvalidArgument \/ e = OutOfRange.
Proof.
  unfold Cxx.stod, Cxx.range_checked.
  destruct (Cxx.take_sign _) as [neg s1].
  destruct (Cxx.lower_prefix "inf" s1); [discriminate|].
  destruct (Cxx.lower_prefix "nan" s1); [discriminate|].
  destruct (Cxx.hex_float neg s1) as [[v d]|].
  - destruct (_ || _); intro H; inversion H; auto.
  - destruct (Cxx.take_mantissa _ _) as [[[v n] k] s2]. destruct n.
    + intro H; inversion H; auto.
    + destruct (_ || _); intro H; inversion H; auto.
Qed.

Section Bounds.

Context {Sock Conn : Type} {transport : Transport Sock} {conn : Connector Conn Sock}.
Variable P : Decls.

Local Abbreviation Sys := (State Sock Conn).

Lemma drain_fuel_count (fuel : nat) (st : Sys) (r : Outcome Sys) :
  error_ st = Error.None -> drain_fuel P fuel st = Some r ->
  (List.length (invocations (trace (state_of r)))
   <= List.length (invocations (trace st)) + weight (writeQueue st))%nat.
Proof.
  revert st. induction fuel as [|fuel IH]; intros st E D; [discriminate D|].
  simpl in D. destruct (writeQueue st) as [|[m f] rest] eqn:Q.
  - injection D as <-. simpl. lia.
  - destruct (drain_iter P st) as [st1|e st1] eqn:D1.
    + destruct (drain_iter_cases P st st1 m f rest E Q D1)
        as [(E1 & Q1 & I1)|(r0 & E1 & I1 & Q1)].
      * destruct fuel as [|fuel]; [discriminate D|]. simpl in D. rewrite Q1 in D.
        injection D as <-. simpl state_of. rewrite I1. lia.
      * specialize (IH st1 E1 D). rewrite I1, Q1, List.length_app, weight_app in IH.
        pose proof (weight_pushed_by P f r0 st). simpl in IH |- *. lia.
    + injection D as <-. simpl state_of.
      destruct (drain_iter_left P st st1 e D1) as [(_ & _ & ->)|(c & r0 & rest' & _ & _ & T & _)].
      * lia.
      * rewrite T, invocations_app, List.length_app. simpl. lia.
Qed.

(** X10.  The inner loop of process always ends, whatever the service
    answers and although lambdas push commands while it runs: it takes no
    more rounds than the weight of the queue, which counts every pending
    command with the commands its lambda may push.  Entered with the
    error field clear, it invokes at most that many lambdas, so at most
    three for every command pending when it starts. *)
Theorem drain_terminates (st : Sys) :
  (forall fuel, (weight (writeQueue st) < fuel)%nat ->
     drain_fuel P fuel st = Some (drain P st)) /\
  (error_ st = Error.None ->
     (List.length (invocations (trace (state_of (drain P st))))
      <= List.length (invocations (trace st)) + weight (writeQueue st))%nat /\
     (weight (writeQueue st) <= 3 * List.length (writeQueue st))%nat).
Proof.
  split.
  - intros fuel H.
    destruct (drain_fuel P fuel st) as [r|] eqn:D.
    + rewrite (drain_eq P fuel st r D). reflexivity.
    + exfalso. apply (drain_fuel_enough P fuel st H D).
  - intro E. split; [|apply weight_le].
    destruct (drain_total P st) as (fuel & F). apply (drain_fuel_count fuel st _ E F).
Qed.

(** ** What a lambda may touch *)

Lemma pushed_by_shape (f : Handler) (s : string) (st : Sys) :
  (pushed_by P f s st = [] \/ pushed_by P f s st = [getQueue_request P] \/
   pushed_by P f s st = [getSubQueue_request P] \/
   pushed_by P f s st = [getQueue_request P; getSubQueue_request P]) /\
  (error_ st <> Error.None -> pushed_by P f s st = []).
Proof.
  assert (A : forall c, error_ st <> Error.None -> accepted st c = []).
  { intros c E. unfold accepted. destruct (Error.eqb (error_ st) Error.None) eqn:B;
      [apply Error_eqb_eq in B; contradiction|reflexivity]. }
  split.
  - destruct f; cbn [pushed_by]; auto;
      try (destruct (Cxx.stoul s) as [e|v]; auto);
      try (destruct (_ =? _); auto);
      unfold accepted; destruct (Error.eqb _ _); simpl; auto.
  - intro E. destruct f; cbn [pushed_by]; auto;
      try (destruct (Cxx.stoul s) as [e|v]; auto);
      try (destruct (_ =? _); auto);
      rewrite ?(A _ E); reflexivity.
Qed.

Lemma run_handler_keeps (f : Handler) (s : string) (st : Sys) :
  match run_handler P f s st with
  | Returned st' => connector st' = connector st /\ limit_ st' = limit_ st
  | Aborted e st' => e <> NullSocket
  end.
Proof.
  destruct f; cbn [run_handler]; unfold parsed;
    try (destruct (Cxx.stoi s) as [e|v] eqn:V;
         [destruct (stoi_abort s e V) as [-> | ->]; discriminate|]);
    try (destruct (Cxx.stoul s) as [e|v] eqn:V;
         [destruct (stoul_abort s e V) as [-> | ->]; discriminate|]);
    try (destruct (Cxx.stod s) as [e|v] eqn:V;
         [destruct (stod_abort s e V) as [-> | ->]; discriminate|]);
    try (split; reflexivity);
    unfold sendGetSubQueue, sendGetQueue, enqueue, addToWriteQueue.
  - destruct (negb (songIdx_ st =? v)); simpl; [|auto].
    repeat (destruct (negb (Error.eqb _ _)); simpl); auto.
  - destruct (negb (queueSize_ st =? v)); simpl; [|auto].
    repeat (destruct (negb (Error.eqb _ _)); simpl); auto.
  - destruct (negb (subQueueSize_ st =? v)); simpl; [|auto].
    repeat (destruct (negb (Error.eqb _ _)); simpl); auto.
  - destruct (switch_Repeat P v); destruct (negb _); auto.
  - simpl. repeat (destruct (negb (Error.eqb _ _)); simpl); auto.
Qed.

Lemma run_handler_thrown (f : Handler) (s : string) (st : Sys) :
  match run_handler P f s st with
  | Returned _ => True
  | Aborted e _ =>
      (e = InvalidArgument \/ e = OutOfRange) /\
      (Cxx.stoi s = inl e \/ Cxx.stoul s = inl e \/ Cxx.stod s = inl e) /\
      f <> cb_sendGetQueue /\ f <> cb_sendGetSubQueue /\
      f <> cb_sendGetPlayingFrom /\ f <> cb_sendSetPlayingFrom /\
      (forall done, f <> cb_waitReset done)
  end.
Proof.
  destruct f; cbn [run_handler]; unfold parsed; try exact I;
    try (destruct (Cxx.stoi s) as [e|v] eqn:V;
         [split; [exact (stoi_abort s e V)|];
          split; [auto|repeat split; intros; discriminate]|]);
    try (destruct (Cxx.stoul s) as [e|v] eqn:V;
         [split; [exact (stoul_abort s e V)|];
          split; [auto|repeat split; intros; discriminate]|]);
    try (destruct (Cxx.stod s) as [e|v] eqn:V;
         [split; [exact (stod_abort s e V)|];
          split; [auto|repeat split; intros; discriminate]|]);
    try exact I.
  destruct (switch_Repeat P v); destruct (negb _); exact I.
Qed.

(** X11.  What a lambda may do to the object.  One that returns has
    pushed nothing, or the request for the whole queue, or that for the
    whole sub-queue, or both in that order, and nothing when the error
    field is set; it has changed neither the error field nor the socket,
    the connector, the exit flag or the queue limit, and it has taken
    nothing off the queue.  One that throws has changed nothing at all,
    and what it throws is the invalid_argument or the out_of_range of
    std::stoi, std::stoul or std::stod: no lambda throws after its
    conversion, and the lambdas of the queue and sub-queue fetches, of
    waitReset and of the playing-from methods never throw.  The lambda of
    sendSetRepeat returns on every reply that std::stoi takes, also on
    one that is no repeat mode, with the object as it was or with the
    mode asked for stored. *)
Theorem handler_footprint (f : Handler) (s : string) (st : Sys) :
  match run_handler P f s st with
  | Returned st' =>
      exists new,
        writeQueue st' = writeQueue st ++ new /\
        trace st' = trace st ++ map Enqueued new /\
        (new = [] \/ new = [getQueue_request P] \/ new = [getSubQueue_request P] \/
         new = [getQueue_request P; getSubQueue_request P]) /\
        (error_ st <> Error.None -> new = []) /\
        error_ st' = error_ st /\ socket st' = socket st /\
        connector st' = connector st /\ exit_ st' = exit_ st /\ limit_ st' = limit_ st
  | Aborted e st' =>
      st' = st /\ (e = InvalidArgument \/ e = OutOfRange) /\
      (Cxx.stoi s = inl e \/ Cxx.stoul s = inl e \/ Cxx.stod s = inl e) /\
      f <> cb_sendGetQueue /\ f <> cb_sendGetSubQueue /\
      f <> cb_sendGetPlayingFrom /\ f <> cb_sendSetPlayingFrom /\
      (forall done, f <> cb_waitReset done)
  end /\
  (forall m v, Cxx.stoi s = inr v ->
     run_handler P (cb_sendSetRepeat m) s st = Returned st \/
     run_handler P (cb_sendSetRepeat m) s st = Returned (set_repeatMode_ m st)).
Proof.
  split.
  - pose proof (run_handler_pushes P f s st) as H.
    pose proof (run_handler_keeps f s st) as K.
    pose proof (run_handler_thrown f s st) as Th.
    destruct (run_handler P f s st) as [st'|e st'].
    + destruct H as (Q & T & E & S & X). destruct K as (C & L).
      destruct (pushed_by_shape f s st) as (Sh & Dn).
      exists (pushed_by P f s st). auto 12.
    + split; [exact H|]. exact Th.
  - intros m v V. cbn [run_handler]. unfold parsed. rewrite V.
    destruct (switch_Repeat P v) as [rm|].
    + destruct (RepeatMode.eqb rm m) eqn:E; simpl; [|left; reflexivity].
      right. destruct rm, m; try discriminate E; reflexivity.
    + destruct (negb (_ =? _)); [left|right]; reflexivity.
Qed.

End Bounds.

(** ** Replies and what the lambdas make of them *)

Section Replies.

Context {Sock Conn : Type} {transport : Transport Sock} {conn : Connector Conn Sock}.
Variable P : Decls.

Local Abbreviation Sys := (State Sock Conn).

(** X12.  The song index as the service prints it.  The lambda of the
    poll reads it with std::stoul and stores any index up to the largest
    size_t; the lambdas of sendSetSongIdx and waitSongIdx read it with
    std::stoi: they store an index up to INT_MAX and throw out_of_range
    on a larger one.  A reply of -1 is stored by all three as the largest
    size_t. *)
Theorem song_index_replies (id : Z) (done : nat) (st : Sys) :
  0 <= id <= Cxx.SIZE_MAX ->
  (exists st', run_handler P cb_sendGetSongIdx (Cxx.to_string id) st = Returned st' /\
               songIdx_ st' = id) /\
  (id <= Cxx.INT_MAX ->
     run_handler P cb_sendSetSongIdx (Cxx.to_string id) st
     = Returned (set_songIdx_ id st) /\
     run_handler P (cb_waitSongIdx done) (Cxx.to_string id) st
     = Returned (set_done done (set_songIdx_ id st))) /\
  (Cxx.INT_MAX < id ->
     run_handler P cb_sendSetSongIdx (Cxx.to_string id) st = Aborted OutOfRange st /\
     run_handler P (cb_waitSongIdx done) (Cxx.to_string id) st = Aborted OutOfRange st) /\
  (exists st', run_handler P cb_sendGetSongIdx "-1" st = Returned st' /\
               songIdx_ st' = Cxx.SIZE_MAX) /\
  run_handler P cb_sendSetSongIdx "-1" st = Returned (set_songIdx_ Cxx.SIZE_MAX st) /\
  run_handler P (cb_waitSongIdx done) "-1" st
  = Returned (set_done done (set_songIdx_ Cxx.SIZE_MAX st)).
Proof.
  intro H. unfold Cxx.SIZE_MAX in H.
  assert (U : Cxx.stoul (Cxx.to_string id) = inr id).
  { rewrite stoul_to_string by (unfold Cxx.ULONG_MAX; lia).
    rewrite Z.mod_small by lia. reflexivity. }
  split; [|split; [|split; [|split; [|split]]]].
  - cbn [run_handler]. unfold parsed. rewrite U. eexists. split; reflexivity.
  - intro Hi. cbn [run_handler]. unfold parsed. rewrite stoi_to_string.
    replace (Cxx.INT_MIN <=? id) with true
      by (symmetry; apply Z.leb_le; unfold Cxx.INT_MIN; lia).
    replace (id <=? Cxx.INT_MAX) with true by (symmetry; apply Z.leb_le; lia).
    simpl andb. cbv iota. unfold Cxx.to_size_t. rewrite Z.mod_small by lia. auto.
  - intro Hi. cbn [run_handler]. unfold parsed. rewrite stoi_to_string.
    replace (id <=? Cxx.INT_MAX) with false by (symmetry; apply Z.leb_gt; lia).
    rewrite andb_false_r. auto.
  - eexists. split; reflexivity.
  - reflexivity.
  - reflexivity.
Qed.

(** X13.  The lambdas of the set methods and the reply.  That of
    sendSetRepeat stores the mode of the reply only when it is the mode
    that was asked for, so after it the cached mode is the one asked for
    or the one cached before.  That of sendSetShuffle stores the mode of
    the reply whether or not it was asked for, and every time asks for
    the whole queue again. *)
Theorem set_mode_replies (s : string) (st : Sys) :
  (forall m st', run_handler P (cb_sendSetRepeat m) s st = Returned st' ->
     (repeatMode_ st' = m \/ repeatMode_ st' = repeatMode_ st) /\
     writeQueue st' = writeQueue st) /\
  (forall m v, Cxx.stoi s = inr v ->
     exists st', run_handler P (cb_sendSetShuffle m) s st = Returned st' /\
       shuffleMode_ st' = shuffle_of P v /\
       writeQueue st' = writeQueue st ++ accepted st (getQueue_request P)).
Proof.
  split.
  - intros m st' H. cbn [run_handler] in H. unfold parsed in H.
    destruct (Cxx.stoi s) as [e|v]; [discriminate H|].
    destruct (switch_Repeat P v) as [rm|].
    + destruct rm, m; simpl in H; injection H as <-; simpl; auto.
    + destruct (negb (_ =? _)); injection H as <-; simpl; auto.
  - intros m v V. cbn [run_handler]. unfold parsed. rewrite V.
    eexists. split; [reflexivity|]. split; [reflexivity|].
    simpl. apply (sendGetQueue_pushes P st).
Qed.

(** X14.  playingFrom never answers a single space: that is how the
    service spells the empty label, replies being never empty.  After
    either playing-from lambda has run on a reply, playingFrom answers
    the reply, or the empty string for a single space. *)
Theorem playingFrom_label (s : string) (st : Sys) :
  playingFrom st <> " "%string /\
  (exists st', run_handler P cb_sendGetPlayingFrom s st = Returned st' /\
     playingFrom st' = if String.eqb s " " then EmptyString else s) /\
  (exists st', run_handler P cb_sendSetPlayingFrom s st = Returned st' /\
     playingFrom st' = if String.eqb s " " then EmptyString else s).
Proof.
  split; [|split].
  - unfold playingFrom. destruct (String.eqb_spec (playingFrom_ st) " ");
      [discriminate|assumption].
  - eexists. split; reflexivity.
  - eexists. split; reflexivity.
Qed.

Lemma enqueue_error (s : string) (f : Handler) (st : Sys) :
  error_ (enqueue s f st) = error_ st.
Proof. unfold enqueue, addToWriteQueue. destruct (negb _); reflexivity. Qed.

Lemma enqueue_when_up (s : string) (f : Handler) (st : Sys) :
  error_ st = Error.None -> writeQueue (enqueue s f st) = writeQueue st ++ [(s, f)].
Proof. intro E. unfold enqueue. rewrite (addToWriteQueue_accepts s f st E). reflexivity. Qed.

Lemma poll_when_up (st : Sys) :
  error_ st = Error.None -> writeQueue (poll P st) = writeQueue st ++ poll_commands P.
Proof.
  intro E. unfold poll, sendGetVolume, sendGetStatus, sendGetSubQueueSize, sendGetSongIdx,
    sendGetSong, sendGetShuffle, sendGetRepeat, sendGetQueueSize, sendGetPosition,
    sendGetPlayingFrom.
  repeat (rewrite enqueue_when_up; [|rewrite ?enqueue_error; exact E]).
  rewrite <- !app_assoc. reflexivity.
Qed.

(** X15.  A round of the worker behind a service that always answers,
    when its lambdas return, leaves the queue empty if no poll was due
    and otherwise leaves exactly the ten requests of the poll pending, in
    the order playing-from, position, queue size, repeat, shuffle, song,
    song index, sub-queue size, status, volume.  While the error field is
    set the poll pushes nothing. *)
Theorem poll_round (due : bool) (st st' : Sys) :
  answering st -> error_ st = Error.None ->
  process_iteration P due st = Returned st' ->
  writeQueue st' = (if due then poll_commands P else []) /\
  error_ st' = Error.None /\
  (forall st0 : Sys, error_ st0 <> Error.None -> poll P st0 = st0).
Proof.
  intros A E D. split; [|split].
  - unfold process_iteration in D. rewrite E in D. simpl in D.
    destruct (drain_total P st) as (fuel & F).
    destruct (drain P st) as [st1|e st1]; [|discriminate D].
    destruct (drain_fuel_served P fuel st st1 A E F) as (e1 & V1 & Q1 & _).
    injection D as <-. destruct due; [|exact Q1].
    rewrite poll_when_up by (eapply served_error; eauto). rewrite Q1. reflexivity.
  - destruct (process_iteration_served P due st st' A E D) as (evs & V & _).
    eapply served_error; eauto.
  - intros st0 E0. apply poll_in_error. exact E0.
Qed.

End Replies.

(** ** Waiting callers *)

Section Waiting.

Context {Sock Conn : Type} {transport : Transport Sock} {conn : Connector Conn Sock}.
Variable P : Decls.

Local Abbreviation Sys := (State Sock Conn).

Lemma wait_loop_never (done : nat) (view : nat -> Sys) (fuel t0 : nat) :
  (forall t, done_flags (view t) done = false /\ error_ (view t) = Error.None) ->
  wait_loop done view fuel t0 = None.
Proof.
  intro H. revert t0. induction fuel as [|fuel IH]; intro t0; simpl; [reflexivity|].
  destruct (H t0) as (-> & _). destruct (H (S t0)) as (_ & ->). simpl. apply IH.
Qed.

(** X16.  How a wait call ends well, and how it does not end.  A call
    that finds its flag unset and the error field clear for [n] rounds
    and then finds the flag set returns at that wake-up: true from
    waitRequestDBLock and waitReset, the cached index from waitSongIdx.
    A call whose flag is never set while the error field stays clear
    never returns, however many rounds it is given. *)
Theorem wait_outcomes (done : nat) (view : nat -> Sys) (n t0 fuel : nat) :
  ((forall i, (i < n)%nat -> done_flags (view (t0 + i)%nat) done = false) ->
   (forall i, (1 <= i <= n)%nat -> error_ (view (t0 + i)%nat) = Error.None) ->
   done_flags (view (t0 + n)%nat) done = true ->
   (n < fuel)%nat ->
   wait_loop done view fuel t0 = Some (true, (t0 + n)%nat) /\
   waitRequestDBLock done view fuel t0 = Some true /\
   waitReset done view fuel t0 = Some true /\
   waitSongIdx done view fuel t0 = Some (songIdx_ (view (t0 + n)%nat))) /\
  ((forall t, done_flags (view t) done = false /\ error_ (view t) = Error.None) ->
   wait_loop done view fuel t0 = None /\
   waitRequestDBLock done view fuel t0 = None /\
   waitReset done view fuel t0 = None /\
   waitSongIdx done view fuel t0 = None).
Proof.
  split.
  - intros Hd He Hn Hf.
    assert (L : wait_loop done view fuel t0 = Some (true, (t0 + n)%nat)).
    { replace fuel with (n + S (fuel - S n))%nat by lia.
      rewrite wait_loop_skip by assumption. simpl. rewrite Hn. reflexivity. }
    unfold waitRequestDBLock, waitReset, waitSongIdx. rewrite L. auto.
  - intro H. unfold waitRequestDBLock, waitReset, waitSongIdx.
    rewrite (wait_loop_never done view fuel t0 H). auto.
Qed.

(** X17.  The lambdas of the wait calls.  That of waitRequestDBLock sets
    the caller's flag on any reply that parses as an int, whatever the
    number: a reply other than 0 is not told apart from 0.  That of
    waitReset sets it on any reply.  On a reply that does not parse, the
    lambda of waitRequestDBLock or waitSongIdx throws with the flag as it
    was; the error field is not set by that, so a caller whose flag is
    unset then waits without end while the object stays as it is. *)
Theorem wait_lambdas (done : nat) (s : string) (st : Sys) :
  (forall v, Cxx.stoi s = inr v ->
     run_handler P (cb_waitRequestDBLock done) s st = Returned (set_done done st) /\
     done_flags (set_done done st) done = true) /\
  run_handler P (cb_waitReset done) s st = Returned (set_done done st) /\
  (forall e, Cxx.stoi s = inl e ->
     run_handler P (cb_waitRequestDBLock done) s st = Aborted e st /\
     run_handler P (cb_waitSongIdx done) s st = Aborted e st /\
     (done_flags st done = false -> error_ st = Error.None ->
      forall fuel t0, waitRequestDBLock done (fun _ => st) fuel t0 = None /\
                      waitSongIdx done (fun _ => st) fuel t0 = None)).
Proof.
  split; [|split].
  - intros v V. cbn [run_handler]. unfold parsed. rewrite V. split; [reflexivity|].
    simpl. rewrite Nat.eqb_refl. reflexivity.
  - reflexivity.
  - intros e V. cbn [run_handler]. unfold parsed. rewrite V.
    split; [reflexivity|]. split; [reflexivity|].
    intros F E fuel t0. unfold waitRequestDBLock, waitSongIdx.
    rewrite (wait_loop_never done (fun _ => st) fuel t0) by auto. auto.
Qed.

End Waiting.

(** ** The cached numbers fit their types *)

Lemma stoi_range (s : string) (v : Z) :
  Cxx.stoi s = inr v -> Cxx.INT_MIN <= v <= Cxx.INT_MAX.
Proof.
  unfold Cxx.stoi. destruct (Cxx.parse_integer s) as [[neg m]|]; [|discriminate].
  destruct (Z.leb_spec Cxx.INT_MIN (Cxx.signed neg m));
    destruct (Z.leb_spec (Cxx.signed neg m) Cxx.INT_MAX); simpl; intro K;
    inversion K; subst; lia.
Qed.

Lemma to_size_t_range (z : Z) : 0 <= Cxx.to_size_t z <= Cxx.SIZE_MAX.
Proof.
  unfold Cxx.to_size_t, Cxx.SIZE_MAX.
  pose proof (Z.mod_pos_bound z (2 ^ 64) ltac:(lia)). lia.
Qed.

Lemma stoul_range (s : string) (v : Z) :
  Cxx.stoul s = inr v -> 0 <= v <= Cxx.SIZE_MAX.
Proof.
  unfold Cxx.stoul. destruct (Cxx.parse_integer s) as [[neg m]|]; [|discriminate].
  destruct (_ <=? _); [|discriminate]. intro H. inversion H; subst. apply to_size_t_range.
Qed.

Section Types.

Context {Sock Conn : Type} {transport : Transport Sock} {conn : Connector Conn Sock}.
Variable P : Decls.

Local Abbreviation Sys := (State Sock Conn).

Lemma enqueue_in_types (m : string) (f : Handler) (st : Sys) :
  in_types st -> in_types (enqueue m f st).
Proof.
  intro H. unfold enqueue, addToWriteQueue. destruct (negb _); exact H.
Qed.

Lemma parsed_in_types {A : Type} (r : Abort + A) (st : Sys) (k : A -> Outcome Sys) :
  in_types st ->
  (forall v, r = inr v -> in_types (state_of (k v))) ->
  in_types (state_of (parsed r st k)).
Proof.
  intros H K. unfold parsed. destruct r as [e|v]; [exact H|]. apply K. reflexivity.
Qed.

Lemma sendGetQueue_in_types (s n : Z) (st : Sys) :
  in_types st -> in_types (sendGetQueue P s n st).
Proof. intro H. unfold sendGetQueue. apply enqueue_in_types. exact H. Qed.

Lemma sendGetSubQueue_in_types (s n : Z) (st : Sys) :
  in_types st -> in_types (sendGetSubQueue P s n st).
Proof. intro H. unfold sendGetSubQueue. apply enqueue_in_types. exact H. Qed.

Lemma set_songIdx_in_types (v : Z) (st : Sys) :
  0 <= v <= Cxx.SIZE_MAX -> in_types st -> in_types (set_songIdx_ v st).
Proof. intros V (H1 & H2 & H3 & H4 & H5 & H6). exact (conj V (conj H2 (conj H3 (conj H4 (conj H5 H6))))). Qed.

Lemma set_queueSize_in_types (v : Z) (st : Sys) :
  0 <= v <= Cxx.SIZE_MAX -> in_types st -> in_types (set_queueSize_ v st).
Proof. intros V (H1 & H2 & H3 & H4 & H5 & H6). exact (conj H1 (conj V (conj H3 (conj H4 (conj H5 H6))))). Qed.

Lemma set_subQueueSize_in_types (v : Z) (st : Sys) :
  0 <= v <= Cxx.SIZE_MAX -> in_types st -> in_types (set_subQueueSize_ v st).
Proof. intros V (H1 & H2 & H3 & H4 & H5 & H6). exact (conj H1 (conj H2 (conj V (conj H4 (conj H5 H6))))). Qed.

Lemma set_currentSong_in_types (v : Z) (st : Sys) :
  Cxx.INT_MIN <= v <= Cxx.INT_MAX -> in_types st -> in_types (set_currentSong_ v st).
Proof. intros V (H1 & H2 & H3 & H4 & H5 & H6). exact (conj H1 (conj H2 (conj H3 (conj V (conj H5 H6))))). Qed.

Lemma set_queue_in_types (s : string) (st : Sys) :
  in_types st -> in_types (set_queue_ (parse_ids P s) st).
Proof.
  intros (H1 & H2 & H3 & H4 & H5 & H6).
  exact (conj H1 (conj H2 (conj H3 (conj H4 (conj (parse_ids_range P s) H6))))).
Qed.

Lemma set_subQueue_in_types (s : string) (st : Sys) :
  in_types st -> in_types (set_subQueue_ (parse_ids P s) st).
Proof.
  intros (H1 & H2 & H3 & H4 & H5 & H6).
  exact (conj H1 (conj H2 (conj H3 (conj H4 (conj H5 (parse_ids_range P s)))))).
Qed.

Lemma run_handler_in_types (f : Handler) (s : string) (st : Sys) :
  in_types st -> in_types (state_of (run_handler P f s st)).
Proof.
  intro H.
  destruct f; cbn [run_handler];
    try (apply parsed_in_types; [exact H|intros v V; cbn [state_of]]);
    try exact H.
  - apply (set_songIdx_in_types _ st (to_size_t_range v) H).
  - apply set_currentSong_in_types; [exact (stoi_range s v V)|exact H].
  - apply set_currentSong_in_types; [exact (stoi_range s v V)|exact H].
  - apply (set_songIdx_in_types _ st (to_size_t_range v) H).
  - apply set_songIdx_in_types; [exact (stoul_range s v V)|].
    destruct (negb _); [|exact H].
    apply sendGetSubQueue_in_types, sendGetQueue_in_types, H.
  - apply set_queueSize_in_types; [exact (stoul_range s v V)|].
    destruct (negb _); [|exact H]. apply sendGetQueue_in_types, H.
  - apply (set_queue_in_types s st H).
  - apply set_subQueueSize_in_types; [exact (stoul_range s v V)|].
    destruct (negb _); [|exact H]. apply sendGetSubQueue_in_types, H.
  - apply (set_subQueue_in_types s st H).
  - destruct (switch_Repeat P v); destruct (negb _); exact H.
  - apply (sendGetQueue_in_types 0 25000 st H).
  - apply set_currentSong_in_types; [exact (stoi_range s v V)|exact H].
Qed.

Lemma drain_iter_in_types (st : Sys) :
  in_types st -> in_types (state_of (drain_iter P st)).
Proof.
  intro H.
  destruct (writeQueue st) as [|[m f] rest] eqn:Q.
  { unfold drain_iter. rewrite Q. exact H. }
  destruct (socket st) as [sock|] eqn:S.
  2:{ unfold drain_iter. rewrite Q, S. exact H. }
  destruct (fst (writeMessage sock m)) eqn:W.
  2:{ rewrite (drain_iter_write_fails P st m f rest sock Q S W). exact H. }
  destruct (fst (readMessage (snd (writeMessage sock m)))) as [|c0 r'] eqn:R.
  { rewrite (drain_iter_read_empty P st m f rest sock Q S W R). exact H. }
  assert (R' : fst (readMessage (snd (writeMessage sock m))) <> EmptyString)
    by (rewrite R; discriminate).
  rewrite (drain_iter_answered P st m f rest sock Q S W R').
  pose proof (run_handler_in_types f (fst (readMessage (snd (writeMessage sock m))))
                (at_invocation st m f sock) H) as H3.
  destruct (run_handler P f _ (at_invocation st m f sock)) as [st3|e st3];
    [|exact H3].
  cbv zeta. destruct (negb _); exact H3.
Qed.

Lemma drain_fuel_in_types (fuel : nat) (st : Sys) (r : Outcome Sys) :
  in_types st -> drain_fuel P fuel st = Some r -> in_types (state_of r).
Proof.
  revert st. induction fuel as [|fuel IH]; intros st H D; [discriminate D|].
  simpl in D. destruct (writeQueue st); [injection D as <-; exact H|].
  pose proof (drain_iter_in_types st H) as H1.
  destruct (drain_iter P st) as [st1|e st1].
  - apply (IH st1 H1 D).
  - injection D as <-. exact H1.
Qed.

Lemma poll_in_types (st : Sys) : in_types st -> in_types (poll P st).
Proof.
  intro H. unfold poll, sendGetVolume, sendGetStatus, sendGetSubQueueSize, sendGetSongIdx,
    sendGetSong, sendGetShuffle, sendGetRepeat, sendGetQueueSize, sendGetPosition,
    sendGetPlayingFrom.
  repeat apply enqueue_in_types. exact H.
Qed.

Lemma process_iteration_in_types (due : bool) (st : Sys) :
  in_types st -> in_types (state_of (process_iteration P due st)).
Proof.
  intro H. unfold process_iteration. destruct (negb _); [exact H|].
  destruct (drain_total P st) as (fuel & F).
  pose proof (drain_fuel_in_types fuel st _ H F) as H1.
  destruct (drain P st) as [st1|e st1]; simpl in *; [|exact H1].
  destruct due; [apply poll_in_types|]; exact H1.
Qed.

Lemma ask_in_types (r : Request) (st : Sys) : in_types st -> in_types (ask P r st).
Proof.
  intro H. destruct r; cbn [ask];
    unfold sendResume, sendPause, sendPrevious, sendNext, sendGetVolume, sendSetVolume,
      sendMute, sendUnmute, sendSetSongIdx, sendGetSongIdx, sendGetQueueSize,
      sendRemoveFromQueue, sendGetQueue, sendAddToSubQueue, sendRemoveFromSubQueue,
      sendGetSubQueueSize, sendGetSubQueue, sendSkipSubQueueSongs, sendGetRepeat,
      sendSetRepeat, sendGetShuffle, sendSetShuffle, sendGetSong, sendGetStatus,
      sendGetPosition, sendGetPlayingFrom, sendSetPlayingFrom, sendReleaseDBLock,
      sendReloadConfig, sendSetPosition, waitRequestDBLock_push, waitReset_push,
      waitSongIdx_push, sendSetQueue;
    try (apply enqueue_in_types; exact H).
  destruct (_ || _)%bool; [exact H|apply enqueue_in_types; exact H].
Qed.

Lemma same_cache_in_types (st st' : Sys) : same_cache st st' -> in_types st -> in_types st'.
Proof.
  intros (_ & K2 & _ & _ & _ & _ & K7 & _ & _ & K10 & _ & _ & _ & K14 & K15 & K16 & _)
         (H1 & H2 & H3 & H4 & H5 & H6).
  unfold in_types. rewrite K2, K7, K10, K14, K15, K16. auto 10.
Qed.

Lemma perform_in_types (a : Activity) (st : Sys) :
  in_types st -> in_types (state_of (perform P a st)).
Proof.
  intro H. destruct a as [r| |due]; cbn [perform].
  - apply ask_in_types. exact H.
  - unfold Application_run_turn. destruct (Error.eqb _ _); [|exact H].
    pose proof (reconnect_same_cache P st) as K.
    destruct (reconnect P st); simpl; eapply same_cache_in_types; eauto.
  - destruct (exit_ st); [exact H|]. apply process_iteration_in_types. exact H.
Qed.

(** X18.  The cached numbers stay values of the types the object
    declares for them, so the conversions written out in the lambdas are
    all there are.  From a constructed object whose sub-queue size, which
    the constructor does not set, is a size_t, and through any sequence
    of requests, turns of the loop of Application::run and rounds of the
    worker, whatever the service replies: the song index and the two
    sizes lie between 0 and the largest size_t, the current song and
    every id of the cached queue and sub-queue are ints. *)
Theorem cached_numbers_in_types (c : Conn) (z : Z) (acts : list Activity) (st : Sys) :
  0 <= z <= Cxx.SIZE_MAX ->
  Sysmodule_new P c z = Returned st ->
  in_types (state_of (perform_all P acts st)).
Proof.
  intros Hz N.
  assert (H : in_types st).
  { unfold Sysmodule_new in N.
    match type of N with
    | match reconnect P ?i with _ => _ end = _ =>
        pose proof (reconnect_same_cache P i) as K;
        assert (H0 : in_types i)
          by (unfold in_types, Cxx.SIZE_MAX, Cxx.INT_MIN, Cxx.INT_MAX in *; cbn;
              repeat split; first [lia | constructor]);
        destruct (reconnect P i) as [st1|e st1]; [|discriminate N]
    end.
    injection N as <-.
    apply sendGetSubQueue_in_types, sendGetQueue_in_types.
    exact (same_cache_in_types _ st1 K H0). }
  clear N. revert st H. induction acts as [|a acts IH]; intros st H; [exact H|].
  cbn [perform_all]. pose proof (perform_in_types a st H) as H1.
  destruct (perform P a st) as [st1|e st1]; [apply IH; exact H1|exact H1].
Qed.

End Types.

(** ** What a request changes *)

Section Requests.

Context {Sock Conn : Type} {transport : Transport Sock} {conn : Connector Conn Sock}.
Variable P : Decls.

Local Abbreviation Sys := (State Sock Conn).

Lemma enqueue_footprint (s : string) (f : Handler) (st : Sys) :
  (error_ st <> Error.None -> enqueue s f st = st) /\
  (error_ st = Error.None ->
   enqueue s f st = log [Enqueued (s, f)] (set_writeQueue (writeQueue st ++ [(s, f)]) st)).
Proof.
  unfold enqueue. split; intro E.
  - rewrite (addToWriteQueue_rejects s f st E). reflexivity.
  - rewrite (addToWriteQueue_accepts s f st E). reflexivity.
Qed.

(** X19.  What a request changes.  A send method called while the
    error field is set leaves the object as it is, but for
    sendSetPosition, which has stored the position before it asks; the
    first part of a wait method leaves it with the caller's flag unset.
    Called while the error field is None, a method appends one command to
    the queue and changes nothing else, the position and the flag apart;
    sendSetQueue, as the one exception, may push nothing. *)
Theorem request_footprint (r : Request) (st : Sys) :
  (error_ st <> Error.None -> ask P r st = stored_by r st) /\
  (error_ st = Error.None ->
   (exists c, ask P r st
              = log [Enqueued c] (set_writeQueue (writeQueue st ++ [c]) (stored_by r st))) \/
   (exists q, r = AskSetQueue q /\ ask P r st = st)) /\
  (forall pos, r = AskSetPosition pos -> position_ (ask P r st) = pos).
Proof.
  split; [|split].
  - intro E. destruct r; cbn [ask stored_by];
      unfold sendResume, sendPause, sendPrevious, sendNext, sendGetVolume, sendSetVolume,
        sendMute, sendUnmute, sendSetSongIdx, sendGetSongIdx, sendGetQueueSize,
        sendRemoveFromQueue, sendGetQueue, sendAddToSubQueue, sendRemoveFromSubQueue,
        sendGetSubQueueSize, sendGetSubQueue, sendSkipSubQueueSongs, sendGetRepeat,
        sendSetRepeat, sendGetShuffle, sendSetShuffle, sendGetSong, sendGetStatus,
        sendGetPosition, sendGetPlayingFrom, sendSetPlayingFrom, sendReleaseDBLock,
        sendReloadConfig, sendSetPosition, waitRequestDBLock_push, waitReset_push,
        waitSongIdx_push, sendSetQueue;
      try (apply (proj1 (enqueue_footprint _ _ _)); exact E).
    destruct (_ || _)%bool; [reflexivity|]. apply (proj1 (enqueue_footprint _ _ _)); exact E.
  - intro E. destruct r; cbn [ask stored_by];
      unfold sendResume, sendPause, sendPrevious, sendNext, sendGetVolume, sendSetVolume,
        sendMute, sendUnmute, sendSetSongIdx, sendGetSongIdx, sendGetQueueSize,
        sendRemoveFromQueue, sendGetQueue, sendAddToSubQueue, sendRemoveFromSubQueue,
        sendGetSubQueueSize, sendGetSubQueue, sendSkipSubQueueSongs, sendGetRepeat,
        sendSetRepeat, sendGetShuffle, sendSetShuffle, sendGetSong, sendGetStatus,
        sendGetPosition, sendGetPlayingFrom, sendSetPlayingFrom, sendReleaseDBLock,
        sendReloadConfig, sendSetPosition, waitRequestDBLock_push, waitReset_push,
        waitSongIdx_push, sendSetQueue;
      try (left; match goal with
                 | |- exists c, enqueue ?s ?f ?st0 = _ =>
                     exists (s, f); exact (proj2 (enqueue_footprint s f st0) E)
                 end).
    destruct (_ || _)%bool.
    + right. eexists. split; reflexivity.
    + left. eexists. exact (proj2 (enqueue_footprint _ _ st) E).
  - intros pos ->. cbn [ask]. unfold sendSetPosition, enqueue, addToWriteQueue.
    destruct (negb _); reflexivity.
Qed.

End Requests.

(** ** The properties on the sample objects, continued *)

Lemma sample_decls_plain : plain_decls sample_decls.
Proof.
  split; [reflexivity|].
  intro c. destruct c; vm_compute; split; discriminate.
Defined.

Lemma sample_up_answering : answering sample_up.
Proof.
  exists (service "3"). split; [reflexivity|].
  apply Constant_always_answers. discriminate.
Defined.

(** [process_any_service] on [sample_breaking]: one lambda is invoked,
    the second write fails, the connection is lost. *)
Lemma process_any_service_witness :
  error_ sample_breaking = Error.None /\
  exists evs left tail,
    trace (state_of (process sample_decls [false] sample_breaking))
    = trace sample_breaking ++ evs /\
    writeQueue sample_breaking ++ enqueued evs = map fst (invocations evs) ++ left /\
    io evs = flat_map exchange (invocations evs) ++ tail /\
    ((error_ (state_of (process sample_decls [false] sample_breaking)) = Error.None /\
      left = writeQueue (state_of (process sample_decls [false] sample_breaking)) /\
      tail = []) \/
     (error_ (state_of (process sample_decls [false] sample_breaking))
      = Error.LostConnection /\
      writeQueue (state_of (process sample_decls [false] sample_breaking)) = [] /\
      exists m f rest, left = (m, f) :: rest /\ failed_exchange m tail)).
Proof.
  split; [reflexivity|].
  apply (process_any_service sample_decls [false] sample_breaking
           (state_of (process sample_decls [false] sample_breaking))).
  - reflexivity.
  - vm_compute. reflexivity.
Defined.

(** [process_left_in_order] on [sample_overflowing]: the lambda of the
    poll returns and pushes the fetch of the queue, std::stoi in the
    lambda of the second command throws out_of_range. *)
Lemma process_left_in_order_witness :
  error_ sample_overflowing = Error.None /\
  process sample_decls [false] sample_overflowing
  = Aborted OutOfRange (state_of (process sample_decls [false] sample_overflowing)) /\
  exists evs before c r rest,
    trace (state_of (process sample_decls [false] sample_overflowing))
    = trace sample_overflowing ++ evs /\
    invocations evs = before ++ [(c, r)] /\
    writeQueue (state_of (process sample_decls [false] sample_overflowing)) = c :: rest /\
    writeQueue sample_overflowing ++ enqueued evs
    = map fst before
      ++ writeQueue (state_of (process sample_decls [false] sample_overflowing)) /\
    io evs = flat_map exchange (invocations evs) /\
    error_ (state_of (process sample_decls [false] sample_overflowing)) = Error.None /\
    run_handler sample_decls (snd c) r
      (state_of (process sample_decls [false] sample_overflowing))
    = Aborted OutOfRange (state_of (process sample_decls [false] sample_overflowing)).
Proof.
  assert (R : process sample_decls [false] sample_overflowing
              = Aborted OutOfRange
                  (state_of (process sample_decls [false] sample_overflowing)))
    by (vm_compute; reflexivity).
  split; [reflexivity|]. split; [exact R|].
  apply (process_left_in_order sample_decls [false] sample_overflowing
           (state_of (process sample_decls [false] sample_overflowing)) OutOfRange).
  - reflexivity.
  - exact R.
  - discriminate.
Defined.

(** The run behind that witness: the poll was invoked before the command
    whose lambda threw, which is still at the front of the queue with
    the fetch of the queue behind it. *)
Example process_left_in_order_run :
  map fst (invocations (trace (state_of (process sample_decls [false] sample_overflowing))))
  = [("11"%string, cb_sendGetQueueSize); ("24"%string, cb_sendGetSong)] /\
  writeQueue (state_of (process sample_decls [false] sample_overflowing))
  = [("24"%string, cb_sendGetSong); getQueue_request sample_decls].
Proof. vm_compute. auto. Qed.

(** [requests_addressed] for a sendSetQueue of three songs on
    [sample_up]. *)
Lemma requests_addressed_witness :
  plain_decls sample_decls /\
  exists new,
    writeQueue (ask sample_decls (AskSetQueue [7; 8; 9]) sample_up)
    = writeQueue sample_up ++ new /\
    Forall (addressed sample_decls) new /\
    (List.length new <= 1)%nat /\
    (error_ sample_up <> Error.None -> new = []) /\
    addressed sample_decls (getQueue_request sample_decls) /\
    addressed sample_decls (getSubQueue_request sample_decls).
Proof.
  split; [exact sample_decls_plain|].
  exact (requests_addressed sample_decls (AskSetQueue [7; 8; 9]) sample_up
           sample_decls_plain).
Defined.

(** [Sysmodule_new_outcomes] behind the service that answers "3", the
    version of the sample declarations: the two fetches are pending. *)
Lemma Sysmodule_new_outcomes_witness :
  exists st : State Constant Constant,
    Sysmodule_new sample_decls (service "3") 0 = Returned st /\
    error_ st = Error.None /\
    writeQueue st = [getQueue_request sample_decls; getSubQueue_request sample_decls].
Proof.
  pose proof (Sysmodule_new_outcomes sample_decls (service "3") 0) as H.
  exists (state_of (Sysmodule_new sample_decls (service "3") 0)).
  assert (R : Sysmodule_new sample_decls (service "3") 0
              = Returned (state_of (Sysmodule_new sample_decls (service "3") 0)))
    by (vm_compute; reflexivity).
  rewrite R in H. destruct H as (H & _).
  split; [exact R|]. split; [reflexivity|]. apply H. reflexivity.
Defined.

(** [nothing_pending_when_down] on [sample_session]: the worker loses
    the connection on its first write, the second request is refused,
    and the reconnection finds no socket. *)
Lemma nothing_pending_when_down_witness :
  Sysmodule_new sample_decls sample_one_socket 0
  = Returned (state_of (Sysmodule_new sample_decls sample_one_socket 0)) /\
  error_ (state_of (perform_all sample_decls sample_session
                      (state_of (Sysmodule_new sample_decls sample_one_socket 0))))
  = Error.NotConnected /\
  writeQueue (state_of (perform_all sample_decls sample_session
                          (state_of (Sysmodule_new sample_decls sample_one_socket 0))))
  = [].
Proof.
  assert (R : Sysmodule_new sample_decls sample_one_socket 0
              = Returned (state_of (Sysmodule_new sample_decls sample_one_socket 0)))
    by (vm_compute; reflexivity).
  assert (E : error_ (state_of (perform_all sample_decls sample_session
                         (state_of (Sysmodule_new sample_decls sample_one_socket 0))))
              = Error.NotConnected)
    by (vm_compute; reflexivity).
  split; [exact R|]. split; [exact E|].
  apply (nothing_pending_when_down sample_decls sample_one_socket 0 sample_session _ R).
  rewrite E. discriminate.
Defined.

(** [down_for_good] on an object that was never connected. *)
Lemma down_for_good_witness :
  error_ sample_down = Error.NotConnected /\
  exists st',
    perform_all sample_decls [Asks AskResume; RunTurn; WorkerRound true] sample_down
    = Returned st' /\
    error_ st' = error_ sample_down /\ writeQueue st' = writeQueue sample_down /\
    trace st' = trace sample_down /\ socket st' = socket sample_down.
Proof.
  split; [reflexivity|].
  apply (down_for_good sample_decls [Asks AskResume; RunTurn; WorkerRound true] sample_down);
    discriminate.
Defined.

(** [pending_survive_terminate] for the command pending in
    [sample_terminated]. *)
Lemma pending_survive_terminate_witness :
  writeQueue (state_of (reconnect sample_decls sample_terminated))
  = writeQueue (sendResume sample_decls sample_up) /\
  exists evs,
    trace (state_of (process sample_decls [false]
                       (state_of (reconnect sample_decls sample_terminated))))
    = trace (state_of (reconnect sample_decls sample_terminated)) ++ evs /\
    map fst (invocations evs) = writeQueue (sendResume sample_decls sample_up) ++ enqueued evs.
Proof.
  destruct (pending_survive_terminate sample_decls (sendResume sample_decls sample_up)
              (state_of (reconnect sample_decls sample_terminated))
              (state_of (process sample_decls [false]
                           (state_of (reconnect sample_decls sample_terminated)))))
    as (_ & _ & Q & H).
  - vm_compute. reflexivity.
  - split; [exact Q|]. apply H.
    + exists (service "3"). split; [vm_compute; reflexivity|].
      apply Constant_always_answers. discriminate.
    + vm_compute. reflexivity.
    + reflexivity.
    + vm_compute. reflexivity.
Defined.

(** [song_ids_round_trip] on three ids, one of them negative. *)
Lemma song_ids_round_trip_witness :
  parse_ids sample_decls (serialize_ids sample_decls [7; -8; 9]) = [7; -8; 9] /\
  parse_ids sample_decls (Cxx.to_string 13 +++ serialize_ids sample_decls [7; -8; 9])
  = [13; 7; -8; 9].
Proof.
  destruct (song_ids_round_trip sample_decls [7; -8; 9] sample_up) as (H1 & H2 & _).
  - reflexivity.
  - discriminate.
  - repeat constructor; discriminate.
  - split; [exact H1|]. apply H2. split; discriminate.
Defined.

(** [queue_reply_edges] on a reply that is no number. *)
Lemma queue_reply_edges_witness :
  parse_ids sample_decls "x" = [0] /\
  parse_ids sample_decls (DELIM sample_decls +++ "x") = parse_ids sample_decls "x".
Proof.
  destruct (queue_reply_edges sample_decls "x" sample_up)
    as (_ & _ & _ & _ & _ & _ & H7 & _ & _ & H10).
  split; [|apply H7; discriminate].
  apply H10; [reflexivity|discriminate|reflexivity|reflexivity].
Defined.

(** A reply with a NUL in it: the ids after the NUL are not stored, and
    a reply that begins with a NUL empties the cached queue. *)
Example queue_reply_nul :
  parse_ids sample_decls ("5" +++ String "000" ("0" +++ DELIM sample_decls +++ "7")) = [5] /\
  parse_ids sample_decls (String "000" "7") = [].
Proof. split; reflexivity. Qed.

(** [drain_terminates] on [sample_polling]: two commands pending, of
    weight three. *)
Lemma drain_terminates_witness :
  drain_fuel sample_decls 4 sample_polling = Some (drain sample_decls sample_polling) /\
  (List.length (invocations (trace (state_of (drain sample_decls sample_polling))))
   <= List.length (invocations (trace sample_polling)) + weight (writeQueue sample_polling))%nat.
Proof.
  destruct (drain_terminates sample_decls sample_polling) as (H1 & H2).
  split.
  - apply H1. vm_compute. reflexivity.
  - apply H2. reflexivity.
Defined.

(** [handler_footprint] for the lambda of sendGetSongIdx on a new
    index: both fetches are pushed; and for the lambda of sendSetRepeat
    on a reply that is no repeat mode: it returns. *)
Lemma handler_footprint_witness :
  (exists st' new,
     run_handler sample_decls cb_sendGetSongIdx "3" sample_up = Returned st' /\
     writeQueue st' = writeQueue sample_up ++ new /\
     (error_ sample_up <> Error.None -> new = []) /\
     error_ st' = error_ sample_up /\ limit_ st' = limit_ sample_up) /\
  (run_handler sample_decls (cb_sendSetRepeat RepeatMode.One) "7" sample_up
   = Returned sample_up \/
   run_handler sample_decls (cb_sendSetRepeat RepeatMode.One) "7" sample_up
   = Returned (set_repeatMode_ RepeatMode.One sample_up)).
Proof.
  destruct (handler_footprint sample_decls cb_sendGetSongIdx "3" sample_up) as (H & _).
  destruct (handler_footprint sample_decls cb_sendGetSongIdx "7" sample_up) as (_ & M).
  split; [|apply (M RepeatMode.One 7); reflexivity].
  assert (R : run_handler sample_decls cb_sendGetSongIdx "3" sample_up
              = Returned (state_of (run_handler sample_decls cb_sendGetSongIdx "3" sample_up)))
    by (vm_compute; reflexivity).
  rewrite R in H. destruct H as (new & Q & _ & _ & N & E & _ & _ & _ & L).
  exists (state_of (run_handler sample_decls cb_sendGetSongIdx "3" sample_up)), new.
  auto.
Defined.

(** [song_index_replies] for the index 5. *)
Lemma song_index_replies_witness :
  0 <= 5 <= Cxx.SIZE_MAX /\
  run_handler sample_decls cb_sendSetSongIdx (Cxx.to_string 5) sample_up
  = Returned (set_songIdx_ 5 sample_up) /\
  run_handler sample_decls cb_sendSetSongIdx "-1" sample_up
  = Returned (set_songIdx_ Cxx.SIZE_MAX sample_up).
Proof.
  assert (R : 0 <= 5 <= Cxx.SIZE_MAX) by (split; discriminate).
  destruct (song_index_replies sample_decls 5 0 sample_up R) as (_ & H & _ & _ & M & _).
  split; [exact R|]. split; [|exact M]. apply H. discriminate.
Defined.

(** [set_mode_replies] on the reply "1". *)
Lemma set_mode_replies_witness :
  exists st',
    run_handler sample_decls (cb_sendSetShuffle ShuffleMode.Off) "1" sample_up
    = Returned st' /\
    shuffleMode_ st' = shuffle_of sample_decls 1 /\
    writeQueue st' = writeQueue sample_up ++ accepted sample_up (getQueue_request sample_decls).
Proof.
  destruct (set_mode_replies sample_decls "1" sample_up) as (_ & H).
  apply (H ShuffleMode.Off 1). reflexivity.
Defined.

(** [playingFrom_label] on the reply " ". *)
Lemma playingFrom_label_witness :
  exists st',
    run_handler sample_decls cb_sendGetPlayingFrom " " sample_up = Returned st' /\
    playingFrom st' = EmptyString.
Proof.
  destruct (playingFrom_label sample_decls " " sample_up) as (_ & H & _). exact H.
Defined.

(** [poll_round] on [sample_polling], for a round with a poll. *)
Lemma poll_round_witness :
  answering sample_polling /\ error_ sample_polling = Error.None /\
  writeQueue (state_of (process_iteration sample_decls true sample_polling))
  = poll_commands sample_decls /\
  error_ (state_of (process_iteration sample_decls true sample_polling)) = Error.None.
Proof.
  split; [exact sample_polling_answering|]. split; [reflexivity|].
  destruct (poll_round sample_decls true sample_polling
              (state_of (process_iteration sample_decls true sample_polling)))
    as (Q & E & _).
  - exact sample_polling_answering.
  - reflexivity.
  - vm_compute. reflexivity.
  - split; [exact Q|exact E].
Defined.

Lemma sample_granted_flags (i : nat) :
  (i < 2)%nat -> done_flags (sample_granted (0 + i)%nat) 0%nat = false.
Proof. intro Hi. destruct i as [|[|i]]; try reflexivity; lia. Defined.

Lemma sample_granted_errors (i : nat) : error_ (sample_granted i) = Error.None.
Proof. unfold sample_granted. destruct (Nat.ltb i 2); reflexivity. Defined.

(** [wait_outcomes] on [sample_granted], and on an object whose lambda
    never runs. *)
Lemma wait_outcomes_witness :
  waitRequestDBLock 0 sample_granted 5 0 = Some true /\
  waitSongIdx 0 sample_granted 5 0 = Some (songIdx_ (sample_granted (0 + 2)%nat)) /\
  waitReset 0 (fun _ => sample_up) 5 0 = None.
Proof.
  split; [|split].
  - destruct (wait_outcomes 0 sample_granted 2 0 5) as (H & _).
    destruct H as (_ & H & _); try exact H.
    + exact sample_granted_flags.
    + intros i _. apply sample_granted_errors.
    + reflexivity.
    + lia.
  - destruct (wait_outcomes 0 sample_granted 2 0 5) as (H & _).
    destruct H as (_ & _ & _ & H); try exact H.
    + exact sample_granted_flags.
    + intros i _. apply sample_granted_errors.
    + reflexivity.
    + lia.
  - destruct (wait_outcomes 0 (fun _ => sample_up) 0 0 5) as (_ & H).
    destruct H as (_ & _ & H & _); [|exact H].
    intros _. split; reflexivity.
Defined.

(** [wait_lambdas] on the replies "7" and "x". *)
Lemma wait_lambdas_witness :
  run_handler sample_decls (cb_waitRequestDBLock 0) "7" sample_up
  = Returned (set_done 0 sample_up) /\
  run_handler sample_decls (cb_waitRequestDBLock 0) "x" sample_up
  = Aborted InvalidArgument sample_up /\
  (forall fuel t0, waitRequestDBLock 0 (fun _ => sample_up) fuel t0 = None /\
                   waitSongIdx 0 (fun _ => sample_up) fuel t0 = None).
Proof.
  split; [|split].
  - destruct (wait_lambdas sample_decls 0 "7" sample_up) as (H & _).
    destruct (H 7) as (R & _); [reflexivity|exact R].
  - destruct (wait_lambdas sample_decls 0 "x" sample_up) as (_ & _ & H).
    destruct (H InvalidArgument) as (R & _); [reflexivity|exact R].
  - destruct (wait_lambdas sample_decls 0 "x" sample_up) as (_ & _ & H).
    destruct (H InvalidArgument) as (_ & _ & R); [reflexivity|].
    apply R; reflexivity.
Defined.

(** [cached_numbers_in_types] on [sample_session]. *)
Lemma cached_numbers_in_types_witness :
  0 <= 0 <= Cxx.SIZE_MAX /\
  Sysmodule_new sample_decls sample_one_socket 0
  = Returned (state_of (Sysmodule_new sample_decls sample_one_socket 0)) /\
  in_types (state_of (perform_all sample_decls sample_session
                        (state_of (Sysmodule_new sample_decls sample_one_socket 0)))).
Proof.
  assert (Z0 : 0 <= 0 <= Cxx.SIZE_MAX) by (split; discriminate).
  assert (R : Sysmodule_new sample_decls sample_one_socket 0
              = Returned (state_of (Sysmodule_new sample_decls sample_one_socket 0)))
    by (vm_compute; reflexivity).
  split; [exact Z0|]. split; [exact R|].
  exact (cached_numbers_in_types sample_decls sample_one_socket 0 sample_session _ Z0 R).
Defined.

(** [request_footprint] for sendSetPosition on an object that is down:
    the position is stored and nothing is pushed. *)
Lemma request_footprint_witness :
  error_ sample_down = Error.NotConnected /\
  ask sample_decls (AskSetPosition (Cxx.double_of_Z 42)) sample_down
  = set_position_ (Cxx.double_of_Z 42) sample_down /\
  position_ (ask sample_decls (AskSetPosition (Cxx.double_of_Z 42)) sample_down)
  = Cxx.double_of_Z 42 /\
  ((exists c, ask sample_decls AskNext sample_up
              = log [Enqueued c] (set_writeQueue (writeQueue sample_up ++ [c]) sample_up)) \/
   (exists q, AskNext = AskSetQueue q /\ ask sample_decls AskNext sample_up = sample_up)).
Proof.
  destruct (request_footprint sample_decls (AskSetPosition (Cxx.double_of_Z 42)) sample_down)
    as (H1 & _ & H3).
  destruct (request_footprint sample_decls AskNext sample_up) as (_ & H2 & _).
  split; [reflexivity|]. split; [apply H1; discriminate|].
  split; [apply H3; reflexivity|apply H2; reflexivity].
Defined.

(** C7 as stated fails.  A caller waits in waitRequestDBLock with its
    flag unset.  During its first sleep the worker goes a round: the
    write fails, the error field becomes LostConnection and the queue is
    cleared, the caller's lambda with it, without having run.  Still
    during that sleep Application::run takes a turn and reconnects: the
    error field is None again.  At its wake-ups the caller finds the flag
    unset and the error field clear; with the object at rest it never
    returns, however many rounds it waits. *)
Lemma wait_returns_on_error_counterexample :
  error_ sample_waiting = Error.None /\
  done_flags sample_waiting 0%nat = false /\
  In ("30"%string, cb_waitRequestDBLock 0) (writeQueue sample_waiting) /\
  process_iteration sample_decls false sample_waiting = Returned sample_dropped /\
  error_ sample_dropped = Error.LostConnection /\
  invocations (trace sample_dropped) = [] /\
  Application_run_turn sample_decls sample_dropped = Returned sample_reconnected /\
  error_ sample_reconnected = Error.None /\
  writeQueue sample_reconnected = [] /\
  done_flags sample_reconnected 0%nat = false /\
  process_iteration sample_decls false sample_reconnected = Returned sample_reconnected /\
  (forall fuel, wait_loop 0 sample_missed fuel 0 = None) /\
  ~ (exists fuel, waitRequestDBLock 0 sample_missed fuel 0 = Some false).
Proof.
  assert (N : forall fuel, wait_loop 0 sample_missed fuel 0 = None).
  { intro fuel. apply wait_loop_never. intro t. unfold sample_missed.
    destruct (Nat.eqb t 0); split; vm_compute; reflexivity. }
  split; [vm_compute; reflexivity|]. split; [vm_compute; reflexivity|].
  split; [vm_compute; auto|]. split; [vm_compute; reflexivity|].
  split; [vm_compute; reflexivity|]. split; [vm_compute; reflexivity|].
  split; [vm_compute; reflexivity|]. split; [vm_compute; reflexivity|].
  split; [vm_compute; reflexivity|]. split; [vm_compute; reflexivity|].
  split; [vm_compute; reflexivity|]. split; [exact N|].
  intros (fuel & H). unfold waitRequestDBLock in H. rewrite N in H. discriminate H.
Qed.
